(** * Policy Pilot RAG backend: chunker, embedding batches, cache, rate limiter
      and resilience layer, embedded from the Python sources.

    Sources embedded:
    - [src/utils/text_processing.py]   (module [Chunker])
    - [src/utils/resilience.py]        (module [Resilience])
    - [src/services/embedding_service.py] (module [Embedding])
    - [src/api/rate_limiter.py]        (module [RateLimit])
    - [src/services/cache_service.py]  (module [Cache])

    Conventions.  A Python [str] is a list of code points.  Wall-clock
    readings ([time.time()]), token counts and memory percentages are Python
    floats in the source; they are embedded as exact rationals [Q].  Effects
    (the clock, [psutil], [uuid4], the wrapped callables) are threaded
    explicitly through the functions that use them. *)

From Stdlib Require Import String Ascii DecimalString.
From Stdlib Require Import ZArith QArith Qpower Qminmax Lia Lqa Bool Arith List.
Import ListNotations.

Local Open Scope Z_scope.

(* ================================================================== *)
(** ** Python string primitives *)
(* ================================================================== *)

Module Py.

(** A character is a Unicode code point. *)
Definition char : Type := N.
Definition str : Type := list char.

Definition of_string (s : string) : str :=
  map N_of_ascii (list_ascii_of_string s).

Definition len (s : str) : Z := Z.of_nat (length s).

(** [str.isspace] on one code point, which is also the class [\s] of [re]
    on [str] patterns and the set removed by [str.strip()] / split on by
    [str.split()]. *)
Definition isspace (c : char) : bool :=
  (((9 <=? c) && (c <=? 13)) || ((28 <=? c) && (c <=? 32))
   || (c =? 133) || (c =? 160) || (c =? 5760)
   || ((8192 <=? c) && (c <=? 8202))
   || (c =? 8232) || (c =? 8233) || (c =? 8239) || (c =? 8287)
   || (c =? 12288))%N.

Fixpoint drop_while (p : char -> bool) (s : str) : str :=
  match s with
  | [] => []
  | c :: tl => if p c then drop_while p tl else s
  end.

Fixpoint take_while (p : char -> bool) (s : str) : str :=
  match s with
  | [] => []
  | c :: tl => if p c then c :: take_while p tl else []
  end.

Definition lstrip (s : str) : str := drop_while isspace s.
Definition rstrip (s : str) : str := rev (drop_while isspace (rev s)).
Definition strip (s : str) : str := rstrip (lstrip s).

(** [s.split()]: maximal runs of non-whitespace characters. *)
Fixpoint split_aux (cur : str) (s : str) : list str :=
  match s with
  | [] => match cur with [] => [] | _ => [rev cur] end
  | c :: tl =>
      if isspace c
      then match cur with
           | [] => split_aux [] tl
           | _ => rev cur :: split_aux [] tl
           end
      else split_aux (c :: cur) tl
  end.

Definition split (s : str) : list str := split_aux [] s.

(** [sep.join(parts)] *)
Fixpoint join (sep : str) (parts : list str) : str :=
  match parts with
  | [] => []
  | [p] => p
  | p :: rest => p ++ sep ++ join sep rest
  end.

(** Slice index normalisation: negative indices count from the end, and
    everything is clamped to [0, len]. *)
Definition norm_index (n i : Z) : Z :=
  if i <? 0 then Z.max 0 (i + n) else Z.min i n.

(** [s[a:b]] *)
Definition slice (s : str) (a b : Z) : str :=
  let n := len s in
  let a' := norm_index n a in
  let b' := norm_index n b in
  firstn (Z.to_nat (b' - a')) (skipn (Z.to_nat a') s).

(** [s[a:]] *)
Definition slice_from (s : str) (a : Z) : str :=
  skipn (Z.to_nat (norm_index (len s) a)) s.

(** [s[:b]] *)
Definition slice_to (s : str) (b : Z) : str :=
  firstn (Z.to_nat (norm_index (len s) b)) s.

(** [str(n)] for an integer. *)
Definition str_of_int (n : Z) : str :=
  of_string (NilZero.string_of_int (Z.to_int n)).

(** [bool(s)]: a string is truthy when it is not empty. *)
Definition truthy (s : str) : bool :=
  match s with [] => false | _ => true end.

Definition str_eqb (a b : str) : bool :=
  if list_eq_dec N.eq_dec a b then true else false.

Definition contains_char (c : char) (s : str) : bool :=
  existsb (N.eqb c) s.

End Py.

(* ================================================================== *)
(** ** [re]: the one pattern the chunker compiles *)
(* ================================================================== *)

Module Re.
Import Py.

(** Character class [[.!?]]. *)
Definition is_sentence_end (c : char) : bool :=
  ((c =? 46) || (c =? 33) || (c =? 63))%N.

Definition run_length (p : char -> bool) (s : str) : nat :=
  length (take_while p s).

(** [[.!?]+\s+] anchored at the head of [s]: the greedy [[.!?]+] first
    takes the whole run of [j] terminators and gives characters back one at
    a time while [\s+] cannot match behind it; [\s+] then takes the whole
    whitespace run.  The result is the length of the match. *)
Fixpoint backtrack (j : nat) (s : str) : option nat :=
  match j with
  | O => None
  | S j' =>
      let w := run_length isspace (skipn j s) in
      if (0 <? w)%nat then Some (j + w)%nat else backtrack j' s
  end.

Definition match_here (s : str) : option nat :=
  backtrack (run_length is_sentence_end s) s.

(** [pattern.finditer(s)]: leftmost, non-overlapping matches as
    (start, end) offsets into [s]. *)
Fixpoint finditer_from (fuel : nat) (pos : nat) (s : str) : list (nat * nat) :=
  match fuel with
  | O => []
  | S fuel' =>
      match s with
      | [] => []
      | _ :: tl =>
          match match_here s with
          | Some m => (pos, (pos + m)%nat) :: finditer_from fuel' (pos + m)%nat (skipn m s)
          | None => finditer_from fuel' (S pos) tl
          end
      end
  end.

Definition sentence_endings_finditer (s : str) : list (nat * nat) :=
  finditer_from (S (length s)) 0%nat s.

End Re.

(* ================================================================== *)
(** ** [src/utils/text_processing.py]: TextChunker *)
(* ================================================================== *)

Module Chunker.
Import Py.

Inductive error : Type :=
| ValidationError (msg : string)
| DocumentProcessingError (msg : string).

(** The two fields of the [settings] object ([src/config/settings.py]) the
    chunker reads.  [Settings] is a pydantic [BaseSettings]: each field is an
    [int] taken from the environment (or the [.env] file) when the process
    starts, and has the default below when the environment does not set
    it. *)
Record Settings : Type := mkSettings {
  settings_chunk_size : Z;
  settings_chunk_overlap : Z
}.

(** [Field(default=1000)] and [Field(default=200)]. *)
Definition default_settings : Settings := mkSettings 1000 200.

Record TextChunker : Type := mkTextChunker {
  chunk_size : Z;
  chunk_overlap : Z
}.

(** [x or default] on an optional integer: [None] and [0] are falsy. *)
Definition or_else (x : option Z) (d : Z) : Z :=
  match x with
  | Some v => if v =? 0 then d else v
  | None => d
  end.

(** [TextChunker.__init__], in a process whose settings are [settings]. *)
Definition init_with_settings (settings : Settings)
    (chunk_size chunk_overlap : option Z) : error + TextChunker :=
  let cs := or_else chunk_size (settings_chunk_size settings) in
  let ov := or_else chunk_overlap (settings_chunk_overlap settings) in
  if cs <=? 0 then inl (ValidationError "Chunk size must be positive")
  else if ov <? 0 then inl (ValidationError "Chunk overlap must be non-negative")
  else if ov >=? cs then inl (ValidationError "Chunk overlap must be less than chunk size")
  else inr (mkTextChunker cs ov).

(** [TextChunker.__init__] in a process whose environment sets neither
    [CHUNK_SIZE] nor [CHUNK_OVERLAP]. *)
Definition init (chunk_size chunk_overlap : option Z) : error + TextChunker :=
  init_with_settings default_settings chunk_size chunk_overlap.

(** The chunk dictionary.  [start_position], [end_position] and
    [chunk_index] live in the dictionary's ['metadata'] entry.  The
    ['page_number'] entry and the document-level metadata copied into every
    chunk depend only on the chunk text and on the metadata argument and are
    left out. *)
Record chunk : Type := mkChunk {
  chunk_id : str;
  content : str;
  chunk_index : Z;
  start_position : option Z;
  end_position : option Z;
  word_count : Z;
  char_count : Z
}.

(** [int(n * 0.8)] for a string length [n]: the product is rounded to the
    nearest double and truncated, which for every length a string can have
    is the integer part of [4n/5]. *)
Definition int_times_0_8 (n : Z) : Z := (4 * n) / 5.

(** [_break_at_sentence_boundary] *)
Definition _break_at_sentence_boundary
    (chunk_text full_text : str) (start end_ : Z) : str :=
  let search_start := Z.max 0 (int_times_0_8 (len chunk_text)) in
  let search_text := slice_from chunk_text search_start in
  let matches := Re.sentence_endings_finditer search_text in
  match rev matches with
  | last_match :: _ =>
      let new_end := start + search_start + Z.of_nat (snd last_match) in
      slice full_text start new_end
  | [] => chunk_text
  end.

Section WithEntropy.

(** [uuid4_hex8 k] is what the [k]-th call of [uuid4().hex[:8]] in this
    process returns; the number of calls made so far is threaded
    through every function that draws an id. *)
Variable uuid4_hex8 : nat -> str.

(** [_create_single_chunk] *)
Definition _create_single_chunk
    (text document_id : str) (index : Z) (start_pos end_pos : option Z)
    (draws : nat) : chunk * nat :=
  let id :=
    document_id ++ of_string "_chunk_" ++ str_of_int index
                ++ of_string "_" ++ uuid4_hex8 draws in
  let wc := Z.of_nat (length (split text)) in
  let cc := len text in
  ({| chunk_id := id;
      content := strip text;
      chunk_index := index;
      start_position := start_pos;
      end_position := end_pos;
      word_count := wc;
      char_count := cc |},
   S draws).

Variable self : TextChunker.
Variable text : str.
Variable document_id : str.

(** The [while start < text_length] loop of [_create_chunks]; the result
    is the loop's variables at exit, [None] when [fuel] iterations were
    not enough. *)
Fixpoint chunk_loop (fuel : nat) (start index : Z) (chunks : list chunk)
    (draws : nat) : option (Z * Z * list chunk * nat) :=
  match fuel with
  | O => None
  | S fuel' =>
      let text_length := len text in
      if start <? text_length then
        let end_ := Z.min (start + chunk_size self) text_length in
        let chunk_text := slice text start end_ in
        let chunk_text :=
          if end_ <? text_length
          then _break_at_sentence_boundary chunk_text text start end_
          else chunk_text in
        let '(c, draws') :=
          _create_single_chunk chunk_text document_id index
                               (Some start) (Some end_) draws in
        let chunks' := chunks ++ [c] in
        let start' := end_ - chunk_overlap self in
        let index' := index + 1 in
        if start' >=? text_length - chunk_overlap self
        then Some (start', index', chunks', draws')
        else chunk_loop fuel' start' index' chunks' draws'
      else Some (start, index, chunks, draws)
  end.

(** [_create_chunks] *)
Definition _create_chunks_fuel (fuel : nat) (draws : nat)
    : option (list chunk * nat) :=
  let text_length := len text in
  if text_length <=? chunk_size self then
    let '(c, draws') :=
      _create_single_chunk text document_id 0 None None draws in
    Some ([c], draws')
  else
    match chunk_loop fuel 0 0 [] draws with
    | None => None
    | Some (start, index, chunks, draws') =>
        if start <? text_length then
          let remaining_text := slice_from text start in
          if 0 <? len (strip remaining_text) then
            let '(c, draws'') :=
              _create_single_chunk remaining_text document_id index
                                   (Some start) (Some text_length) draws' in
            Some (chunks ++ [c], draws'')
          else Some (chunks, draws')
        else Some (chunks, draws')
    end.

(** One iteration per character is always enough when the window
    advances (see [chunk_loop_terminates]). *)
Definition _create_chunks (draws : nat) : option (list chunk * nat) :=
  _create_chunks_fuel (S (length text)) draws.

End WithEntropy.

(** The configurations [__init__] accepts. *)
Definition valid_config (self : TextChunker) : Prop :=
  0 < chunk_size self /\ 0 <= chunk_overlap self < chunk_size self.

(** The characters a chunk holds, as a range of positions of the combined
    text: it starts at [start_position] (0 for the single-chunk case) and
    is [char_count] characters long. *)
Definition span_start (c : chunk) : Z :=
  match start_position c with Some s => s | None => 0 end.

Definition span_covers (c : chunk) (p : Z) : bool :=
  (span_start c <=? p) && (p <? span_start c + char_count c).

Definition covered (chunks : list chunk) (p : Z) : bool :=
  existsb (fun c => span_covers c p) chunks.

(** No gaps: every position of the text is inside the span of a chunk. *)
Definition covers_text (chunks : list chunk) (text : str) : Prop :=
  forall p, 0 <= p < len text -> covered chunks p = true.

(** What two runs are compared on besides the id: everything in the chunk
    but [chunk_id]. *)
Definition boundaries (c : chunk) : str * Z * option Z * option Z * Z * Z :=
  (content c, chunk_index c, start_position c, end_position c,
   word_count c, char_count c).

(** The part of a chunk id that is computed from the arguments. *)
Definition id_prefix (document_id : str) (index : Z) : str :=
  document_id ++ of_string "_chunk_" ++ str_of_int index ++ of_string "_".

(** The id of a chunk is its computed prefix followed by one draw. *)
Definition id_from (document_id : str) (rng : nat -> str) (c : chunk) : Prop :=
  exists k, chunk_id c = id_prefix document_id (chunk_index c) ++ rng k.

(** The issues [validate_chunks] reports, with the position of the chunk
    in the list.  A chunk here always has the three required fields, so
    the "Missing required field" issue of a bare dictionary cannot occur. *)
Inductive issue : Type :=
| EmptyContent (i : nat)
| WordCountMismatch (i : nat)
| CharacterCountMismatch (i : nat).

(** The body of the loop of [validate_chunks] for chunk number [i]. *)
Definition validate_chunk (i : nat) (c : chunk) : list issue :=
  (if negb (truthy (strip (content c))) then [EmptyContent i] else [])
  ++ (if Z.of_nat (length (split (content c))) =? word_count c
      then [] else [WordCountMismatch i])
  ++ (if len (content c) =? char_count c
      then [] else [CharacterCountMismatch i]).

Fixpoint validate_chunks_from (i : nat) (chunks : list chunk) : list issue :=
  match chunks with
  | [] => []
  | c :: rest => validate_chunk i c ++ validate_chunks_from (S i) rest
  end.

(** [validate_chunks] *)
Definition validate_chunks (chunks : list chunk) : list issue :=
  validate_chunks_from 0 chunks.

Definition is_character_count_mismatch (x : issue) : bool :=
  match x with CharacterCountMismatch _ => true | _ => false end.

Definition is_word_count_mismatch (x : issue) : bool :=
  match x with WordCountMismatch _ => true | _ => false end.

End Chunker.


(* ================================================================== *)
(** ** Insertion-ordered dictionaries keyed by strings *)
(* ================================================================== *)

Module Dict.
Import Py.

Section Ops.
Context {V : Type}.

Definition t : Type := list (str * V).

(** [d.get(k)] / [k in d] *)
Fixpoint lookup (k : str) (d : t) : option V :=
  match d with
  | [] => None
  | (k', v) :: tl => if str_eqb k k' then Some v else lookup k tl
  end.

Definition mem (k : str) (d : t) : bool :=
  match lookup k d with Some _ => true | None => false end.

(** [del d[k]] *)
Definition remove (k : str) (d : t) : t :=
  filter (fun kv => negb (str_eqb k (fst kv))) d.

(** [d[k] = v]: an existing key keeps its position, a new key goes to
    the end. *)
Fixpoint assign (k : str) (v : V) (d : t) : t :=
  match d with
  | [] => [(k, v)]
  | (k', v') :: tl =>
      if str_eqb k k' then (k', v) :: tl else (k', v') :: assign k v tl
  end.

(** [OrderedDict.move_to_end(k)] for a key that is present. *)
Definition move_to_end (k : str) (d : t) : t :=
  match lookup k d with
  | Some v => remove k d ++ [(k, v)]
  | None => d
  end.

End Ops.
Arguments t : clear implicits.

End Dict.

(* ================================================================== *)
(** ** [src/utils/resilience.py] *)
(* ================================================================== *)

Module Resilience.
Import Py.

Inductive CircuitState : Type := CLOSED | OPEN | HALF_OPEN.

Record RetryConfig : Type := mkRetryConfig {
  max_attempts : Z;
  base_delay : Q;
  max_delay : Q;
  exponential_base : Q;
  jitter : bool
}.

Definition default_RetryConfig : RetryConfig :=
  mkRetryConfig 3 1 60 2 true.

(** The configurations for which the float arithmetic between two attempts
    of [retry] raises nothing.  With at most 1024 attempts the delay is
    computed for the attempts 0 to 1022, and with a base between 0 and 2 the
    largest power is [2.0 ** 1022], a float ([2.0 ** 1024] raises
    [OverflowError]).  With non-negative delays of at most [10 ** 9] seconds
    [time.sleep] accepts every delay, jitter included (it raises [ValueError]
    for a negative delay and [OverflowError] beyond about [9.2e9]
    seconds). *)
Definition configured_within_range (cfg : RetryConfig) : Prop :=
  max_attempts cfg <= 1024 /\
  (0 <= base_delay cfg)%Q /\
  (0 <= exponential_base cfg <= 2)%Q /\
  (0 <= max_delay cfg <= 1000000000)%Q.

Record CircuitBreakerConfig : Type := mkCircuitBreakerConfig {
  failure_threshold : Z;
  recovery_timeout : Q;
  success_threshold : Z;
  timeout : Q
}.

Definition default_CircuitBreakerConfig : CircuitBreakerConfig :=
  mkCircuitBreakerConfig 5 60 3 30.

Record RetryHandler : Type := mkRetryHandler { retry_config : RetryConfig }.

Record CircuitBreaker : Type := mkCircuitBreaker {
  config : CircuitBreakerConfig;
  state : CircuitState;
  failure_count : Z;
  success_count : Z;
  last_failure_time : Q
}.

(** [CircuitBreaker.__init__] *)
Definition new_CircuitBreaker (cfg : option CircuitBreakerConfig) : CircuitBreaker :=
  mkCircuitBreaker
    (match cfg with Some c => c | None => default_CircuitBreakerConfig end)
    CLOSED 0 0 0.

(** [RetryHandler.__init__] *)
Definition new_RetryHandler (cfg : option RetryConfig) : RetryHandler :=
  mkRetryHandler (match cfg with Some c => c | None => default_RetryConfig end).

Definition set_state (cb : CircuitBreaker) (s : CircuitState) : CircuitBreaker :=
  mkCircuitBreaker (config cb) s (failure_count cb) (success_count cb)
                   (last_failure_time cb).

Record ResilienceManager : Type := mkResilienceManager {
  retry_handlers : Dict.t RetryHandler;
  circuit_breakers : Dict.t CircuitBreaker
}.


Section WithWorld.

(** Everything outside the breaker: the downstream service, the clock
    and the random generator.  [R] is what the wrapped callable returns,
    [E] the exceptions the downstream service has of its own. *)
Variables W R E : Type.

Inductive exn : Type :=
| PolicyPilotException (msg : string)
| TypeError (msg : string)
| ServiceError (e : E).

Definition outcome : Type := (exn + R)%type.

(** [time.time()], [time.sleep(d)] and [random.uniform(a, b)] *)
Variable time : W -> Q.
Variable sleep : Q -> W -> W.
Variable uniform : Q -> Q -> W -> Q * W.

(** A wrapped callable, with its arguments already supplied. *)
Definition callable : Type := W -> outcome * W.

(** [RetryHandler._calculate_delay], where the source returns a delay: in
    floats, [exponential_base ** attempt] raises [OverflowError] once the
    power leaves the range of a float (from attempt 1024 on at base 2.0); the
    function here is total.  [configured_within_range] below bounds the
    configurations to those where the source computes every delay. *)
Definition _calculate_delay (self : RetryHandler) (attempt : Z) (w : W) : Q * W :=
  let cfg := retry_config self in
  let delay :=
    Qmin (base_delay cfg * Qpower (exponential_base cfg) attempt)%Q
         (max_delay cfg) in
  if jitter cfg then
    let '(j, w') := uniform 0%Q (delay * (1 # 10))%Q w in
    ((delay + j)%Q, w')
  else (delay, w).

(** The [for attempt in range(max_attempts)] loop of [retry], with
    [n] iterations left; falling out of the loop executes
    [raise last_exception]. *)
Fixpoint retry_loop (self : RetryHandler) (func : callable) (n : nat)
    (attempt : Z) (last_exception : option exn) (w : W) : outcome * W :=
  match n with
  | O =>
      match last_exception with
      | Some e => (inl e, w)
      | None => (inl (TypeError "exceptions must derive from BaseException"), w)
      end
  | S n' =>
      let '(r, w1) := func w in
      match r with
      | inr v => (inr v, w1)
      | inl e =>
          if attempt =? max_attempts (retry_config self) - 1
          then (inl e, w1)
          else
            let '(delay, w2) := _calculate_delay self attempt w1 in
            retry_loop self func n' (attempt + 1) (Some e) (sleep delay w2)
      end
  end.

(** [RetryHandler.retry] *)
Definition retry (self : RetryHandler) (func : callable) (w : W) : outcome * W :=
  retry_loop self func (Z.to_nat (max_attempts (retry_config self))) 0 None w.

(** [CircuitBreaker._should_attempt_reset] *)
Definition _should_attempt_reset (self : CircuitBreaker) (w : W) : bool :=
  Qle_bool (recovery_timeout (config self)) (time w - last_failure_time self)%Q.

(** [CircuitBreaker._on_success] *)
Definition _on_success (self : CircuitBreaker) : CircuitBreaker :=
  match state self with
  | HALF_OPEN =>
      let sc := success_count self + 1 in
      if sc >=? success_threshold (config self)
      then mkCircuitBreaker (config self) CLOSED 0 0 (last_failure_time self)
      else mkCircuitBreaker (config self) HALF_OPEN (failure_count self) sc
                            (last_failure_time self)
  | CLOSED =>
      mkCircuitBreaker (config self) CLOSED 0 (success_count self)
                       (last_failure_time self)
  | OPEN => self
  end.

(** [CircuitBreaker._on_failure] *)
Definition _on_failure (self : CircuitBreaker) (w : W) : CircuitBreaker :=
  let fc := failure_count self + 1 in
  let lft := time w in
  match state self with
  | HALF_OPEN => mkCircuitBreaker (config self) OPEN fc (success_count self) lft
  | CLOSED =>
      if fc >=? failure_threshold (config self)
      then mkCircuitBreaker (config self) OPEN fc (success_count self) lft
      else mkCircuitBreaker (config self) CLOSED fc (success_count self) lft
  | OPEN => mkCircuitBreaker (config self) OPEN fc (success_count self) lft
  end.

(** The check at the head of [call]: either the breaker the call goes on
    with, or the exception raised without touching [func]. *)
Definition entry_check (self : CircuitBreaker) (w : W) : exn + CircuitBreaker :=
  match state self with
  | OPEN =>
      if _should_attempt_reset self w
      then inr (set_state self HALF_OPEN)
      else inl (PolicyPilotException "Circuit breaker is OPEN")
  | _ => inr self
  end.

(** [CircuitBreaker.call] *)
Definition call (self : CircuitBreaker) (func : callable) (w : W)
    : outcome * CircuitBreaker * W :=
  match entry_check self w with
  | inl e => (inl e, self, w)
  | inr self1 =>
      let '(r, w1) := func w in
      match r with
      | inr v => (inr v, _on_success self1, w1)
      | inl e => (inl e, _on_failure self1 w1, w1)
      end
  end.

(** [ResilienceManager.get_retry_handler] *)
Definition get_retry_handler (self : ResilienceManager) (service_name : str)
    (cfg : option RetryConfig) : RetryHandler * ResilienceManager :=
  match Dict.lookup service_name (retry_handlers self) with
  | Some h => (h, self)
  | None =>
      let h := new_RetryHandler cfg in
      (h, mkResilienceManager
            (Dict.assign service_name h (retry_handlers self))
            (circuit_breakers self))
  end.

(** [ResilienceManager.get_circuit_breaker] *)
Definition get_circuit_breaker (self : ResilienceManager) (service_name : str)
    (cfg : option CircuitBreakerConfig) : CircuitBreaker * ResilienceManager :=
  match Dict.lookup service_name (circuit_breakers self) with
  | Some cb => (cb, self)
  | None =>
      let cb := new_CircuitBreaker cfg in
      (cb, mkResilienceManager
             (retry_handlers self)
             (Dict.assign service_name cb (circuit_breakers self)))
  end.

(** The breaker is an object held by the manager's dictionary: what
    [call] does to it is seen through the dictionary afterwards. *)
Definition store_circuit_breaker (self : ResilienceManager) (service_name : str)
    (cb : CircuitBreaker) : ResilienceManager :=
  mkResilienceManager (retry_handlers self)
                      (Dict.assign service_name cb (circuit_breakers self)).

(** [ResilienceManager.resilient_call] *)
Definition resilient_call (self : ResilienceManager) (service_name : str)
    (func : callable) (w : W) : outcome * ResilienceManager * W :=
  let '(cb, self1) := get_circuit_breaker self service_name None in
  let '(r, cb', w1) := call cb func w in
  let self2 := store_circuit_breaker self1 service_name cb' in
  match r with
  | inr v => (inr v, self2, w1)
  | inl _ =>
      (* except Exception as e: the retry handler runs the raw call *)
      let '(h, self3) := get_retry_handler self2 service_name None in
      let '(r2, w2) := retry h func w1 in
      (r2, self3, w2)
  end.

(** The wrapper the decorator [retry_on_failure(max_attempts, base_delay)]
    puts around [func]: every call builds a handler and retries through
    it. *)
Definition retry_on_failure (max_attempts : Z) (base_delay : Q) (func : callable)
    : callable :=
  fun w =>
    let retry_handler :=
      new_RetryHandler (Some (mkRetryConfig max_attempts base_delay 60 2 true)) in
    retry retry_handler func w.

(** The wrapper the decorator
    [circuit_breaker(service_name, failure_threshold, recovery_timeout)] puts
    around [func]: every call builds a breaker and calls through it; the
    breaker is dropped when the call is over. *)
Definition circuit_breaker (service_name : str) (failure_threshold : Z)
    (recovery_timeout : Q) (func : callable) : callable :=
  fun w =>
    let circuit_breaker :=
      new_CircuitBreaker
        (Some (mkCircuitBreakerConfig failure_threshold recovery_timeout 3 30)) in
    let '(r, _, w') := call circuit_breaker func w in
    (r, w').

(** What a client of one breaker does over time: it lets time pass, or
    it makes a call through the breaker. *)
Inductive event : Type :=
| Wait (d : Q)
| Call (func : callable).

(** A sequence of events on one breaker; the outcomes of the calls are
    collected in order. *)
Fixpoint run (self : CircuitBreaker) (events : list event) (w : W)
    : list outcome * CircuitBreaker * W :=
  match events with
  | [] => ([], self, w)
  | Wait d :: rest => run self rest (sleep d w)
  | Call f :: rest =>
      let '(r, self1, w1) := call self f w in
      let '(rs, self2, w2) := run self1 rest w1 in
      (r :: rs, self2, w2)
  end.

End WithWorld.

Arguments PolicyPilotException {E} msg.
Arguments TypeError {E} msg.
Arguments ServiceError {E} e.
Arguments Wait {W R E} d.
Arguments Call {W R E} func.
Arguments _calculate_delay {W} uniform self attempt w.
Arguments retry_loop {W R E} sleep uniform self func n attempt last_exception w.
Arguments retry {W R E} sleep uniform self func w.
Arguments _should_attempt_reset {W} time self w.
Arguments _on_failure {W} time self w.
Arguments entry_check {W E} time self w.
Arguments call {W R E} time self func w.
Arguments resilient_call {W R E} time sleep uniform self service_name func w.
Arguments run {W R E} time sleep self events w.
Arguments retry_on_failure {W R E} sleep uniform max_attempts base_delay func w.
Arguments circuit_breaker {W R E} time service_name failure_threshold recovery_timeout func w.

End Resilience.

(* ================================================================== *)
(** ** [src/services/embedding_service.py] *)
(* ================================================================== *)

Module Embedding.
Import Py.

Inductive exn : Type :=
| EmbeddingServiceError (msg : string)
| ValueError (msg : string)
| PsutilError.

(** The two fields of [psutil.virtual_memory()] the service reads:
    [available] in bytes and [percent] in [0, 100]. *)
Record svmem : Type := mkSvmem {
  available : Z;
  percent : Q
}.

(** The service object, once the model is loaded ([load_model] is then a
    no-op). *)
Record EmbeddingService : Type := mkEmbeddingService {
  max_seq_length : Z;
  _batch_size : Z;
  _memory_threshold : Q
}.

(** [EmbeddingService.__init__] and the default [max_seq_length]. *)
Definition new_EmbeddingService : EmbeddingService :=
  mkEmbeddingService 512 32 (8 # 10).

Definition Qlt_bool (a b : Q) : bool := negb (Qle_bool b a).

(** [_preprocess_text]; the argument is a [str]. *)
Definition _preprocess_text (self : EmbeddingService) (text : str) : str :=
  if negb (truthy text) then []
  else
    let processed := strip text in
    let processed :=
      if len processed >? max_seq_length self * 4
      then slice_to processed (max_seq_length self * 4)
      else processed in
    join (of_string " ") (split processed).

Section WithWorld.

(** The process environment ([psutil], the garbage collector) and the
    vectors of the model.  [virtual_memory] answers [None] when
    [psutil.virtual_memory()] raises.  [embed t] is the row
    [model.encode] returns for sentence [t]; encoding a batch returns one
    row per sentence, in order. *)
Variables W Vec : Type.
Variable virtual_memory : W -> option svmem * W.
Variable gc_collect : W -> W.
Variable embed : str -> Vec.

(** The statements inside the [try] of [_check_memory_usage]. *)
Definition _check_memory_usage_try (self : EmbeddingService) (w : W)
    : (exn + unit) * W :=
  match virtual_memory w with
  | (None, w1) => (inl PsutilError, w1)
  | (Some memory, w1) =>
      if Qlt_bool (_memory_threshold self) (percent memory / 100)%Q then
        let w2 := gc_collect w1 in
        match virtual_memory w2 with
        | (None, w3) => (inl PsutilError, w3)
        | (Some memory', w3) =>
            if Qlt_bool (_memory_threshold self) (percent memory' / 100)%Q
            then (inl (EmbeddingServiceError "Memory usage too high"), w3)
            else (inr tt, w3)
        end
      else (inr tt, w1)
  end.

(** [_check_memory_usage]: the body above under
    [except Exception as e: logger.warning(...)]. *)
Definition _check_memory_usage (self : EmbeddingService) (w : W)
    : (exn + unit) * W :=
  match _check_memory_usage_try self w with
  | (inl _, w') => (inr tt, w')
  | (inr tt, w') => (inr tt, w')
  end.

(** [_get_optimal_batch_size] *)
Definition _get_optimal_batch_size (self : EmbeddingService) (num_texts : Z)
    (w : W) : Z * W :=
  match virtual_memory w with
  | (None, w1) => (_batch_size self, w1)
  | (Some memory, w1) =>
      let available_memory_gb :=
        (inject_Z (available memory) / inject_Z (1024 ^ 3))%Q in
      let base_batch_size :=
        if Qlt_bool 8 available_memory_gb then 64
        else if Qlt_bool 4 available_memory_gb then 32
        else if Qlt_bool 2 available_memory_gb then 16
        else 8 in
      if num_texts <? 100 then (Z.min base_batch_size num_texts, w1)
      else if num_texts <? 1000 then (Z.min (base_batch_size * 2) num_texts, w1)
      else (Z.min (base_batch_size * 4) num_texts, w1)
  end.

(** The [for i in range(0, len(texts), batch_size)] loop of
    [_generate_embeddings_optimized] for a positive [batch_size], with
    [n] iterations left. *)
Fixpoint batch_loop (self : EmbeddingService) (texts : list str)
    (batch_size : Z) (n : nat) (i : Z) (all_embeddings : list (list Vec))
    (w : W) : (exn + list (list Vec)) * W :=
  match n with
  | O => (inr all_embeddings, w)
  | S n' =>
      let batch_texts :=
        firstn (Z.to_nat batch_size) (skipn (Z.to_nat i) texts) in
      let batch_num := i / batch_size + 1 in
      let batch_embeddings := map embed batch_texts in
      let all_embeddings' := all_embeddings ++ [batch_embeddings] in
      if batch_num mod 5 =? 0 then
        match _check_memory_usage self w with
        | (inl e, w') => (inl e, w')
        | (inr _, w') =>
            batch_loop self texts batch_size n' (i + batch_size) all_embeddings' w'
        end
      else batch_loop self texts batch_size n' (i + batch_size) all_embeddings' w
  end.

(** [len(range(0, n, step))] for a positive step. *)
Definition range_len (n step : Z) : nat := Z.to_nat ((n + step - 1) / step).

(** [_generate_embeddings_optimized].  A zero step makes [range] raise and
    a negative one leaves nothing for [np.vstack] to stack; both end in
    the function's [except] clause. *)
Definition _generate_embeddings_optimized (self : EmbeddingService)
    (texts : list str) (batch_size : Z) (w : W) : (exn + list Vec) * W :=
  if batch_size <=? 0
  then (inl (EmbeddingServiceError "Failed to generate optimized embeddings"), w)
  else
    match batch_loop self texts batch_size
                     (range_len (Z.of_nat (length texts)) batch_size) 0 [] w with
    | (inl _, w') =>
        (inl (EmbeddingServiceError "Failed to generate optimized embeddings"), w')
    | (inr all_embeddings, w') => (inr (concat all_embeddings), w')
    end.

(** [get_embeddings_batch] *)
Definition get_embeddings_batch (self : EmbeddingService) (texts : list str)
    (batch_size : option Z) (w : W) : (exn + list Vec) * W :=
  match texts with
  | [] => (inr [], w)
  | _ =>
      let '(batch_size, w1) :=
        match batch_size with
        | Some b => (b, w)
        | None => _get_optimal_batch_size self (Z.of_nat (length texts)) w
        end in
      let processed_texts := map (_preprocess_text self) texts in
      let valid_texts := filter (fun t => truthy (strip t)) processed_texts in
      match valid_texts with
      | [] => (inl (EmbeddingServiceError "No valid texts after preprocessing"), w1)
      | _ =>
          match _check_memory_usage self w1 with
          | (inl e, w2) =>
              (inl (EmbeddingServiceError "Failed to generate batch embeddings"), w2)
          | (inr _, w2) =>
              match _generate_embeddings_optimized self valid_texts batch_size w2 with
              | (inl e, w3) => (inl e, w3)
              | (inr embeddings, w3) => (inr embeddings, gc_collect w3)
              end
          end
      end
  end.

(** [get_embedding], with the model loaded. *)
Definition get_embedding (self : EmbeddingService) (text : str) : exn + Vec :=
  let processed_text := _preprocess_text self text in
  if negb (truthy (strip processed_text))
  then inl (EmbeddingServiceError "Empty text after preprocessing")
  else inr (embed processed_text).

(** The [for i in range(0, len(valid_texts), batch_size)] loop of
    [get_embeddings_streaming] for a positive [batch_size], run to its end:
    the batches yielded, in order.  The memory is checked after every
    batch. *)
Fixpoint stream_loop (self : EmbeddingService) (texts : list str)
    (batch_size : Z) (n : nat) (i : Z) (w : W) : (list (list Vec) * option exn) * W :=
  match n with
  | O => (([], None), w)
  | S n' =>
      let batch_texts :=
        firstn (Z.to_nat batch_size) (skipn (Z.to_nat i) texts) in
      let batch_embeddings := map embed batch_texts in
      match _check_memory_usage self w with
      | (inl e, w') =>
          (([batch_embeddings],
            Some (EmbeddingServiceError "Failed to generate streaming embeddings")), w')
      | (inr _, w') =>
          let '((rest, err), w'') :=
            stream_loop self texts batch_size n' (i + batch_size) w' in
          ((batch_embeddings :: rest, err), w'')
      end
  end.

(** [get_embeddings_streaming], consumed to its end: the batches it yields
    and the exception that ends the iteration, if any.  Every exception
    raised in the body, the one for "no valid texts" included, is re-raised
    by the [except] clause as "Failed to generate streaming embeddings".  A
    zero step makes [range] raise; a negative step gives an empty range. *)
Definition get_embeddings_streaming (self : EmbeddingService) (texts : list str)
    (batch_size : option Z) (w : W) : (list (list Vec) * option exn) * W :=
  match texts with
  | [] => (([], None), w)
  | _ =>
      let '(batch_size, w1) :=
        match batch_size with
        | Some b => (b, w)
        | None => _get_optimal_batch_size self (Z.of_nat (length texts)) w
        end in
      let processed_texts := map (_preprocess_text self) texts in
      let valid_texts := filter (fun t => truthy (strip t)) processed_texts in
      match valid_texts with
      | [] =>
          (([], Some (EmbeddingServiceError "Failed to generate streaming embeddings")), w1)
      | _ =>
          if batch_size =? 0
          then (([], Some (EmbeddingServiceError "Failed to generate streaming embeddings")),
                w1)
          else if batch_size <? 0 then (([], None), w1)
          else stream_loop self valid_texts batch_size
                           (range_len (Z.of_nat (length valid_texts)) batch_size) 0 w1
      end
  end.

End WithWorld.

(** The claim's words for the adaptive batch size: four tiers of available
    memory, a scale by the number of texts, capped by that number. *)
Definition GB : Z := 1024 ^ 3.

Definition spec_base (available_bytes : Z) : Z :=
  if available_bytes >? 8 * GB then 64
  else if available_bytes >? 4 * GB then 32
  else if available_bytes >? 2 * GB then 16
  else 8.

Definition spec_scale (num_texts : Z) : Z :=
  if num_texts <? 100 then 1
  else if num_texts <? 1000 then 2
  else 4.

Definition spec_batch_size (available_bytes num_texts : Z) : Z :=
  Z.min (spec_base available_bytes * spec_scale num_texts) num_texts.

End Embedding.

(* ================================================================== *)
(** ** [src/api/rate_limiter.py]: RateLimiter *)
(* ================================================================== *)

Module RateLimit.
Import Py.

(** A bucket dictionary [{'tokens': ..., 'last_refill': ...}]. *)
Record bucket : Type := mkBucket {
  tokens : Q;
  last_refill : Q
}.

Record RateLimiter : Type := mkRateLimiter {
  requests_per_minute : Z;
  burst_size : Z;
  tokens_per_second : Q;
  buckets : Dict.t bucket
}.

(** [RateLimiter.__init__] *)
Definition new_RateLimiter (requests_per_minute burst_size : Z) : RateLimiter :=
  mkRateLimiter requests_per_minute burst_size
                (inject_Z requests_per_minute / 60)%Q [].

(** The second component of the pair [is_allowed] returns. *)
Inductive info : Type :=
| Allowed (remaining_tokens : Z) (reset_time : Q)
| Limited (remaining_tokens : Z) (reset_time : Q) (retry_after : Q)
| Failed_open.

(** [int(x)] on a float: truncation towards zero. *)
Definition int_of (x : Q) : Z := Z.quot (Qnum x) (Zpos (Qden x)).

Definition with_buckets (self : RateLimiter) (b : Dict.t bucket) : RateLimiter :=
  mkRateLimiter (requests_per_minute self) (burst_size self)
                (tokens_per_second self) b.

(** The refill of [is_allowed]: the bucket after
    [bucket['tokens'] = min(burst_size, tokens + time_passed * rate)] and
    [bucket['last_refill'] = current_time].  The source computes the sum and
    the product in floats, and the result is rounded; here they are exact.
    The two agree when nothing is rounded (for instance when no time has
    passed and the tokens are a small integer); the statements below that
    speak of grants are about such readings, or hold for the rounded values
    as well. *)
Definition refill (self : RateLimiter) (b : bucket) (current_time : Q) : bucket :=
  let time_passed := (current_time - last_refill b)%Q in
  let tokens_to_add := (time_passed * tokens_per_second self)%Q in
  mkBucket (Qmin (inject_Z (burst_size self)) (tokens b + tokens_to_add)%Q)
           current_time.

(** [is_allowed], given the reading of [time.time()].  The dictionary of
    the result is built with [1 / tokens_per_second]; at a zero rate that
    division raises, after the bucket has been updated, and the [except]
    clause lets the request through. *)
Definition is_allowed (self : RateLimiter) (client_id : str) (current_time : Q)
    : (bool * info) * RateLimiter :=
  let bs0 :=
    if Dict.mem client_id (buckets self) then buckets self
    else Dict.assign client_id
           (mkBucket (inject_Z (burst_size self)) current_time) (buckets self) in
  match Dict.lookup client_id bs0 with
  | None => ((true, Failed_open), with_buckets self bs0)
  | Some b =>
      let b1 := refill self b current_time in
      if Qle_bool 1 (tokens b1) then
        let b2 := mkBucket (tokens b1 - 1)%Q (last_refill b1) in
        let self' := with_buckets self (Dict.assign client_id b2 bs0) in
        if Qeq_bool (tokens_per_second self) 0 then ((true, Failed_open), self')
        else ((true,
               Allowed (int_of (tokens b2))
                       (current_time + 1 / tokens_per_second self)%Q),
              self')
      else
        let self' := with_buckets self (Dict.assign client_id b1 bs0) in
        if Qeq_bool (tokens_per_second self) 0 then ((true, Failed_open), self')
        else ((false,
               Limited 0 (current_time + 1 / tokens_per_second self)%Q
                       (1 / tokens_per_second self)%Q),
              self')
  end.

(** Successive requests of one client at the given clock readings: the
    grants, in order, and the limiter afterwards. *)
Fixpoint serve (self : RateLimiter) (client_id : str) (times : list Q)
    : list bool * RateLimiter :=
  match times with
  | [] => ([], self)
  | t :: rest =>
      let '((granted, _), self1) := is_allowed self client_id t in
      let '(gs, self2) := serve self1 client_id rest in
      (granted :: gs, self2)
  end.

(** The tokens a client holds, when it has a bucket. *)
Definition tokens_of (self : RateLimiter) (client_id : str) : option Q :=
  option_map tokens (Dict.lookup client_id (buckets self)).

(** The bucket of a client during a burst that started at [t_start],
    under a refill rate of one token per second: last refilled at
    [t_prev], it holds at least [n] tokens, and no more than [n] plus what
    the time since [t_start] has refilled. *)
Definition in_burst (self : RateLimiter) (client_id : str) (n : Z)
    (t_start t_prev : Q) : Prop :=
  (tokens_per_second self == 1)%Q /\
  exists b,
    Dict.lookup client_id (buckets self) = Some b /\
    (last_refill b == t_prev)%Q /\
    (inject_Z n <= tokens b)%Q /\
    (tokens b - inject_Z n <= t_prev - t_start)%Q.

(** Clock readings never go back. *)
Fixpoint monotone (prev : Q) (times : list Q) : Prop :=
  match times with
  | [] => True
  | t :: rest => (prev <= t)%Q /\ monotone t rest
  end.


(** Requests of several clients, each with its clock reading, in order. *)
Fixpoint serve_requests (self : RateLimiter) (requests : list (str * Q))
    : list bool * RateLimiter :=
  match requests with
  | [] => ([], self)
  | (client_id, t) :: rest =>
      let '((granted, _), self1) := is_allowed self client_id t in
      let '(gs, self2) := serve_requests self1 rest in
      (granted :: gs, self2)
  end.

End RateLimit.

(* ================================================================== *)
(** ** [src/services/cache_service.py]: CacheService *)
(* ================================================================== *)

Module Cache.
Import Py.

Section WithValues.

(** The cached objects.  A Python value of type [Any] is either [None]
    or an object: it is an [option A], and [None] is Python's [None]. *)
Variable A : Type.

Definition value_t : Type := option A.

(** A cache item [{'value', 'expires_at', 'created_at'}]. *)
Record item : Type := mkItem {
  value : value_t;
  expires_at : Q;
  created_at : Q
}.

Record stats : Type := mkStats {
  hits : Z;
  misses : Z;
  evictions : Z;
  size : Z
}.

Record CacheService : Type := mkCacheService {
  max_size : Z;
  default_ttl : Z;
  _cache : Dict.t item;
  _memory_threshold : Q;
  _stats : stats
}.

(** [CacheService.__init__] *)
Definition new_CacheService (max_size default_ttl : Z) : CacheService :=
  mkCacheService max_size default_ttl [] (8 # 10) (mkStats 0 0 0 0).

Definition entries (self : CacheService) : Z := Z.of_nat (length (_cache self)).

Definition with_cache (self : CacheService) (c : Dict.t item) (s : stats)
    : CacheService :=
  mkCacheService (max_size self) (default_ttl self) c (_memory_threshold self) s.

Definition Qlt_bool (a b : Q) : bool := negb (Qle_bool b a).

(** [get], given the reading of [time.time()]. *)
Definition get (self : CacheService) (key : str) (now : Q)
    : value_t * CacheService :=
  let st := _stats self in
  match Dict.lookup key (_cache self) with
  | None =>
      (None, with_cache self (_cache self)
               (mkStats (hits st) (misses st + 1) (evictions st) (size st)))
  | Some it =>
      if Qlt_bool (expires_at it) now then
        let c := Dict.remove key (_cache self) in
        (None, with_cache self c
                 (mkStats (hits st) (misses st + 1) (evictions st)
                          (Z.of_nat (length c))))
      else
        (value it,
         with_cache self (Dict.move_to_end key (_cache self))
           (mkStats (hits st + 1) (misses st) (evictions st) (size st)))
  end.

(** [_evict_oldest] *)
Definition _evict_oldest (self : CacheService) : CacheService :=
  let st := _stats self in
  match _cache self with
  | [] => self
  | _ :: rest =>
      with_cache self rest
        (mkStats (hits st) (misses st) (evictions st + 1) (size st))
  end.

(** [for _ in range(n): if self._cache: self._evict_oldest()] *)
Fixpoint evict_times (n : nat) (self : CacheService) : CacheService :=
  match n with
  | O => self
  | S n' => evict_times n' (_evict_oldest self)
  end.

(** [_check_memory_usage], given [psutil.virtual_memory().percent]
    ([None] when the reading raises, which the function logs and
    ignores). *)
Definition _check_memory_usage (self : CacheService) (memory_percent : option Q)
    : CacheService :=
  match memory_percent with
  | None => self
  | Some p =>
      if Qlt_bool (_memory_threshold self) (p / 100)%Q then
        let evict_count := Z.max 1 (entries self / 4) in
        evict_times (Z.to_nat evict_count) self
      else self
  end.

(** [while len(self._cache) > self.max_size: self._evict_oldest()];
    [None] when [fuel] iterations were not enough. *)
Fixpoint evict_while (fuel : nat) (self : CacheService) : option CacheService :=
  match fuel with
  | O => None
  | S fuel' =>
      if entries self >? max_size self
      then evict_while fuel' (_evict_oldest self)
      else Some self
  end.

(** [set], given the memory reading and the clock reading (the two
    readings of [time.time()] are taken as one instant). *)
Definition set_fuel (fuel : nat) (self : CacheService) (key : str)
    (v : value_t) (ttl : option Z) (memory_percent : option Q) (now : Q)
    : option (bool * CacheService) :=
  let self1 := _check_memory_usage self memory_percent in
  let ttl := match ttl with Some t => t | None => default_ttl self1 end in
  let it := mkItem v (now + inject_Z ttl)%Q now in
  let c :=
    if Dict.mem key (_cache self1) then Dict.remove key (_cache self1)
    else _cache self1 in
  let c := Dict.assign key it c in
  match evict_while fuel (with_cache self1 c (_stats self1)) with
  | None => None
  | Some self2 =>
      let st := _stats self2 in
      Some (true,
            with_cache self2 (_cache self2)
              (mkStats (hits st) (misses st) (evictions st)
                       (Z.of_nat (length (_cache self2)))))
  end.

(** One iteration more than there are entries is enough whenever the
    loop ends at all. *)
Definition set (self : CacheService) (key : str) (v : value_t)
    (ttl : option Z) (memory_percent : option Q) (now : Q)
    : option (bool * CacheService) :=
  set_fuel (S (S (length (_cache self)))) self key v ttl memory_percent now.

(** [delete] *)
Definition delete (self : CacheService) (key : str) : bool * CacheService :=
  let st := _stats self in
  if Dict.mem key (_cache self) then
    let c := Dict.remove key (_cache self) in
    (true, with_cache self c
             (mkStats (hits st) (misses st) (evictions st) (Z.of_nat (length c))))
  else (false, self).

(** [clear] *)
Definition clear (self : CacheService) : CacheService :=
  let st := _stats self in
  with_cache self [] (mkStats (hits st) (misses st) (evictions st) 0).

(** [cleanup_expired] *)
Definition cleanup_expired (self : CacheService) (now : Q) : Z * CacheService :=
  let st := _stats self in
  let expired_keys :=
    map fst (filter (fun kv => Qlt_bool (expires_at (snd kv)) now) (_cache self)) in
  let c := fold_left (fun d k => Dict.remove k d) expired_keys (_cache self) in
  (Z.of_nat (length expired_keys),
   with_cache self c
     (mkStats (hits st) (misses st) (evictions st) (Z.of_nat (length c)))).

Section WithFactory.

(** The world the factory callable runs in, and the exceptions it can
    raise. *)
Variables W E : Type.

Definition factory_t : Type := W -> (E + value_t) * W.

(** [get_or_set].  [now] is the clock at the [get], [now'] and
    [memory_percent] the clock and memory readings at the [set].  The
    result is [None] when the [set] does not return. *)
Definition get_or_set (self : CacheService) (key : str) (factory : factory_t)
    (ttl : option Z) (memory_percent : option Q) (now now' : Q) (w : W)
    : option ((E + value_t) * CacheService * W) :=
  let '(v, self1) := get self key now in
  match v with
  | Some a => Some (inr (Some a), self1, w)
  | None =>
      match factory w with
      | (inr v', w1) =>
          match set self1 key v' ttl memory_percent now' with
          | Some (_, self2) => Some (inr v', self2, w1)
          | None => None
          end
      | (inl _, w1) =>
          (* except Exception: return factory() *)
          let '(r, w2) := factory w1 in
          Some (r, self1, w2)
      end
  end.

(** One call of [get_or_set] for a key: the factory, the [ttl], the memory
    reading, and the clock readings at the [get] and at the [set]. *)
Record request : Type := mkRequest {
  request_factory : factory_t;
  request_ttl : option Z;
  request_memory_percent : option Q;
  request_now : Q;
  request_now' : Q
}.

(** Successive calls of [get_or_set] for one key, with no other call on the
    cache in between: what each call returns, the cache and the world
    afterwards. *)
Fixpoint get_or_set_each (self : CacheService) (key : str)
    (requests : list request) (w : W)
    : option (list (E + value_t) * CacheService * W) :=
  match requests with
  | [] => Some ([], self, w)
  | r :: rest =>
      match get_or_set self key (request_factory r) (request_ttl r)
                       (request_memory_percent r) (request_now r)
                       (request_now' r) w with
      | None => None
      | Some (v, self1, w1) =>
          match get_or_set_each self1 key rest w1 with
          | None => None
          | Some (vs, self2, w2) => Some (v :: vs, self2, w2)
          end
      end
  end.

End WithFactory.

(** The operations of the public interface, for sequences of calls. *)
Inductive op : Type :=
| OpGet (key : str) (now : Q)
| OpSet (key : str) (v : value_t) (ttl : option Z) (memory_percent : option Q) (now : Q)
| OpDelete (key : str)
| OpClear
| OpCleanup (now : Q).

Definition apply_op (self : CacheService) (o : op) : option CacheService :=
  match o with
  | OpGet k now => Some (snd (get self k now))
  | OpSet k v ttl m now => option_map snd (set self k v ttl m now)
  | OpDelete k => Some (snd (delete self k))
  | OpClear => Some (clear self)
  | OpCleanup now => Some (snd (cleanup_expired self now))
  end.

Fixpoint apply_ops (self : CacheService) (os : list op) : option CacheService :=
  match os with
  | [] => Some self
  | o :: rest =>
      match apply_op self o with
      | Some self' => apply_ops self' rest
      | None => None
      end
  end.

End WithValues.

Arguments mkItem {A}.
Arguments value {A}.
Arguments expires_at {A}.
Arguments created_at {A}.
Arguments max_size {A}.
Arguments default_ttl {A}.
Arguments _cache {A}.
Arguments _stats {A}.
Arguments entries {A}.
Arguments get {A}.
Arguments set {A}.
Arguments set_fuel {A}.
Arguments evict_while {A}.
Arguments _evict_oldest {A}.
Arguments evict_times {A}.
Arguments _check_memory_usage {A}.
Arguments delete {A}.
Arguments clear {A}.
Arguments cleanup_expired {A}.
Arguments get_or_set {A W E}.
Arguments get_or_set_each {A W E}.
Arguments mkRequest {A W E}.
Arguments request_now {A W E}.
Arguments new_CacheService {A}.
Arguments with_cache {A}.
Arguments apply_op {A}.
Arguments apply_ops {A}.
Arguments OpGet {A}.
Arguments OpSet {A}.
Arguments OpDelete {A}.
Arguments OpClear {A}.
Arguments OpCleanup {A}.

End Cache.

(* ================================================================== *)
(** ** Concrete environments and inputs *)
(* ================================================================== *)

Module Examples.
Import Py.

(** *** Chunker *)

(** A 39-character text whose first window of 20 has a sentence end at
    offsets 16-17, followed by the letter X at offset 18. *)
Definition gap_text : str :=
  of_string "aaaaaaaaaaaaaaaa. Xbbbbbbbbbbbbbbbbbbbb".

Definition gap_chunker : Chunker.TextChunker := Chunker.mkTextChunker 20 1.

Definition doc1 : str := of_string "doc1".

(** Two runs of the process that draw different identifiers. *)
Definition uuid_run1 (k : nat) : str := of_string "0a1b2c3d".
Definition uuid_run2 (k : nat) : str := of_string "9f8e7d6c".

Definition short_text : str := of_string "One short policy paragraph.".

(** *** Resilience: a downstream service that follows a script *)

Record service : Type := mkService {
  clock : Q;
  script : list (Resilience.exn unit + nat);
  invocations : nat
}.

Definition service_time (w : service) : Q := clock w.

Definition service_sleep (d : Q) (w : service) : service :=
  mkService (Qred (clock w + d)) (script w) (invocations w).

(** No jitter is drawn in this environment. *)
Definition service_uniform (a b : Q) (w : service) : Q * service := (a, w).

(** The wrapped callable: it answers with the next entry of the script. *)
Definition service_func : Resilience.callable service nat unit :=
  fun w =>
    match script w with
    | [] => (inl (Resilience.ServiceError tt), mkService (clock w) [] (S (invocations w)))
    | r :: rest => (r, mkService (clock w) rest (S (invocations w)))
    end.

Definition down : Resilience.exn unit + nat := inl (Resilience.ServiceError tt).
Definition up (n : nat) : Resilience.exn unit + nat := inr n.

Definition service_run :=
  @Resilience.run service nat unit service_time service_sleep.


Definition service_resilient_call :=
  @Resilience.resilient_call service nat unit service_time service_sleep
                             service_uniform.

Definition service_retry :=
  @Resilience.retry service nat unit service_sleep service_uniform.

Definition svc : str := of_string "opensearch".

(** Five failures, two successes, one failure, then a success. *)
Definition outage : service :=
  mkService 0 [down; down; down; down; down; up 1; up 2; down; up 3] 0.

(** One failure, then a success. *)
Definition blip : service := mkService 0 [down; up 42] 0.

Definition do_call : Resilience.event service nat unit :=
  Resilience.Call service_func.

Definition wait (d : Q) : Resilience.event service nat unit :=
  Resilience.Wait d.

(** Opening the breaker, a rejected call, and a first half-open episode
    of two successes and a failure. *)
Definition first_episode : list (Resilience.event service nat unit) :=
  [do_call; do_call; do_call; do_call; do_call; do_call;
   wait 60; do_call; do_call; do_call].

(** What is looked at after a run: the outcomes, the breaker's state and
    counters, and how often the service was invoked. *)
Definition observe
    (r : list (Resilience.outcome nat unit) * Resilience.CircuitBreaker * service)
    : list (Resilience.outcome nat unit) * Resilience.CircuitState * Z * Z * nat :=
  (fst (fst r), Resilience.state (snd (fst r)),
   Resilience.failure_count (snd (fst r)),
   Resilience.success_count (snd (fst r)), invocations (snd r)).

Definition rejected : Resilience.outcome nat unit :=
  inl (Resilience.PolicyPilotException "Circuit breaker is OPEN").

(** A callable that fails at every call. *)
Definition always_down : Resilience.callable service nat unit :=
  fun w => (down, mkService (clock w) (script w) (S (invocations w))).

(** A breaker that opened at time 0, with the default configuration. *)
Definition open_breaker : Resilience.CircuitBreaker :=
  Resilience.mkCircuitBreaker Resilience.default_CircuitBreakerConfig
                              Resilience.OPEN 5 0 0.

(** A manager that holds [open_breaker] for [svc]. *)
Definition manager_with_open_breaker : Resilience.ResilienceManager :=
  Resilience.mkResilienceManager [] [(svc, open_breaker)].

(** The service answers 42 at the next call. *)
Definition healthy : service := mkService 0 [up 42] 0.

(** *** Embedding: a process whose memory readings are given in advance *)

Record process : Type := mkProcess {
  reading_at : nat -> option Embedding.svmem;
  reads : nat;
  gc_runs : nat
}.

Definition process_virtual_memory (w : process)
    : option Embedding.svmem * process :=
  (reading_at w (reads w), mkProcess (reading_at w) (S (reads w)) (gc_runs w)).

Definition process_gc_collect (w : process) : process :=
  mkProcess (reading_at w) (reads w) (S (gc_runs w)).

(** Memory stays at 95% with 1 GiB available, whatever is collected. *)
Definition exhausted : process :=
  mkProcess (fun _ => Some (Embedding.mkSvmem (1024 ^ 3) 95)) 0 0.

(** 16 GiB available at 20% utilisation. *)
Definition roomy : process :=
  mkProcess (fun _ => Some (Embedding.mkSvmem (16 * 1024 ^ 3) 20)) 0 0.

(** [psutil.virtual_memory()] raises at every reading. *)
Definition blind : process := mkProcess (fun _ => None) 0 0.

(** The vector of a sentence, here the sentence itself. *)
Definition embed_id (t : str) : str := t.

Definition process_check_memory_usage :=
  Embedding._check_memory_usage process process_virtual_memory process_gc_collect.

Definition process_get_embeddings_batch :=
  Embedding.get_embeddings_batch process str process_virtual_memory
                                 process_gc_collect embed_id.

Definition process_get_optimal_batch_size :=
  Embedding._get_optimal_batch_size process process_virtual_memory.

Definition three_texts : list str :=
  [of_string "alpha"; of_string "   "; of_string "gamma"].

Definition five_texts : list str :=
  [of_string "a"; of_string "b"; of_string "c"; of_string "d"; of_string "e"].

Definition process_check_memory_usage_try :=
  Embedding._check_memory_usage_try process process_virtual_memory process_gc_collect.

(** *** Cache: a factory that counts its invocations *)

(** The factory raises on every call. *)
Definition failing_factory : Cache.factory_t nat nat unit :=
  fun n => (inl tt, S n).

(** The factory returns [None] on every call. *)
Definition none_factory : Cache.factory_t nat nat unit :=
  fun n => (inr None, S n).

Definition key1 : str := of_string "k".

(** A cache that holds the value [None] under [key1] until time 100. *)
Definition cache_with_none : Cache.CacheService nat :=
  Cache.mkCacheService nat 10 3600
    [(key1, Cache.mkItem None 100 0)] (8 # 10) (Cache.mkStats 0 0 0 1).

(** A cache that holds 7 under [key1] until time 100. *)
Definition cache_with_seven : Cache.CacheService nat :=
  Cache.mkCacheService nat 10 3600
    [(key1, Cache.mkItem (Some 7%nat) 100 0)] (8 # 10) (Cache.mkStats 0 0 0 1).

(** *** Rate limiter *)

Definition client : str := of_string "client-1".

Definition limiter_60_10 : RateLimit.RateLimiter := RateLimit.new_RateLimiter 60 10.

End Examples.

(* ================================================================== *)
(** ** Chunker: termination, coverage and determinism *)
(* ================================================================== *)

Section ChunkerFacts.
Import Py Chunker.

Variable self : TextChunker.
Variable text document_id : str.

(** A chunk is built from its arguments alone, but for the drawn suffix of
    its id. *)
Lemma create_single_chunk_boundaries rng1 rng2 t i sp ep k1 k2 :
  boundaries (fst (_create_single_chunk rng1 t document_id i sp ep k1)) =
  boundaries (fst (_create_single_chunk rng2 t document_id i sp ep k2)).
Proof. reflexivity. Qed.

Lemma id_from_single rng t i sp ep k :
  id_from document_id rng (fst (_create_single_chunk rng t document_id i sp ep k)).
Proof.
  exists k. cbn. unfold id_prefix. now rewrite <- !app_assoc.
Qed.

Lemma chunk_loop_two_runs rng1 rng2 :
  forall fuel start index cs1 cs2 k1 k2,
    map boundaries cs1 = map boundaries cs2 ->
    match chunk_loop rng1 self text document_id fuel start index cs1 k1,
          chunk_loop rng2 self text document_id fuel start index cs2 k2 with
    | Some (s1, i1, c1, _), Some (s2, i2, c2, _) =>
        s1 = s2 /\ i1 = i2 /\ map boundaries c1 = map boundaries c2
    | None, None => True
    | _, _ => False
    end.
Proof.
  induction fuel as [|fuel IH]; intros start index cs1 cs2 k1 k2 Hcs; cbn -[slice Z.min].
  - exact I.
  - destruct (start <? len text).
    + destruct (_ >=? _).
      * repeat split. rewrite !map_app, Hcs. reflexivity.
      * apply IH. rewrite !map_app, Hcs. reflexivity.
    + auto.
Qed.

Lemma chunk_loop_ids rng :
  forall fuel start index cs k s i cs' k',
    Forall (id_from document_id rng) cs ->
    chunk_loop rng self text document_id fuel start index cs k = Some (s, i, cs', k') ->
    Forall (id_from document_id rng) cs'.
Proof.
  induction fuel as [|fuel IH]; intros start index cs k s i cs' k' Hcs; cbn -[slice Z.min].
  - discriminate.
  - destruct (start <? len text).
    + assert (Hnew : Forall (id_from document_id rng)
                (cs ++ [fst (_create_single_chunk rng
                   (if Z.min (start + chunk_size self) (len text) <? len text
                    then _break_at_sentence_boundary
                           (slice text start (Z.min (start + chunk_size self) (len text)))
                           text start (Z.min (start + chunk_size self) (len text))
                    else slice text start (Z.min (start + chunk_size self) (len text)))
                   document_id index (Some start)
                   (Some (Z.min (start + chunk_size self) (len text))) k)])).
      { apply Forall_app. split; [assumption|]. constructor; [|constructor].
        apply id_from_single. }
      destruct (_ >=? _).
      * intros H. inversion H; subst. exact Hnew.
      * intros H. eapply IH; [exact Hnew | exact H].
    + intros H. inversion H; subst. assumption.
Qed.

(** The loop ends: a valid configuration advances the window by at least one
    character per iteration. *)
Lemma chunk_loop_terminates rng :
  valid_config self ->
  forall fuel start index cs k,
    0 <= start ->
    (Z.to_nat (len text - start) < fuel)%nat ->
    exists r, chunk_loop rng self text document_id fuel start index cs k = Some r.
Proof.
  intros [Hcs [Hov0 Hov]].
  induction fuel as [|fuel IH]; intros start index cs k Hs Hf; [lia|].
  cbn -[slice Z.min].
  destruct (start <? len text) eqn:Hlt; [|eauto].
  apply Z.ltb_lt in Hlt.
  destruct (_ >=? _) eqn:Hge; [eauto|].
  rewrite Z.geb_leb in Hge. apply Z.leb_gt in Hge.
  apply IH; lia.
Qed.

(** [_create_chunks] returns for every text. *)
Lemma create_chunks_returns rng k :
  valid_config self ->
  exists r, _create_chunks rng self text document_id k = Some r.
Proof.
  intros Hv. unfold _create_chunks, _create_chunks_fuel.
  destruct (len text <=? chunk_size self); [eexists; reflexivity|].
  destruct (chunk_loop_terminates rng Hv (S (length text)) 0 0 [] k) as [[[[s i] cs] k'] Hr].
  - lia.
  - unfold len. lia.
  - rewrite Hr. destruct (s <? len text); [|eauto].
    destruct (0 <? len (strip (slice_from text s))); [eexists; reflexivity|eauto].
Qed.

End ChunkerFacts.

(** The constructor accepts valid configurations only. *)
Lemma init_valid (cs ov : option Z) (self : Chunker.TextChunker) :
  Chunker.init cs ov = inr self -> Chunker.valid_config self.
Proof.
  unfold Chunker.init, Chunker.init_with_settings, Chunker.valid_config,
    Chunker.default_settings.
  cbn [Chunker.settings_chunk_size Chunker.settings_chunk_overlap].
  destruct (_ <=? 0) eqn:H1; [discriminate|].
  destruct (_ <? 0) eqn:H2; [discriminate|].
  destruct (_ >=? _) eqn:H3; [discriminate|].
  intros [= <-]. cbn [Chunker.chunk_size Chunker.chunk_overlap].
  apply Z.leb_gt in H1. apply Z.ltb_ge in H2.
  rewrite Z.geb_leb in H3. apply Z.leb_gt in H3. lia.
Qed.

(** C1 (evaluation at the failing input).  [TextChunker(20, 1)] is accepted
    by the constructor, and the 39-character text [gap_text] is longer than
    the window.  The first window is shortened to
    the sentence end at offset 18, but the next window still starts at
    [20 - 1 = 19]: the chunk claims the span 0..20 in its metadata while it
    holds 18 characters, position 18 (the letter X) is inside no chunk, and no
    chunk content contains X.  The chunks do not cover the text. *)
Theorem C1_sentence_break_leaves_gap :
  Chunker.init (Some 20) (Some 1) = inr Examples.gap_chunker /\
  Chunker.valid_config Examples.gap_chunker /\
  Py.len Examples.gap_text > Chunker.chunk_size Examples.gap_chunker /\
  exists chunks draws,
    Chunker._create_chunks Examples.uuid_run1 Examples.gap_chunker
                           Examples.gap_text Examples.doc1 0 = Some (chunks, draws) /\
    map (fun c => (Chunker.start_position c, Chunker.end_position c, Chunker.char_count c))
        chunks
      = [(Some 0, Some 20, 18); (Some 19, Some 39, 20); (Some 38, Some 39, 1)] /\
    nth_error Examples.gap_text 18 = Some 88%N /\
    Chunker.covered chunks 18 = false /\
    forallb (fun c => negb (Py.contains_char 88%N (Chunker.content c))) chunks = true /\
    ~ Chunker.covers_text chunks Examples.gap_text.
Proof.
  split; [reflexivity|].
  split; [unfold Chunker.valid_config; cbn; lia|].
  split; [reflexivity|].
  eexists. eexists.
  split; [vm_compute; reflexivity|].
  split; [reflexivity|].
  split; [reflexivity|].
  split; [reflexivity|].
  split; [reflexivity|].
  intros H. specialize (H 18). 
  assert (Hr : 0 <= 18 < Py.len Examples.gap_text) by (vm_compute; split; congruence).
  specialize (H Hr). vm_compute in H. discriminate.
Qed.

(** C2 (counterexample).  Two runs on the same text, configuration and
    document id that draw different [uuid4] values return different chunk
    ids. *)
Lemma C2_ids_differ_between_runs :
  let cfg := Chunker.mkTextChunker 1000 200 in
  option_map (fun r => map Chunker.chunk_id (fst r))
    (Chunker._create_chunks Examples.uuid_run1 cfg Examples.short_text Examples.doc1 0)
  <>
  option_map (fun r => map Chunker.chunk_id (fst r))
    (Chunker._create_chunks Examples.uuid_run2 cfg Examples.short_text Examples.doc1 0).
Proof. vm_compute. discriminate. Qed.

(** C2 (amended).  For a valid configuration, two runs of [_create_chunks]
    on the same text and document id both return, with the same number of
    chunks and the same boundaries, contents, indices and counts; every chunk
    id is the prefix [<document_id>_chunk_<index>_] computed from the
    arguments followed by the value drawn from [uuid4] in that run. *)
Theorem C2_boundaries_deterministic_ids_up_to_suffix :
  forall (self : Chunker.TextChunker) (text document_id : Py.str)
         (rng1 rng2 : nat -> Py.str) (k1 k2 : nat),
    Chunker.valid_config self ->
    exists cs1 cs2 k1' k2',
      Chunker._create_chunks rng1 self text document_id k1 = Some (cs1, k1') /\
      Chunker._create_chunks rng2 self text document_id k2 = Some (cs2, k2') /\
      map Chunker.boundaries cs1 = map Chunker.boundaries cs2 /\
      Forall (Chunker.id_from document_id rng1) cs1 /\
      Forall (Chunker.id_from document_id rng2) cs2.
Proof.
  intros self text doc rng1 rng2 k1 k2 Hv.
  destruct (create_chunks_returns self text doc rng1 k1 Hv) as [[cs1 k1'] H1].
  destruct (create_chunks_returns self text doc rng2 k2 Hv) as [[cs2 k2'] H2].
  exists cs1, cs2, k1', k2'. split; [assumption|]. split; [assumption|].
  unfold Chunker._create_chunks, Chunker._create_chunks_fuel in H1, H2.
  destruct (Py.len text <=? Chunker.chunk_size self).
  - inversion H1; inversion H2; subst. split; [reflexivity|].
    split; (constructor; [|constructor]).
    + apply (id_from_single doc rng1 text 0 None None k1).
    + apply (id_from_single doc rng2 text 0 None None k2).
  - pose proof (chunk_loop_two_runs self text doc rng1 rng2
                  (S (length text)) 0 0 [] [] k1 k2 eq_refl) as Hloop.
    pose proof (chunk_loop_ids self text doc rng1 (S (length text)) 0 0 [] k1) as Hid1.
    pose proof (chunk_loop_ids self text doc rng2 (S (length text)) 0 0 [] k2) as Hid2.
    destruct (Chunker.chunk_loop rng1 self text doc (S (length text)) 0 0 [] k1)
      as [[[[s1 i1] c1] d1]|]; [|discriminate].
    destruct (Chunker.chunk_loop rng2 self text doc (S (length text)) 0 0 [] k2)
      as [[[[s2 i2] c2] d2]|]; [|discriminate].
    destruct Hloop as [-> [-> Hb]].
    specialize (Hid1 _ _ _ _ (Forall_nil _) eq_refl).
    specialize (Hid2 _ _ _ _ (Forall_nil _) eq_refl).
    destruct (s2 <? Py.len text).
    + destruct (0 <? Py.len (Py.strip (Py.slice_from text s2))).
      * inversion H1; inversion H2; subst.
        split; [rewrite !map_app, Hb; reflexivity|].
        split; (apply Forall_app; split; [assumption|]; constructor; [|constructor]).
        -- apply (id_from_single doc rng1 (Py.slice_from text s2) i2
                                 (Some s2) (Some (Py.len text)) d1).
        -- apply (id_from_single doc rng2 (Py.slice_from text s2) i2
                                 (Some s2) (Some (Py.len text)) d2).
      * inversion H1; inversion H2; subst. auto.
    + inversion H1; inversion H2; subst. auto.
Qed.

(** C2: the amended statement at the default configuration. *)
Lemma C2_boundaries_deterministic_witness :
  Chunker.valid_config (Chunker.mkTextChunker 1000 200) /\
  exists cs1 cs2 k1' k2',
    Chunker._create_chunks Examples.uuid_run1 (Chunker.mkTextChunker 1000 200)
                           Examples.short_text Examples.doc1 0 = Some (cs1, k1') /\
    Chunker._create_chunks Examples.uuid_run2 (Chunker.mkTextChunker 1000 200)
                           Examples.short_text Examples.doc1 5 = Some (cs2, k2') /\
    map Chunker.boundaries cs1 = map Chunker.boundaries cs2 /\
    Forall (Chunker.id_from Examples.doc1 Examples.uuid_run1) cs1 /\
    Forall (Chunker.id_from Examples.doc1 Examples.uuid_run2) cs2.
Proof.
  assert (Hv : Chunker.valid_config (Chunker.mkTextChunker 1000 200))
    by (unfold Chunker.valid_config; simpl; lia).
  split; [exact Hv|].
  apply (C2_boundaries_deterministic_ids_up_to_suffix
           (Chunker.mkTextChunker 1000 200) Examples.short_text Examples.doc1
           Examples.uuid_run1 Examples.uuid_run2 0 5 Hv).
Defined.

(* ================================================================== *)
(** ** Resilience: the breaker's transitions and the composed call *)
(* ================================================================== *)

Lemma str_eqb_refl (k : Py.str) : Py.str_eqb k k = true.
Proof.
  unfold Py.str_eqb. destruct (list_eq_dec N.eq_dec k k); congruence.
Qed.

Lemma str_eqb_eq (a b : Py.str) : Py.str_eqb a b = true <-> a = b.
Proof.
  unfold Py.str_eqb. destruct (list_eq_dec N.eq_dec a b); split; congruence.
Qed.

Lemma lookup_assign_same {V : Type} (k : Py.str) (v : V) (d : Dict.t V) :
  Dict.lookup k (Dict.assign k v d) = Some v.
Proof.
  induction d as [|[k' v'] d IH]; cbn.
  - now rewrite str_eqb_refl.
  - destruct (Py.str_eqb k k') eqn:Hk; cbn; rewrite Hk; auto.
Qed.

Lemma lookup_remove_same {V : Type} (k : Py.str) (d : Dict.t V) :
  Dict.lookup k (Dict.remove k d) = None.
Proof.
  induction d as [|[k' v'] d IH]; cbn; [reflexivity|].
  destruct (Py.str_eqb k k') eqn:Hk; cbn; [assumption|].
  now rewrite Hk.
Qed.

Section BreakerFacts.
Import Resilience.

Variables W R E : Type.
Variable time : W -> Q.
Variable sleep : Q -> W -> W.
Variable uniform : Q -> Q -> W -> Q * W.

(** While open and before the recovery timeout, the call raises and the
    world is untouched: the wrapped callable is not run. *)
Lemma open_rejects_without_invoking (cb : CircuitBreaker) (func : callable W R E) (w : W) :
  state cb = OPEN ->
  _should_attempt_reset time cb w = false ->
  call time cb func w = (inl (PolicyPilotException "Circuit breaker is OPEN"), cb, w).
Proof.
  intros Hs Hr. unfold Resilience.call, entry_check. now rewrite Hs, Hr.
Qed.

(** A failure in the closed state opens the breaker exactly when the count
    reaches the threshold. *)
Lemma closed_failure (cb : CircuitBreaker) (func : callable W R E) (w w1 : W) e :
  state cb = CLOSED ->
  func w = (inl e, w1) ->
  let cb' := snd (fst (call time cb func w)) in
  failure_count cb' = failure_count cb + 1 /\
  state cb' = (if failure_count cb + 1 >=? failure_threshold (config cb)
               then OPEN else CLOSED).
Proof.
  intros Hs Hf. unfold Resilience.call, entry_check. rewrite Hs, Hf. cbn.
  unfold _on_failure. rewrite Hs.
  destruct (_ >=? _); cbn; auto.
Qed.

(** A success in the closed state resets the failure count. *)
Lemma closed_success (cb : CircuitBreaker) (func : callable W R E) (w w1 : W) v :
  state cb = CLOSED ->
  func w = (inr v, w1) ->
  let cb' := snd (fst (call time cb func w)) in
  failure_count cb' = 0 /\ state cb' = CLOSED.
Proof.
  intros Hs Hf. unfold Resilience.call, entry_check. rewrite Hs, Hf. cbn.
  unfold _on_success. rewrite Hs. cbn. auto.
Qed.

(** Any failure in the half-open state reopens the breaker; the success
    count is kept. *)
Lemma half_open_failure (cb : CircuitBreaker) (func : callable W R E) (w w1 : W) e :
  state cb = HALF_OPEN ->
  func w = (inl e, w1) ->
  let cb' := snd (fst (call time cb func w)) in
  state cb' = OPEN /\ success_count cb' = success_count cb.
Proof.
  intros Hs Hf. unfold Resilience.call, entry_check. rewrite Hs, Hf. cbn.
  unfold _on_failure. rewrite Hs. cbn. auto.
Qed.

(** A success in the half-open state closes the breaker as soon as the
    stored success count, whatever episode it comes from, reaches the
    threshold. *)
Lemma half_open_success (cb : CircuitBreaker) (func : callable W R E) (w w1 : W) v :
  state cb = HALF_OPEN ->
  func w = (inr v, w1) ->
  let cb' := snd (fst (call time cb func w)) in
  state cb' = (if success_count cb + 1 >=? success_threshold (config cb)
               then CLOSED else HALF_OPEN).
Proof.
  intros Hs Hf. unfold Resilience.call, entry_check. rewrite Hs, Hf. cbn.
  unfold _on_success. rewrite Hs.
  destruct (_ >=? _); cbn; auto.
Qed.

(** When [call] raises, either the entry check rejected the call and nothing
    ran, or the callable ran and failed and the failure was recorded. *)
Lemma call_raises_cases (cb cb' : CircuitBreaker) (func : callable W R E) (w w1 : W) e :
  call time cb func w = (inl e, cb', w1) ->
  (entry_check time cb w = inl e /\ cb' = cb /\ w1 = w) \/
  (exists cb1, @entry_check W E time cb w = inr cb1 /\ func w = (inl e, w1) /\
               cb' = _on_failure time cb1 w1).
Proof.
  unfold Resilience.call. destruct (@entry_check W E time cb w) as [e0|cb1].
  - intros H. inversion H; subst. left. auto.
  - destruct (func w) as [[e0|v] w'] eqn:Hf; intros H; inversion H; subst.
    right. exists cb1. auto.
Qed.

End BreakerFacts.

Lemma get_retry_handler_fst (mgr : Resilience.ResilienceManager) (name : Py.str) :
  fst (Resilience.get_retry_handler mgr name None) =
  match Dict.lookup name (Resilience.retry_handlers mgr) with
  | Some h => h
  | None => Resilience.new_RetryHandler None
  end.
Proof.
  unfold Resilience.get_retry_handler.
  destruct (Dict.lookup name (Resilience.retry_handlers mgr)); reflexivity.
Qed.

Lemma get_retry_handler_breakers (mgr : Resilience.ResilienceManager) (name : Py.str) :
  Resilience.circuit_breakers (snd (Resilience.get_retry_handler mgr name None)) =
  Resilience.circuit_breakers mgr.
Proof.
  unfold Resilience.get_retry_handler.
  destruct (Dict.lookup name (Resilience.retry_handlers mgr)); reflexivity.
Qed.

(** C3 (evaluation at the failing input).  Default configuration
    ([failure_threshold = 5], [recovery_timeout = 60],
    [success_threshold = 3]).  Five failures open the breaker and the next
    call is rejected without running the service (5 invocations before and
    after).  After 60 seconds two successes and one failure make a first
    half-open episode, which ends open with [success_count] still 2.  After
    another 60 seconds a single success closes the breaker: the second
    half-open episode saw one success, not three. *)
Theorem C3_breaker_closes_on_stale_success_count :
  Resilience.success_threshold Resilience.default_CircuitBreakerConfig = 3 /\
  Examples.observe
    (Examples.service_run (Resilience.new_CircuitBreaker None)
       Examples.first_episode Examples.outage)
  = ([Examples.down; Examples.down; Examples.down; Examples.down; Examples.down;
      Examples.rejected; Examples.up 1; Examples.up 2; Examples.down],
     Resilience.OPEN, 6, 2, 8%nat) /\
  Examples.observe
    (Examples.service_run (Resilience.new_CircuitBreaker None)
       (Examples.first_episode ++ [Examples.wait 60; Examples.do_call])
       Examples.outage)
  = ([Examples.down; Examples.down; Examples.down; Examples.down; Examples.down;
      Examples.rejected; Examples.up 1; Examples.up 2; Examples.down;
      Examples.up 3],
     Resilience.CLOSED, 0, 0, 9%nat).
Proof.
  split; [reflexivity|]. split; vm_compute; reflexivity.
Qed.




(* ================================================================== *)
(** ** Embedding: memory check, batches and batch size *)
(* ================================================================== *)

Lemma firstn_add {A : Type} (a b : nat) (l : list A) :
  firstn (a + b) l = firstn a l ++ firstn b (skipn a l).
Proof.
  revert l. induction a as [|a IH]; intros [|x l]; cbn; try reflexivity.
  - now rewrite firstn_nil.
  - now rewrite IH.
Qed.

(** Comparing gigabytes with a whole number is comparing bytes. *)
Lemma gigabytes_gt (k a : Z) :
  Embedding.Qlt_bool (inject_Z k) (inject_Z a / inject_Z (1024 ^ 3)) = (a >? k * Embedding.GB).
Proof.
  unfold Embedding.Qlt_bool, Qle_bool, Embedding.GB.
  change (1024 ^ 3) with 1073741824.
  cbn -[Z.mul Z.leb Z.gtb].
  rewrite Z.gtb_ltb, Z.ltb_antisym. f_equal. f_equal; lia.
Qed.

Section EmbeddingFacts.
Import Py Embedding.

Variables W Vec : Type.
Variable virtual_memory : W -> option svmem * W.
Variable gc_collect : W -> W.
Variable embed : str -> Vec.
Variable self : EmbeddingService.

(** Whatever is read, the check returns normally. *)
Lemma check_memory_usage_returns (w : W) :
  fst (_check_memory_usage W virtual_memory gc_collect self w) = inr tt.
Proof.
  unfold _check_memory_usage.
  destruct (_check_memory_usage_try W virtual_memory gc_collect self w)
    as [[e|[]] w']; reflexivity.
Qed.

(** The batches stacked so far are the vectors of a prefix of the texts,
    and every iteration extends that prefix by one batch. *)
Lemma batch_loop_prefix (texts : list str) (batch_size : Z) :
  0 < batch_size ->
  forall n i acc w,
    0 <= i ->
    concat acc = map embed (firstn (Z.to_nat i) texts) ->
    exists acc' w',
      batch_loop W Vec virtual_memory gc_collect embed self texts batch_size n i acc w
        = (inr acc', w') /\
      concat acc' = map embed (firstn (Z.to_nat (i + Z.of_nat n * batch_size)) texts).
Proof.
  intros Hb. induction n as [|n IH]; intros i acc w Hi Hacc.
  - exists acc, w. split; [reflexivity|]. rewrite Hacc. do 3 f_equal. lia.
  - cbn [batch_loop].
    assert (Hnext :
      concat (acc ++ [map embed (firstn (Z.to_nat batch_size) (skipn (Z.to_nat i) texts))])
      = map embed (firstn (Z.to_nat (i + batch_size)) texts)).
    { rewrite concat_app, Hacc. cbn. rewrite app_nil_r, <- map_app.
      rewrite <- firstn_add. do 2 f_equal. lia. }
    destruct (_ =? 0).
    + pose proof (check_memory_usage_returns w) as Hc.
      destruct (_check_memory_usage W virtual_memory gc_collect self w) as [[e|u] w'];
        cbn in Hc; [discriminate|].
      destruct (IH (i + batch_size) _ w' ltac:(lia) Hnext) as (acc' & w'' & Hl & Hcat).
      exists acc', w''. split; [exact Hl|]. rewrite Hcat. do 3 f_equal. lia.
    + destruct (IH (i + batch_size) _ w ltac:(lia) Hnext) as (acc' & w'' & Hl & Hcat).
      exists acc', w''. split; [exact Hl|]. rewrite Hcat. do 3 f_equal. lia.
Qed.

(** With a positive batch size every text gets its vector, in order. *)
Lemma generate_embeddings_optimized_map (texts : list str) (batch_size : Z) (w : W) :
  0 < batch_size ->
  fst (_generate_embeddings_optimized W Vec virtual_memory gc_collect embed
         self texts batch_size w) = inr (map embed texts).
Proof.
  intros Hb. unfold _generate_embeddings_optimized.
  destruct (batch_size <=? 0) eqn:Hle; [apply Z.leb_le in Hle; lia|].
  destruct (batch_loop_prefix texts batch_size Hb
              (range_len (Z.of_nat (length texts)) batch_size) 0 [] w
              ltac:(lia) eq_refl) as (acc' & w' & Hl & Hcat).
  rewrite Hl. cbn. rewrite Hcat. do 2 f_equal.
  apply firstn_all2. unfold range_len.
  pose proof (Z.div_mod (Z.of_nat (length texts) + batch_size - 1) batch_size ltac:(lia)).
  pose proof (Z.mod_pos_bound (Z.of_nat (length texts) + batch_size - 1) batch_size Hb).
  assert (0 <= (Z.of_nat (length texts) + batch_size - 1) / batch_size)
    by (apply Z.div_pos; lia).
  nia.
Qed.

(** The batch size chosen for a non-empty list is positive. *)
Lemma optimal_batch_size_positive (num_texts : Z) (w : W) :
  0 < num_texts -> 0 < _batch_size self ->
  0 < fst (_get_optimal_batch_size W virtual_memory self num_texts w).
Proof.
  intros Hn Hb. unfold _get_optimal_batch_size.
  destruct (virtual_memory w) as [[m|] w1]; cbn; [|assumption].
  repeat match goal with
         | |- context [if ?c then _ else _] => destruct c
         end; cbn; lia.
Qed.

End EmbeddingFacts.

(** C5 (evaluation at the failing input).  [_check_memory_usage] returns
    normally in every environment: the error it raises when memory is still
    above the threshold after the collection is caught by its own [except]
    clause.  In a process that stays at 95% the statements under [try] do
    raise, the check does not, and [get_embeddings_batch] (five texts, one per
    batch, so that the in-loop check runs) returns all five vectors after two
    checks, four readings and three collections. *)
Theorem C5_high_memory_does_not_fail_the_call :
  (forall (W : Type) (virtual_memory : W -> option Embedding.svmem * W)
          (gc_collect : W -> W) (self : Embedding.EmbeddingService) (w : W),
      fst (Embedding._check_memory_usage W virtual_memory gc_collect self w) = inr tt) /\
  fst (Examples.process_check_memory_usage_try Embedding.new_EmbeddingService
         Examples.exhausted)
    = inl (Embedding.EmbeddingServiceError "Memory usage too high") /\
  fst (Examples.process_check_memory_usage Embedding.new_EmbeddingService
         Examples.exhausted) = inr tt /\
  fst (Examples.process_get_embeddings_batch Embedding.new_EmbeddingService
         Examples.five_texts (Some 1) Examples.exhausted)
    = inr Examples.five_texts /\
  Examples.reads
    (snd (Examples.process_get_embeddings_batch Embedding.new_EmbeddingService
            Examples.five_texts (Some 1) Examples.exhausted)) = 4%nat /\
  Examples.gc_runs
    (snd (Examples.process_get_embeddings_batch Embedding.new_EmbeddingService
            Examples.five_texts (Some 1) Examples.exhausted)) = 3%nat.
Proof.
  split; [intros; apply check_memory_usage_returns|].
  repeat split; vm_compute; reflexivity.
Qed.

(** C6 (counterexample).  Of three texts the second is blank; the call
    returns two vectors, those of the first and the third text, and no
    error. *)
Lemma C6_blank_text_is_dropped_silently :
  length Examples.three_texts = 3%nat /\
  Embedding._preprocess_text Embedding.new_EmbeddingService (Py.of_string "   ") = [] /\
  fst (Examples.process_get_embeddings_batch Embedding.new_EmbeddingService
         Examples.three_texts None Examples.roomy)
    = inr [Py.of_string "alpha"; Py.of_string "gamma"].
Proof. repeat split; vm_compute; reflexivity. Qed.

(** C6 (amended).  For a non-empty list of texts and a positive batch size
    (given, or chosen by the service), [get_embeddings_batch] returns, in
    input order, the vector of every text whose preprocessed form is not
    blank; blank ones are left out without an error, and the call is rejected
    only when every text is blank.  When no text is blank the result is one
    vector per input text, in order. *)
Theorem C6_batch_embeds_the_nonblank_texts_in_order :
  forall (W Vec : Type) (virtual_memory : W -> option Embedding.svmem * W)
         (gc_collect : W -> W) (embed : Py.str -> Vec)
         (self : Embedding.EmbeddingService) (texts : list Py.str)
         (batch_size : option Z) (w : W),
    texts <> [] ->
    0 < Embedding._batch_size self ->
    (forall b, batch_size = Some b -> 0 < b) ->
    let processed := map (Embedding._preprocess_text self) texts in
    let valid := filter (fun t => Py.truthy (Py.strip t)) processed in
    fst (Embedding.get_embeddings_batch W Vec virtual_memory gc_collect embed
           self texts batch_size w)
    = match valid with
      | [] => inl (Embedding.EmbeddingServiceError "No valid texts after preprocessing")
      | _ => inr (map embed valid)
      end
    /\ (forallb (fun t => Py.truthy (Py.strip t)) processed = true ->
        fst (Embedding.get_embeddings_batch W Vec virtual_memory gc_collect embed
               self texts batch_size w)
        = inr (map embed processed)).
Proof.
  intros W Vec vm gc embed self texts bs w Hne Hdef Hbs processed valid.
  assert (Hmain :
    fst (Embedding.get_embeddings_batch W Vec vm gc embed self texts bs w)
    = match valid with
      | [] => inl (Embedding.EmbeddingServiceError "No valid texts after preprocessing")
      | _ => inr (map embed valid)
      end).
  { unfold Embedding.get_embeddings_batch.
    destruct texts as [|t0 texts']; [congruence|].
    set (texts := t0 :: texts') in *.
    assert (Hpos : exists b w1,
      match bs with
      | Some b => (b, w)
      | None => Embedding._get_optimal_batch_size W vm self (Z.of_nat (length texts)) w
      end = (b, w1) /\ 0 < b).
    { destruct bs as [b|].
      - exists b, w. split; [reflexivity|]. now apply Hbs.
      - pose proof (optimal_batch_size_positive W vm self (Z.of_nat (length texts)) w) as Hp.
        destruct (Embedding._get_optimal_batch_size W vm self (Z.of_nat (length texts)) w)
          as [b w1].
        exists b, w1. split; [reflexivity|]. apply Hp; [subst texts; cbn; lia|assumption]. }
    destruct Hpos as (b & w1 & -> & Hb).
    fold processed. fold valid.
    destruct valid as [|v0 valid'] eqn:Hvalid; [reflexivity|].
    pose proof (check_memory_usage_returns W vm gc self w1) as Hc.
    destruct (Embedding._check_memory_usage W vm gc self w1) as [[e|u] w2];
      cbn in Hc; [discriminate|].
    pose proof (generate_embeddings_optimized_map W Vec vm gc embed self
                  (v0 :: valid') b w2 Hb) as Hg.
    destruct (Embedding._generate_embeddings_optimized W Vec vm gc embed self
                (v0 :: valid') b w2) as [[e|embs] w3]; cbn in Hg; [discriminate|].
    inversion Hg; subst. reflexivity. }
  split; [exact Hmain|].
  intros Hall. rewrite Hmain.
  assert (Hv : valid = processed).
  { subst valid. apply forallb_filter_id. exact Hall. }
  rewrite Hv. subst processed.
  destruct texts as [|t0 texts']; [congruence|]. reflexivity.
Qed.

(** C6: the amended statement at three texts, one of them blank. *)
Lemma C6_batch_witness :
  fst (Examples.process_get_embeddings_batch Embedding.new_EmbeddingService
         Examples.three_texts (Some 2) Examples.roomy)
  = inr [Py.of_string "alpha"; Py.of_string "gamma"].
Proof.
  refine (proj1 (C6_batch_embeds_the_nonblank_texts_in_order
            Examples.process Py.str Examples.process_virtual_memory
            Examples.process_gc_collect Examples.embed_id
            Embedding.new_EmbeddingService Examples.three_texts (Some 2)
            Examples.roomy _ _ _)).
  - discriminate.
  - reflexivity.
  - intros b Hb. inversion Hb. reflexivity.
Defined.

(** C9 (counterexample).  In a process where [psutil.virtual_memory()]
    raises, [_get_optimal_batch_size] for 3 texts returns the fixed
    [_batch_size] of the service, 32: more than the 3 texts, and a value the
    claimed function (capped at the number of texts) gives for no amount of
    available memory. *)
Lemma C9_failed_reading_is_not_capped :
  fst (Examples.process_get_optimal_batch_size Embedding.new_EmbeddingService 3
                                               Examples.blind) = 32 /\
  (forall available_bytes : Z, Embedding.spec_batch_size available_bytes 3 <= 3).
Proof.
  split; [reflexivity|].
  intros available_bytes. unfold Embedding.spec_batch_size. apply Z.le_min_r.
Qed.

(** C9 (amended).  The batch size in every environment.  When the memory
    reading succeeds it is the claimed function of the bytes available and
    the number of texts: base 64, 32, 16 or 8 for more than 8, 4, 2 GiB or
    less; scaled by 1 below 100 texts, by 2 from 100 to 999, by 4 from 1000
    on; capped at the number of texts.  When the reading raises it is the
    fixed [_batch_size] of the service, whatever the number of texts. *)
Theorem C9_optimal_batch_size :
  forall (W : Type) (virtual_memory : W -> option Embedding.svmem * W)
         (self : Embedding.EmbeddingService) (num_texts : Z) (w : W),
    Embedding._get_optimal_batch_size W virtual_memory self num_texts w
    = match virtual_memory w with
      | (Some memory, w1) =>
          (Embedding.spec_batch_size (Embedding.available memory) num_texts, w1)
      | (None, w1) => (Embedding._batch_size self, w1)
      end.
Proof.
  intros W vm self n w.
  unfold Embedding._get_optimal_batch_size.
  destruct (vm w) as [[m|] w1]; [|reflexivity].
  change 8%Q with (inject_Z 8). change 4%Q with (inject_Z 4). change 2%Q with (inject_Z 2).
  rewrite !gigabytes_gt.
  unfold Embedding.spec_batch_size, Embedding.spec_base, Embedding.spec_scale.
  destruct (Embedding.available m >? 8 * Embedding.GB),
           (Embedding.available m >? 4 * Embedding.GB),
           (Embedding.available m >? 2 * Embedding.GB),
           (n <? 100), (n <? 1000); reflexivity.
Qed.

(** C9 at 16 GiB available and 250 texts: [min (64 * 2) 250 = 128]. *)
Lemma C9_optimal_batch_size_witness :
  Examples.process_get_optimal_batch_size Embedding.new_EmbeddingService 250
                                          Examples.roomy
  = (128, Examples.mkProcess (Examples.reading_at Examples.roomy) 1 0).
Proof.
  exact (C9_optimal_batch_size Examples.process Examples.process_virtual_memory
           Embedding.new_EmbeddingService 250 Examples.roomy).
Defined.

(* ================================================================== *)
(** ** Rate limiter: the token bucket *)
(* ================================================================== *)

Section RateLimitFacts.
Import Py RateLimit.
Local Open Scope Q_scope.

Variable self : RateLimiter.
Variable client_id : str.

Lemma Qlt_not_le_bool (a b : Q) : a < b -> Qle_bool b a = false.
Proof.
  intros H. destruct (Qle_bool b a) eqn:E; [|reflexivity].
  apply Qle_bool_iff in E. exfalso. apply (Qlt_not_le _ _ H E).
Qed.

(** What one request does to the client's bucket, at a non-zero rate: the
    bucket (a full one if the client had none) is refilled, the request is
    granted when at least one token is there, and a grant takes exactly one
    token. *)
Lemma is_allowed_bucket (t : Q) :
  Qeq_bool (tokens_per_second self) 0 = false ->
  let b0 := match Dict.lookup client_id (buckets self) with
            | Some b => b
            | None => mkBucket (inject_Z (burst_size self)) t
            end in
  let b1 := refill self b0 t in
  let r := is_allowed self client_id t in
  fst (fst r) = Qle_bool 1 (tokens b1) /\
  Dict.lookup client_id (buckets (snd r))
    = Some (if Qle_bool 1 (tokens b1)
            then mkBucket (tokens b1 - 1) (last_refill b1) else b1) /\
  burst_size (snd r) = burst_size self /\
  tokens_per_second (snd r) = tokens_per_second self.
Proof.
  intros Hrate b0 b1 r. subst r. unfold is_allowed, Dict.mem.
  destruct (Dict.lookup client_id (buckets self)) as [b|] eqn:Hl.
  - rewrite Hl. subst b0. fold b1.
    destruct (Qle_bool 1 (tokens b1)); rewrite Hrate; cbn;
      rewrite lookup_assign_same; auto.
  - rewrite lookup_assign_same. fold b0. fold b1.
    destruct (Qle_bool 1 (tokens b1)); rewrite Hrate; cbn;
      rewrite lookup_assign_same; auto.
Qed.


Lemma rate_one_nonzero :
  tokens_per_second self == 1 -> Qeq_bool (tokens_per_second self) 0 = false.
Proof.
  intros H. destruct (Qeq_bool (tokens_per_second self) 0) eqn:E; [|reflexivity].
  apply Qeq_bool_iff in E. rewrite H in E. discriminate.
Qed.

(** The refilled amount lies between what the bucket held (capped) and
    what it held plus the time passed, at one token per second. *)
Lemma refill_bounds (b : bucket) (t : Q) :
  tokens_per_second self == 1 ->
  last_refill b <= t ->
  Qmin (inject_Z (burst_size self)) (tokens b) <= tokens (refill self b t) /\
  tokens (refill self b t) <= tokens b + (t - last_refill b) /\
  tokens (refill self b t) <= inject_Z (burst_size self) /\
  Qmin (inject_Z (burst_size self)) (tokens b + (t - last_refill b))
    <= tokens (refill self b t).
Proof.
  intros Hr Ht. unfold refill. cbn [tokens].
  assert (Hx : tokens b + (t - last_refill b) * tokens_per_second self
               == tokens b + (t - last_refill b)) by (rewrite Hr; ring).
  set (x := tokens b + (t - last_refill b) * tokens_per_second self) in *.
  destruct (Q.min_spec (inject_Z (burst_size self)) x) as [[H1 H2]|[H1 H2]];
  destruct (Q.min_spec (inject_Z (burst_size self)) (tokens b)) as [[H3 H4]|[H3 H4]];
  destruct (Q.min_spec (inject_Z (burst_size self)) (tokens b + (t - last_refill b)))
    as [[H5 H6]|[H5 H6]];
  rewrite H2, H4, H6; repeat split; lra.
Qed.

(** During a burst with [n >= 1] tokens guaranteed, a request is granted
    and leaves [n - 1] guaranteed. *)
Lemma grant_in_burst (n : Z) (t_start t_prev t : Q) :
  in_burst self client_id n t_start t_prev ->
  (1 <= n <= burst_size self)%Z ->
  t_prev <= t ->
  let r := is_allowed self client_id t in
  fst (fst r) = true /\
  in_burst (snd r) client_id (n - 1) t_start t /\
  burst_size (snd r) = burst_size self.
Proof.
  intros (Hr & b & Hl & Hlast & Hlo & Hhi) Hn Ht r.
  destruct (is_allowed_bucket t (rate_one_nonzero Hr)) as (Hg & Hb & Hbs & Htps).
  fold r in Hg, Hb, Hbs, Htps. rewrite Hl in Hg, Hb.
  assert (Hle : last_refill b <= t) by (rewrite Hlast; exact Ht).
  destruct (refill_bounds b t Hr Hle) as (B1 & B2 & B3 & B4).
  assert (HnQ : 1 <= inject_Z n /\ inject_Z n <= inject_Z (burst_size self)).
  { split; [change 1 with (inject_Z 1)|]; rewrite <- Zle_Qle; lia. }
  assert (Hone : 1 <= tokens (refill self b t)).
  { destruct (Q.min_spec (inject_Z (burst_size self)) (tokens b)) as [[H3 H4]|[H3 H4]];
      rewrite H4 in B1; lra. }
  assert (Hn' : inject_Z n <= tokens (refill self b t)).
  { destruct (Q.min_spec (inject_Z (burst_size self)) (tokens b)) as [[H3 H4]|[H3 H4]];
      rewrite H4 in B1; lra. }
  apply Qle_bool_iff in Hone. rewrite Hone in Hg, Hb.
  split; [exact Hg|]. split; [|exact Hbs].
  split; [rewrite Htps; exact Hr|].
  eexists. split; [exact Hb|]. cbn [tokens last_refill refill].
  split; [reflexivity|].
  assert (Hm : inject_Z (n - 1) == inject_Z n - 1).
  { unfold Zminus. rewrite inject_Z_plus. reflexivity. }
  rewrite Hm. change (Qmin (inject_Z (burst_size self))
                        (tokens b + (t - last_refill b) * tokens_per_second self))
    with (tokens (refill self b t)).
  split; lra.
Qed.

(** With no token guaranteed and less than a second since the burst
    began, a request is rejected. *)
Lemma reject_in_burst (t_start t_prev t : Q) :
  in_burst self client_id 0 t_start t_prev ->
  (0 <= burst_size self)%Z ->
  t_prev <= t ->
  t - t_start < 1 ->
  let r := is_allowed self client_id t in
  fst (fst r) = false /\
  in_burst (snd r) client_id 0 t_start t /\
  burst_size (snd r) = burst_size self.
Proof.
  intros (Hr & b & Hl & Hlast & Hlo & Hhi) Hn Ht Hwin r.
  destruct (is_allowed_bucket t (rate_one_nonzero Hr)) as (Hg & Hb & Hbs & Htps).
  fold r in Hg, Hb, Hbs, Htps. rewrite Hl in Hg, Hb.
  assert (Hle : last_refill b <= t) by (rewrite Hlast; exact Ht).
  destruct (refill_bounds b t Hr Hle) as (B1 & B2 & B3 & B4).
  assert (HnQ : 0 <= inject_Z (burst_size self)).
  { change 0 with (inject_Z 0). rewrite <- Zle_Qle. lia. }
  change (inject_Z 0) with 0 in Hlo, Hhi.
  assert (Hlt : tokens (refill self b t) < 1) by lra.
  apply Qlt_not_le_bool in Hlt. rewrite Hlt in Hg, Hb.
  split; [exact Hg|]. split; [|exact Hbs].
  split; [rewrite Htps; exact Hr|].
  eexists. split; [exact Hb|].
  split; [reflexivity|]. change (inject_Z 0) with 0.
  destruct (Q.min_spec (inject_Z (burst_size self)) (tokens b)) as [[H3 H4]|[H3 H4]];
    rewrite H4 in B1; split; lra.
Qed.

(** A second after a request that found the bucket non-negative, a
    request is granted. *)
Lemma grant_after_a_second (t_start t_prev t : Q) :
  in_burst self client_id 0 t_start t_prev ->
  (1 <= burst_size self)%Z ->
  t_prev + 1 <= t ->
  fst (fst (is_allowed self client_id t)) = true.
Proof.
  intros (Hr & b & Hl & Hlast & Hlo & Hhi) Hn Ht.
  destruct (is_allowed_bucket t (rate_one_nonzero Hr)) as (Hg & _).
  rewrite Hl in Hg. rewrite Hg. apply Qle_bool_iff.
  assert (Hle : last_refill b <= t) by (rewrite Hlast; lra).
  destruct (refill_bounds b t Hr Hle) as (B1 & B2 & B3 & B4).
  assert (HnQ : 1 <= inject_Z (burst_size self)).
  { change 1 with (inject_Z 1). rewrite <- Zle_Qle. lia. }
  change (inject_Z 0) with 0 in Hlo.
  destruct (Q.min_spec (inject_Z (burst_size self)) (tokens b + (t - last_refill b)))
    as [[H3 H4]|[H3 H4]]; rewrite H4 in B4; lra.
Qed.

End RateLimitFacts.

Section BurstFacts.
Import Py RateLimit.
Local Open Scope Q_scope.

Variable client_id : str.

Lemma serve_app (self : RateLimiter) (l1 l2 : list Q) :
  serve self client_id (l1 ++ l2) =
  (fst (serve self client_id l1) ++ fst (serve (snd (serve self client_id l1)) client_id l2),
   snd (serve (snd (serve self client_id l1)) client_id l2)).
Proof.
  revert self. induction l1 as [|t l1 IH]; intros self; cbn [serve app fst snd].
  - now destruct (serve self client_id l2).
  - destruct (is_allowed self client_id t) as [[g i] self1].
    rewrite IH.
    destruct (serve self1 client_id l1) as [g1 s1]. cbn [fst snd].
    destruct (serve s1 client_id l2) as [g2 s2]. reflexivity.
Qed.

Lemma last_cons (t : Q) (l : list Q) (d : Q) : last (t :: l) d = last l t.
Proof.
  revert t d. induction l as [|x l IH]; intros t d; [reflexivity|].
  change (last (t :: x :: l) d) with (last (x :: l) d).
  rewrite (IH x d), (IH x t). reflexivity.
Qed.

Lemma monotone_app (p : Q) (l1 l2 : list Q) :
  monotone p (l1 ++ l2) -> monotone p l1 /\ monotone (last l1 p) l2.
Proof.
  revert p. induction l1 as [|t l1 IH]; intros p.
  - cbn. auto.
  - cbn [app monotone]. intros [H1 H2]. destruct (IH t H2) as [H3 H4].
    rewrite last_cons. auto.
Qed.

(** The first request of a client finds a full bucket. *)
Lemma first_request (self : RateLimiter) (t : Q) :
  Dict.lookup client_id (buckets self) = None ->
  tokens_per_second self == 1 ->
  (1 <= burst_size self)%Z ->
  let r := is_allowed self client_id t in
  fst (fst r) = true /\
  in_burst (snd r) client_id (burst_size self - 1) t t /\
  burst_size (snd r) = burst_size self.
Proof.
  intros Hl Hr Hb r.
  destruct (is_allowed_bucket self client_id t (rate_one_nonzero self Hr))
    as (Hg & Hbk & Hbs & Htps).
  fold r in Hg, Hbk, Hbs, Htps. rewrite Hl in Hg, Hbk.
  set (b0 := mkBucket (inject_Z (burst_size self)) t) in *.
  destruct (refill_bounds self b0 t Hr (Qle_refl _)) as (B1 & B2 & B3 & B4).
  cbn [b0 tokens last_refill] in B1, B2, B3, B4.
  assert (HnQ : 1 <= inject_Z (burst_size self)).
  { change 1 with (inject_Z 1). rewrite <- Zle_Qle. lia. }
  rewrite Q.min_id in B1.
  assert (Hone : 1 <= tokens (refill self b0 t)) by lra.
  apply Qle_bool_iff in Hone. rewrite Hone in Hg, Hbk.
  split; [exact Hg|]. split; [|exact Hbs].
  split; [rewrite Htps; exact Hr|].
  eexists. split; [exact Hbk|]. cbn [tokens last_refill refill].
  split; [reflexivity|].
  assert (Hm : inject_Z (burst_size self - 1) == inject_Z (burst_size self) - 1).
  { unfold Zminus. rewrite inject_Z_plus. reflexivity. }
  rewrite Hm.
  change (Qmin (inject_Z (burst_size self))
            (tokens b0 + (t - last_refill b0) * tokens_per_second self))
    with (tokens (refill self b0 t)).
  split; lra.
Qed.

(** As long as tokens are guaranteed, every request of a burst is
    granted. *)
Lemma serve_in_burst (t_start : Q) :
  forall (times : list Q) (self : RateLimiter) (n : Z) (t_prev : Q),
    in_burst self client_id n t_start t_prev ->
    (Z.of_nat (length times) <= n <= burst_size self)%Z ->
    monotone t_prev times ->
    fst (serve self client_id times) = repeat true (length times) /\
    in_burst (snd (serve self client_id times)) client_id
             (n - Z.of_nat (length times)) t_start (last times t_prev) /\
    burst_size (snd (serve self client_id times)) = burst_size self.
Proof.
  induction times as [|t times IH]; intros self n t_prev Hin Hn Hmono.
  - cbn. rewrite Z.sub_0_r. auto.
  - destruct Hmono as [Ht Hmono].
    cbn [length] in Hn.
    destruct (grant_in_burst self client_id n t_start t_prev t Hin ltac:(lia) Ht)
      as (Hg & Hin' & Hbs).
    cbn [serve].
    destruct (is_allowed self client_id t) as [[g i] self1]. cbn [fst snd] in Hg, Hin', Hbs.
    destruct (IH self1 (n - 1)%Z t Hin' ltac:(lia) Hmono) as (Hgs & Hin'' & Hbs').
    destruct (serve self1 client_id times) as [gs self2]. cbn [fst snd] in *.
    subst g gs. split; [reflexivity|]. split.
    + replace (n - Z.of_nat (length (t :: times)))%Z
        with (n - 1 - Z.of_nat (length times))%Z by (cbn [length]; lia).
      rewrite last_cons. exact Hin''.
    + congruence.
Qed.

End BurstFacts.

(** C7.  A limiter at 60 requests per minute with burst size 10 and no
    bucket yet for the client.  Eleven requests arrive at one instant [t] (one
    reading of the clock), and a twelfth at a reading [t12] at least a second
    later.  The first ten are granted, the eleventh is rejected, the twelfth
    is granted.  At any non-zero rate a grant leaves the refilled amount less
    exactly one token in the bucket.  When the requests come at one instant,
    the bucket holds [10 - k] tokens after the [k]-th.

    Clock readings and token counts are floats in the source and rationals
    here.  In this scenario the two agree: during the burst the time passed
    is 0 and the token counts are the integers 10, 9, ..., 0, and for the
    twelfth request the difference [t12 - t], at least 1, is rounded to a
    float that is at least 1. *)
Theorem C7_token_bucket_60_10 :
  forall (t t12 : Q),
    (t + 1 <= t12)%Q ->
    fst (RateLimit.serve Examples.limiter_60_10 Examples.client
           (repeat t 11 ++ [t12]))
      = repeat true 10 ++ [false; true]
    /\ (forall (self : RateLimit.RateLimiter) (c : Py.str) (t : Q) (b : RateLimit.bucket),
          Qeq_bool (RateLimit.tokens_per_second self) 0 = false ->
          Dict.lookup c (RateLimit.buckets self) = Some b ->
          fst (fst (RateLimit.is_allowed self c t)) = true ->
          RateLimit.tokens_of (snd (RateLimit.is_allowed self c t)) c
            = Some (RateLimit.tokens (RateLimit.refill self b t) - 1)%Q)
    /\ (forall (t : Q) (k : nat),
          (1 <= k <= 10)%nat ->
          exists q,
            RateLimit.tokens_of
              (snd (RateLimit.serve Examples.limiter_60_10 Examples.client (repeat t k)))
              Examples.client = Some q /\
            (q == inject_Z (10 - Z.of_nat k))%Q).
Proof.
  intros t1 t12 Hwait.
  assert (Hrate : (RateLimit.tokens_per_second Examples.limiter_60_10 == 1)%Q)
    by reflexivity.
  split; [|split].
  - change (repeat t1 11 ++ [t12]) with (t1 :: repeat t1 9 ++ [t1; t12]).
    assert (Hlen : length (repeat t1 9) = 9%nat) by reflexivity.
    assert (Hmono : RateLimit.monotone t1 (repeat t1 9 ++ [t1]))
      by (cbn; repeat split; apply Qle_refl).
    assert (Hwin : (t1 - t1 < 1)%Q) by lra.
    set (ts := repeat t1 9) in *. clearbody ts.
    set (t11 := t1) in Hmono, Hwin, Hwait |- * at 2.
    destruct (monotone_app t1 ts [t11] Hmono) as [Hm1 [Hm2 _]].
    cbn [RateLimit.serve].
    destruct (first_request Examples.client Examples.limiter_60_10 t1 eq_refl Hrate
                ltac:(cbn; lia)) as (Hg & Hin & Hbs).
    destruct (RateLimit.is_allowed Examples.limiter_60_10 Examples.client t1)
      as [[g i] self1]. cbn [fst snd] in Hg, Hin, Hbs.
    change (RateLimit.burst_size Examples.limiter_60_10) with 10 in Hin, Hbs.
    rewrite (serve_app Examples.client self1 ts [t11; t12]).
    destruct (serve_in_burst Examples.client t1 ts self1 9 t1 Hin
                ltac:(rewrite Hbs, Hlen; cbn; lia) Hm1) as (Hgs & Hin' & Hbs').
    destruct (RateLimit.serve self1 Examples.client ts) as [gs self2].
    cbn [fst snd] in *. rewrite Hlen in Hgs, Hin'. change (9 - Z.of_nat 9) with 0 in Hin'.
    cbn [RateLimit.serve].
    destruct (reject_in_burst self2 Examples.client t1 (last ts t1) t11 Hin'
                ltac:(rewrite Hbs', Hbs; lia) Hm2 Hwin) as (Hr & Hin'' & Hbs'').
    destruct (RateLimit.is_allowed self2 Examples.client t11) as [[g11 i11] self3].
    cbn [fst snd] in Hr, Hin'', Hbs''.
    pose proof (grant_after_a_second self3 Examples.client t1 t11 t12 Hin''
                  ltac:(rewrite Hbs'', Hbs', Hbs; lia) Hwait) as Hlast.
    destruct (RateLimit.is_allowed self3 Examples.client t12) as [[g12 i12] self4].
    cbn [fst snd] in Hlast. subst. reflexivity.
  - intros self c t b Hnz Hl Hgrant.
    destruct (is_allowed_bucket self c t Hnz) as (Hg & Hb & _).
    rewrite Hl in Hg, Hb. rewrite Hgrant in Hg. rewrite <- Hg in Hb.
    unfold RateLimit.tokens_of. rewrite Hb. reflexivity.
  - intros t [|k] Hk; [lia|]. cbn [repeat RateLimit.serve].
    destruct (first_request Examples.client Examples.limiter_60_10 t eq_refl Hrate
                ltac:(cbn; lia)) as (Hg & Hin & Hbs).
    destruct (RateLimit.is_allowed Examples.limiter_60_10 Examples.client t)
      as [[g i] self1]. cbn [fst snd] in Hg, Hin, Hbs.
    change (RateLimit.burst_size Examples.limiter_60_10) with 10 in Hin, Hbs.
    assert (Hsame : RateLimit.monotone t (repeat t k)).
    { clear. induction k; cbn; [exact I|]. split; [apply Qle_refl|assumption]. }
    destruct (serve_in_burst Examples.client t (repeat t k) self1 9 t Hin
                ltac:(rewrite Hbs, repeat_length; lia) Hsame) as (_ & Hin' & _).
    destruct (RateLimit.serve self1 Examples.client (repeat t k)) as [gs self2].
    cbn [fst snd] in *. rewrite repeat_length in Hin'.
    destruct Hin' as (_ & b & Hl & _ & Hlo & Hhi).
    exists (RateLimit.tokens b). unfold RateLimit.tokens_of. rewrite Hl.
    split; [reflexivity|].
    replace (10 - Z.of_nat (S k)) with (9 - Z.of_nat k) by lia.
    assert (Hz : (last (repeat t k) t - t == 0)%Q).
    { assert (Hlastt : last (repeat t k) t = t).
      { clear. induction k; [reflexivity|].
        cbn [repeat]. rewrite last_cons. exact IHk. }
      rewrite Hlastt. ring. }
    rewrite Hz in Hhi. lra.
Qed.

(** C7 at twelve requests: eleven at time 0 and one at time 1. *)
Lemma C7_token_bucket_witness :
  fst (RateLimit.serve Examples.limiter_60_10 Examples.client
         (repeat 0 11 ++ [1])%Q)
  = repeat true 10 ++ [false; true].
Proof.
  refine (proj1 (C7_token_bucket_60_10 0 1 _)).
  discriminate.
Defined.

(* ================================================================== *)
(** ** Cache: expiry, capacity and the value [None] *)
(* ================================================================== *)

Lemma remove_length {V : Type} (k : Py.str) (d : Dict.t V) :
  (length (Dict.remove k d) <= length d)%nat.
Proof. apply filter_length_le. Qed.

Lemma remove_present_length {V : Type} (k : Py.str) (d : Dict.t V) (v : V) :
  Dict.lookup k d = Some v -> (length (Dict.remove k d) < length d)%nat.
Proof.
  induction d as [|[k' v'] d IH]; cbn; [discriminate|].
  destruct (Py.str_eqb k k') eqn:Hk; cbn.
  - intros _. pose proof (remove_length k d). unfold Dict.remove in H. lia.
  - intros H. specialize (IH H). unfold Dict.remove in IH. lia.
Qed.

Lemma assign_length {V : Type} (k : Py.str) (v : V) (d : Dict.t V) :
  (length (Dict.assign k v d) <= S (length d))%nat.
Proof.
  induction d as [|[k' v'] d IH]; cbn; [lia|].
  destruct (Py.str_eqb k k'); cbn; lia.
Qed.

Lemma move_to_end_length {V : Type} (k : Py.str) (d : Dict.t V) :
  (length (Dict.move_to_end k d) <= length d)%nat.
Proof.
  unfold Dict.move_to_end. destruct (Dict.lookup k d) as [v|] eqn:Hl; [|lia].
  rewrite length_app. cbn. pose proof (remove_present_length k d v Hl). lia.
Qed.

Lemma fold_remove_length {V : Type} (ks : list Py.str) (d : Dict.t V) :
  (length (fold_left (fun d k => Dict.remove k d) ks d) <= length d)%nat.
Proof.
  revert d. induction ks as [|k ks IH]; intros d; cbn; [lia|].
  specialize (IH (Dict.remove k d)). pose proof (remove_length k d). lia.
Qed.

Section CacheFacts.
Import Py Cache.

Variable A : Type.

Lemma evict_oldest_length (self : CacheService A) :
  (length (_cache (_evict_oldest self)) <= length (_cache self))%nat /\
  max_size (_evict_oldest self) = max_size self.
Proof.
  unfold _evict_oldest. destruct (_cache self) eqn:Hc; cbn; [rewrite Hc|]; auto.
Qed.

Lemma evict_times_length (n : nat) (self : CacheService A) :
  (length (_cache (evict_times n self)) <= length (_cache self))%nat /\
  max_size (evict_times n self) = max_size self.
Proof.
  revert self. induction n as [|n IH]; intros self; cbn; [auto|].
  destruct (IH (_evict_oldest self)) as [H1 H2].
  destruct (evict_oldest_length self) as [H3 H4]. split; [lia|congruence].
Qed.

Lemma check_memory_usage_length (self : CacheService A) (m : option Q) :
  (length (_cache (_check_memory_usage self m)) <= length (_cache self))%nat /\
  max_size (_check_memory_usage self m) = max_size self /\
  default_ttl (_check_memory_usage self m) = default_ttl self.
Proof.
  unfold _check_memory_usage. destruct m as [p|]; [|auto].
  destruct (Cache.Qlt_bool _ _); [|auto].
  destruct (evict_times_length (Z.to_nat (Z.max 1 (entries self / 4))) self) as [H1 H2].
  repeat split; [exact H1|exact H2|].
  generalize (Z.to_nat (Z.max 1 (entries self / 4))). clear.
  intros n. revert self. induction n as [|n IH]; intros self; cbn; [reflexivity|].
  rewrite IH. unfold _evict_oldest. destruct (_cache self); reflexivity.
Qed.

(** With a capacity that is not negative the eviction loop ends, within
    one iteration more than there are entries, and leaves no more entries
    than the capacity. *)
Lemma evict_while_bound :
  forall (fuel : nat) (self : CacheService A),
    0 <= max_size self ->
    (length (_cache self) < fuel)%nat ->
    exists self',
      evict_while fuel self = Some self' /\
      entries self' <= max_size self' /\
      max_size self' = max_size self.
Proof.
  induction fuel as [|fuel IH]; intros self Hm Hf; [lia|].
  cbn [evict_while]. destruct (entries self >? max_size self) eqn:Hgt.
  - assert (Hlen : (length (_cache (_evict_oldest self)) < length (_cache self))%nat).
    { rewrite Z.gtb_ltb in Hgt. apply Z.ltb_lt in Hgt. unfold entries in Hgt.
      unfold _evict_oldest. destruct (_cache self); cbn in *; lia. }
    destruct (evict_oldest_length self) as [_ Hms].
    destruct (IH (_evict_oldest self) ltac:(lia) ltac:(lia)) as (self' & H1 & H2 & H3).
    exists self'. repeat split; [exact H1|exact H2|congruence].
  - exists self. rewrite Z.gtb_ltb in Hgt. apply Z.ltb_ge in Hgt. auto.
Qed.

(** With a negative capacity the loop never ends: an empty cache still has
    more entries than the capacity, and there is nothing left to evict. *)
Lemma evict_while_negative_capacity :
  forall (fuel : nat) (self : CacheService A),
    max_size self < 0 -> evict_while fuel self = None.
Proof.
  induction fuel as [|fuel IH]; intros self Hm; [reflexivity|].
  cbn [evict_while].
  assert (Hgt : (entries self >? max_size self) = true).
  { rewrite Z.gtb_ltb. apply Z.ltb_lt. unfold entries. lia. }
  rewrite Hgt. apply IH. destruct (evict_oldest_length self) as [_ ->]. exact Hm.
Qed.

(** [set] returns, and leaves at most [max_size] entries. *)
Lemma set_bound (self : CacheService A) (key : str) (v : option A)
    (ttl : option Z) (m : option Q) (now : Q) :
  0 <= max_size self ->
  exists self',
    set self key v ttl m now = Some (true, self') /\
    entries self' <= max_size self' /\
    max_size self' = max_size self.
Proof.
  intros Hm. unfold set, set_fuel.
  destruct (check_memory_usage_length self m) as (Hlen & Hms & _).
  set (self1 := _check_memory_usage self m) in *.
  set (it := mkItem v _ now).
  set (c := Dict.assign key it _).
  assert (Hc : (length c <= S (length (_cache self1)))%nat).
  { subst c. destruct (Dict.mem key (_cache self1)).
    - pose proof (assign_length key it (Dict.remove key (_cache self1))).
      pose proof (remove_length key (_cache self1)). lia.
    - apply assign_length. }
  destruct (evict_while_bound (S (S (length (_cache self))))
              (with_cache self1 c (_stats self1)))
    as (self2 & H1 & H2 & H3); [cbn; lia|cbn; lia|].
  rewrite H1. eexists. split; [reflexivity|]. cbn in *. split; [exact H2|congruence].
Qed.

(** [get] on an entry whose expiry has passed is a miss and removes it. *)
Lemma get_expired (self : CacheService A) (key : str) (now : Q) (it : item A) :
  Dict.lookup key (_cache self) = Some it ->
  (expires_at it < now)%Q ->
  fst (get self key now) = None /\
  Dict.lookup key (_cache (snd (get self key now))) = None /\
  misses (_stats (snd (get self key now))) = misses (_stats self) + 1.
Proof.
  intros Hl Hexp. unfold get. rewrite Hl.
  assert (Hb : Cache.Qlt_bool (expires_at it) now = true).
  { unfold Cache.Qlt_bool. rewrite (Qlt_not_le_bool _ _ Hexp). reflexivity. }
  rewrite Hb. cbn. repeat split. apply lookup_remove_same.
Qed.

(** A value that [get] returns comes from an entry that has not expired. *)
Lemma get_hit_live (self : CacheService A) (key : str) (now : Q) (a : A) :
  fst (get self key now) = Some a ->
  exists it,
    Dict.lookup key (_cache self) = Some it /\
    value it = Some a /\
    (now <= expires_at it)%Q.
Proof.
  unfold get. destruct (Dict.lookup key (_cache self)) as [it|]; [|discriminate].
  unfold Cache.Qlt_bool. destruct (Qle_bool now (expires_at it)) eqn:Hle; cbn.
  - intros Hv. exists it. repeat split; [exact Hv|]. now apply Qle_bool_iff.
  - discriminate.
Qed.

(** No operation but [set] adds an entry, and none changes the capacity. *)
Lemma apply_op_bound (self self' : CacheService A) (o : op A) :
  0 <= max_size self ->
  entries self <= max_size self ->
  apply_op self o = Some self' ->
  entries self' <= max_size self' /\ max_size self' = max_size self.
Proof.
  intros Hm Hinv. destruct o as [k now|k v ttl m now|k| |now]; cbn [apply_op].
  - intros H. inversion H; subst. unfold get, entries in *.
    destruct (Dict.lookup k (_cache self)) as [it|]; [|cbn; lia].
    destruct (Cache.Qlt_bool _ _); cbn.
    + pose proof (remove_length k (_cache self)). lia.
    + pose proof (move_to_end_length k (_cache self)). lia.
  - destruct (set_bound self k v ttl m now Hm) as (s & Hs & H1 & H2).
    rewrite Hs. cbn. intros H. inversion H; subst. auto.
  - intros H. inversion H; subst. unfold delete, entries in *.
    destruct (Dict.mem k (_cache self)); cbn; [|lia].
    pose proof (remove_length k (_cache self)). lia.
  - intros H. inversion H; subst. unfold entries. cbn. lia.
  - intros H. inversion H; subst. unfold cleanup_expired, entries in *. cbn.
    pose proof (fold_remove_length
      (map fst (filter (fun kv => Cache.Qlt_bool (expires_at (snd kv)) now) (_cache self)))
      (_cache self)). lia.
Qed.

End CacheFacts.

(** C8.  The cache keeps the entry invariant under every operation.
    (1) A [get] after the expiry of the entry is a miss and removes the
    entry.  (2) Whatever [get] returns comes from an entry that has not
    expired.  (3) With a capacity [max_size >= 0], every [set] returns and
    leaves at most [max_size] stored entries (live or not).  (4) From a cache
    within its capacity, every sequence of [get], [set], [delete], [clear]
    and [cleanup_expired] runs to its end and leaves a cache within its
    capacity. *)
Theorem C8_cache_entry_invariant :
  forall (A : Type),
    (forall (self : Cache.CacheService A) (key : Py.str) (now : Q) (it : Cache.item A),
        Dict.lookup key (Cache._cache self) = Some it ->
        (Cache.expires_at it < now)%Q ->
        fst (Cache.get self key now) = None /\
        Dict.lookup key (Cache._cache (snd (Cache.get self key now))) = None) /\
    (forall (self : Cache.CacheService A) (key : Py.str) (now : Q) (a : A),
        fst (Cache.get self key now) = Some a ->
        exists it,
          Dict.lookup key (Cache._cache self) = Some it /\
          Cache.value it = Some a /\
          (now <= Cache.expires_at it)%Q) /\
    (forall (self : Cache.CacheService A) (key : Py.str) (v : option A)
            (ttl : option Z) (memory_percent : option Q) (now : Q),
        0 <= Cache.max_size self ->
        exists self',
          Cache.set self key v ttl memory_percent now = Some (true, self') /\
          Cache.entries self' <= Cache.max_size self' /\
          Cache.max_size self' = Cache.max_size self) /\
    (forall (ops : list (Cache.op A)) (self : Cache.CacheService A),
        0 <= Cache.max_size self ->
        Cache.entries self <= Cache.max_size self ->
        exists self',
          Cache.apply_ops self ops = Some self' /\
          Cache.entries self' <= Cache.max_size self').
Proof.
  intros A. split; [|split; [|split]].
  - intros self key now it Hl Hexp.
    destruct (get_expired A self key now it Hl Hexp) as (H1 & H2 & _). auto.
  - intros self key now a. apply get_hit_live.
  - intros self key v ttl m now. apply set_bound.
  - induction ops as [|o ops IH]; intros self Hm Hinv.
    + exists self. auto.
    + cbn [Cache.apply_ops].
      assert (Hstep : exists self1, Cache.apply_op self o = Some self1).
      { destruct o as [k now|k v ttl m now|k| |now]; cbn [Cache.apply_op]; eauto.
        destruct (set_bound A self k v ttl m now Hm) as (s & Hs & _).
        rewrite Hs. cbn. eauto. }
      destruct Hstep as [self1 Hs1]. rewrite Hs1.
      destruct (apply_op_bound A self self1 o Hm Hinv Hs1) as [H1 H2].
      apply IH; [rewrite H2; exact Hm|exact H1].
Qed.

(** C8 at a cache of capacity 10 holding one entry that expires at time
    100: a further [set] leaves the cache within its capacity, and a read at
    time 101 misses and removes the entry. *)
Lemma C8_cache_entry_invariant_witness :
  (exists self',
      Cache.set Examples.cache_with_seven (Py.of_string "k2") (Some 8%nat) None None 0
        = Some (true, self') /\
      Cache.entries self' <= Cache.max_size self') /\
  fst (Cache.get Examples.cache_with_seven Examples.key1 101) = None /\
  Dict.lookup Examples.key1
    (Cache._cache (snd (Cache.get Examples.cache_with_seven Examples.key1 101))) = None.
Proof.
  destruct (C8_cache_entry_invariant Datatypes.nat) as (Hexp & _ & Hset & _).
  split.
  - destruct (Hset Examples.cache_with_seven (Py.of_string "k2") (Some 8%nat) None None 0%Q
                ltac:(cbn; lia)) as (s & H1 & H2 & _).
    exists s. auto.
  - apply (Hexp Examples.cache_with_seven Examples.key1 101%Q
             (Cache.mkItem (Some 7%nat) 100 0) eq_refl).
    reflexivity.
Defined.

(** C10.  When the cache holds no entry for the key, or holds the value
    [None], [get] returns [None]; [get_or_set] then runs the factory instead
    of serving what is stored: when the factory returns, its value is stored
    and returned, and when the factory raises it is run a second time, in the
    world the first run left, and the outcome of that second run (a value or
    the exception) is what the caller gets. *)
Theorem C10_stored_none_is_a_miss :
  forall (A W E : Type) (self : Cache.CacheService A) (key : Py.str)
         (factory : Cache.factory_t A W E) (ttl : option Z)
         (memory_percent : option Q) (now now' : Q) (w : W),
    (Dict.lookup key (Cache._cache self) = None \/
     exists it, Dict.lookup key (Cache._cache self) = Some it /\ Cache.value it = None) ->
    fst (Cache.get self key now) = None /\
    (forall v w1,
        factory w = (inr v, w1) ->
        Cache.get_or_set self key factory ttl memory_percent now now' w
        = option_map (fun r => (inr v, snd r, w1))
            (Cache.set (snd (Cache.get self key now)) key v ttl memory_percent now')) /\
    (forall e w1,
        factory w = (inl e, w1) ->
        Cache.get_or_set self key factory ttl memory_percent now now' w
        = Some (fst (factory w1), snd (Cache.get self key now), snd (factory w1))).
Proof.
  intros A W E self key factory ttl m now now' w Hnone.
  assert (Hget : fst (Cache.get self key now) = None).
  { unfold Cache.get. destruct Hnone as [Hl|(it & Hl & Hv)]; rewrite Hl; [reflexivity|].
    destruct (Cache.Qlt_bool _ _); [reflexivity|exact Hv]. }
  split; [exact Hget|].
  unfold Cache.get_or_set.
  destruct (Cache.get self key now) as [r self1]. cbn [fst snd] in *. subst r.
  split.
  - intros v w1 Hf. rewrite Hf.
    destruct (Cache.set self1 key v ttl m now') as [[b self2]|]; reflexivity.
  - intros e w1 Hf. rewrite Hf. destruct (factory w1) as [r2 w2]. reflexivity.
Qed.

(** C10 at a cache that holds [None] under the key: the read misses; a
    factory that returns [None] is run at each of two successive calls (the
    invocation count goes from 0 to 1 to 2); a factory that raises is run
    twice within one call. *)
Lemma C10_stored_none_witness :
  fst (Cache.get Examples.cache_with_none Examples.key1 1) = None /\
  (exists self1,
      Cache.get_or_set Examples.cache_with_none Examples.key1 Examples.none_factory
                       None None 1 1 0%nat = Some (inr None, self1, 1%nat) /\
      exists self2,
        Cache.get_or_set self1 Examples.key1 Examples.none_factory
                         None None 2 2 1%nat = Some (inr None, self2, 2%nat)) /\
  Cache.get_or_set Examples.cache_with_none Examples.key1 Examples.failing_factory
                   None None 1 1 0%nat
  = Some (inl tt, snd (Cache.get Examples.cache_with_none Examples.key1 1), 2%nat).
Proof.
  assert (Hnone : Dict.lookup Examples.key1 (Cache._cache Examples.cache_with_none) = None \/
                  exists it, Dict.lookup Examples.key1 (Cache._cache Examples.cache_with_none)
                             = Some it /\ Cache.value it = None).
  { right. eexists. split; reflexivity. }
  destruct (C10_stored_none_is_a_miss Datatypes.nat Datatypes.nat unit
              Examples.cache_with_none Examples.key1 Examples.none_factory
              None None 1%Q 1%Q 0%nat Hnone) as (Hget & Hret & _).
  destruct (C10_stored_none_is_a_miss Datatypes.nat Datatypes.nat unit
              Examples.cache_with_none Examples.key1 Examples.failing_factory
              None None 1%Q 1%Q 0%nat Hnone) as (_ & _ & Hraise).
  split; [exact Hget|]. split.
  - eexists. split; [rewrite (Hret None 1%nat eq_refl); reflexivity|].
    eexists. vm_compute. reflexivity.
  - exact (Hraise tt 1%nat eq_refl).
Defined.

(* ================================================================== *)
(** ** Chunker: what the windows hold *)
(* ================================================================== *)

Lemma take_while_length (p : Py.char -> bool) (s : Py.str) :
  (length (Py.take_while p s) <= length s)%nat.
Proof.
  induction s as [|c s IH]; cbn; [lia|]. destruct (p c); cbn; lia.
Qed.

(** A match of the sentence-end pattern has at least two characters and
    stays inside the string. *)
Lemma backtrack_bounds (s : Py.str) :
  forall j m, (j <= length s)%nat -> Re.backtrack j s = Some m ->
              (2 <= m <= length s)%nat.
Proof.
  induction j as [|j IH]; intros m Hj; cbn [Re.backtrack]; [discriminate|].
  set (w := Re.run_length Py.isspace (skipn (S j) s)).
  assert (Hl : (w <= length s - S j)%nat).
  { unfold w, Re.run_length. rewrite <- length_skipn. apply take_while_length. }
  destruct (0 <? w)%nat eqn:Hw.
  - apply Nat.ltb_lt in Hw. intros [= <-]. lia.
  - intros H. apply IH; [lia|exact H].
Qed.

Lemma match_here_bounds (s : Py.str) (m : nat) :
  Re.match_here s = Some m -> (2 <= m <= length s)%nat.
Proof.
  unfold Re.match_here. apply backtrack_bounds.
  unfold Re.run_length. apply take_while_length.
Qed.

Lemma finditer_from_bounds :
  forall fuel pos s a b,
    In (a, b) (Re.finditer_from fuel pos s) ->
    (pos <= a /\ a + 2 <= b /\ b <= pos + length s)%nat.
Proof.
  induction fuel as [|fuel IH]; intros pos s a b; cbn [Re.finditer_from]; [intros []|].
  destruct s as [|c tl]; [intros []|].
  destruct (Re.match_here (c :: tl)) as [m|] eqn:Hm.
  - pose proof (match_here_bounds _ _ Hm) as Hb.
    intros [H|H].
    + injection H as <- <-. lia.
    + apply IH in H. rewrite length_skipn in H. lia.
  - intros H. apply IH in H. cbn [length]. lia.
Qed.

Lemma slice_length (s : Py.str) (a b : Z) :
  0 <= a <= b -> b <= Py.len s -> Py.len (Py.slice s a b) = b - a.
Proof.
  intros Hab Hb. unfold Py.slice, Py.norm_index, Py.len in *.
  destruct (a <? 0) eqn:Ha; [apply Z.ltb_lt in Ha; lia|].
  destruct (b <? 0) eqn:Hb0; [apply Z.ltb_lt in Hb0; lia|].
  rewrite length_firstn, length_skipn. lia.
Qed.

Lemma slice_from_length (s : Py.str) (a : Z) :
  0 <= a <= Py.len s -> Py.len (Py.slice_from s a) = Py.len s - a.
Proof.
  intros Ha. unfold Py.slice_from, Py.norm_index, Py.len in *.
  destruct (a <? 0) eqn:Ha0; [apply Z.ltb_lt in Ha0; lia|].
  rewrite length_skipn. lia.
Qed.

(** A window that is cut at a sentence end keeps at least the first 80% of
    its characters and two more, and never grows. *)
Lemma break_at_sentence_boundary_length (chunk_text full_text : Py.str) (start end_ : Z) :
  0 <= start ->
  start + Py.len chunk_text <= Py.len full_text ->
  let r := Chunker._break_at_sentence_boundary chunk_text full_text start end_ in
  Py.len r <= Py.len chunk_text /\
  (Py.len r = Py.len chunk_text \/
   Chunker.int_times_0_8 (Py.len chunk_text) + 2 <= Py.len r).
Proof.
  intros Hs Hfit r. subst r. unfold Chunker._break_at_sentence_boundary.
  set (n := Py.len chunk_text) in *.
  assert (Hn : 0 <= n) by (unfold n, Py.len; lia).
  assert (H08 : 0 <= Chunker.int_times_0_8 n <= n).
  { unfold Chunker.int_times_0_8. split; [apply Z.div_pos; lia|].
    apply Z.div_le_upper_bound; lia. }
  rewrite Z.max_r by lia.
  set (search_text := Py.slice_from chunk_text (Chunker.int_times_0_8 n)).
  assert (Hst : Py.len search_text = n - Chunker.int_times_0_8 n).
  { unfold search_text. apply slice_from_length. fold n. lia. }
  destruct (rev (Re.sentence_endings_finditer search_text)) as [|[a b] rest] eqn:Hrev;
    [lia|].
  assert (Hin : In (a, b) (Re.sentence_endings_finditer search_text)).
  { apply in_rev. rewrite Hrev. left. reflexivity. }
  apply finditer_from_bounds in Hin. cbn [snd].
  unfold Py.len in Hst.
  rewrite slice_length; [lia|lia|lia].
Qed.


Section ChunkerCoverage.
Import Py Chunker.

Variable rng : nat -> str.
Variable self : TextChunker.
Variable text document_id : str.

Hypothesis Hvalid : valid_config self.

(** The overlap is at least what a sentence cut can take off a window. *)
Hypothesis Hwide :
  chunk_size self - int_times_0_8 (chunk_size self) - 2 <= chunk_overlap self.



End ChunkerCoverage.



(* ================================================================== *)
(** ** Chunker: configuration, indices, sizes and validation *)
(* ================================================================== *)

Lemma drop_while_length (p : Py.char -> bool) (s : Py.str) :
  (length (Py.drop_while p s) <= length s)%nat.
Proof.
  induction s as [|c s IH]; cbn; [lia|]. destruct (p c); cbn; lia.
Qed.

Lemma drop_while_same_length (p : Py.char -> bool) (s : Py.str) :
  length (Py.drop_while p s) = length s -> Py.drop_while p s = s.
Proof.
  destruct s as [|c s]; cbn; [reflexivity|].
  destruct (p c); [|reflexivity].
  pose proof (drop_while_length p s). lia.
Qed.

Lemma strip_length (s : Py.str) : Py.len (Py.strip s) <= Py.len s.
Proof.
  unfold Py.strip, Py.rstrip, Py.lstrip, Py.len. rewrite length_rev.
  pose proof (drop_while_length Py.isspace (rev (Py.drop_while Py.isspace s))) as H1.
  rewrite length_rev in H1.
  pose proof (drop_while_length Py.isspace s). lia.
Qed.

(** Stripping keeps the length only when it removes nothing. *)
Lemma strip_same_length (s : Py.str) :
  Py.len (Py.strip s) = Py.len s <-> Py.strip s = s.
Proof.
  split; [|intros ->; reflexivity].
  unfold Py.strip, Py.rstrip, Py.lstrip, Py.len. rewrite length_rev. intros H.
  pose proof (drop_while_length Py.isspace (rev (Py.drop_while Py.isspace s))) as H1.
  rewrite length_rev in H1.
  pose proof (drop_while_length Py.isspace s) as H2.
  assert (E1 : Py.drop_while Py.isspace s = s)
    by (apply drop_while_same_length; lia).
  rewrite E1 in *.
  rewrite drop_while_same_length by (rewrite length_rev; lia).
  apply rev_involutive.
Qed.

Lemma split_aux_trailing_space (c : Py.char) :
  Py.isspace c = true ->
  forall s cur, Py.split_aux cur (s ++ [c]) = Py.split_aux cur s.
Proof.
  intros Hc. induction s as [|x s IH]; intros cur; cbn.
  - rewrite Hc. destruct cur; reflexivity.
  - destruct (Py.isspace x); [destruct cur|]; now rewrite IH.
Qed.

Lemma split_lstrip (s : Py.str) : Py.split (Py.lstrip s) = Py.split s.
Proof.
  unfold Py.split, Py.lstrip. induction s as [|c s IH]; cbn; [reflexivity|].
  destruct (Py.isspace c) eqn:Hc; [exact IH|]. cbn. now rewrite Hc.
Qed.

Lemma split_rstrip (s : Py.str) : Py.split (Py.rstrip s) = Py.split s.
Proof.
  unfold Py.rstrip. rewrite <- (rev_involutive s) at 2.
  generalize (rev s). intros r. induction r as [|c r IH]; cbn; [reflexivity|].
  destruct (Py.isspace c) eqn:Hc; [|reflexivity].
  unfold Py.split in *. rewrite split_aux_trailing_space by exact Hc. exact IH.
Qed.

(** [split] does not see what [strip] removes. *)
Lemma split_strip (s : Py.str) : Py.split (Py.strip s) = Py.split s.
Proof. unfold Py.strip. now rewrite split_rstrip, split_lstrip. Qed.

(** X2.  Whatever the settings of the process are, the constructor reads
    an overlap (or a size) argument of 0 as "not given" and takes the value of
    the settings instead: [TextChunker(cs, 0)] is [TextChunker(cs)].  Every
    chunker that is constructed has [0 <= chunk_overlap < chunk_size], and its
    overlap is 0 only when [settings.chunk_overlap] is 0: an overlap of 0
    cannot be asked for by the argument. *)
Theorem X2_zero_overlap_is_replaced_by_the_default :
  forall (settings : Chunker.Settings) (cs ov : option Z),
    Chunker.init_with_settings settings cs (Some 0)
    = Chunker.init_with_settings settings cs None /\
    Chunker.init_with_settings settings (Some 0) ov
    = Chunker.init_with_settings settings None ov /\
    forall self,
      Chunker.init_with_settings settings cs ov = inr self ->
      0 <= Chunker.chunk_overlap self < Chunker.chunk_size self /\
      (Chunker.settings_chunk_overlap settings <> 0 -> 1 <= Chunker.chunk_overlap self).
Proof.
  intros settings cs ov. split; [reflexivity|]. split; [reflexivity|].
  intros self. unfold Chunker.init_with_settings.
  destruct (_ <=? 0) eqn:H1; [discriminate|].
  destruct (_ <? 0) eqn:H2; [discriminate|].
  destruct (_ >=? _) eqn:H3; [discriminate|].
  intros [= <-]. cbn [Chunker.chunk_overlap Chunker.chunk_size].
  apply Z.ltb_ge in H2. rewrite Z.geb_leb in H3. apply Z.leb_gt in H3.
  split; [lia|]. intros Hs.
  assert (Chunker.or_else ov (Chunker.settings_chunk_overlap settings) <> 0).
  { unfold Chunker.or_else.
    destruct ov as [v|]; [|exact Hs]. destruct (v =? 0) eqn:E; [exact Hs|].
    apply Z.eqb_neq in E. exact E. }
  lia.
Qed.

(** X2 at [TextChunker(500, 0)]: with the default settings the overlap is
    200; in a process started with [CHUNK_OVERLAP=0] it is 0. *)
Lemma X2_zero_overlap_witness :
  Chunker.init_with_settings Chunker.default_settings (Some 500) (Some 0)
  = inr (Chunker.mkTextChunker 500 200) /\
  1 <= Chunker.chunk_overlap (Chunker.mkTextChunker 500 200) /\
  Chunker.init_with_settings (Chunker.mkSettings 1000 0) (Some 500) (Some 0)
  = inr (Chunker.mkTextChunker 500 0).
Proof.
  split; [reflexivity|]. split; [|reflexivity].
  apply (proj2 (proj2 (proj2 (X2_zero_overlap_is_replaced_by_the_default
                               Chunker.default_settings (Some 500) (Some 0)))
                      (Chunker.mkTextChunker 500 200) eq_refl)).
  cbn. lia.
Defined.

Section ChunkerWellFormed.
Import Py Chunker.

Variable rng : nat -> str.
Variable self : TextChunker.
Variable text document_id : str.

Hypothesis Hvalid : valid_config self.

Lemma single_chunk_counts (t : str) (index : Z) (sp ep : option Z) (k : nat) :
  let c := fst (_create_single_chunk rng t document_id index sp ep k) in
  Z.of_nat (length (split (content c))) = word_count c /\
  len (content c) <= char_count c /\
  char_count c = len t /\
  chunk_index c = index.
Proof.
  cbn. rewrite split_strip. repeat split. apply strip_length.
Qed.

Lemma indices_snoc (chunks : list chunk) (c : chunk) :
  map chunk_index chunks = map Z.of_nat (seq 0 (length chunks)) ->
  chunk_index c = Z.of_nat (length chunks) ->
  map chunk_index (chunks ++ [c]) = map Z.of_nat (seq 0 (length (chunks ++ [c]))).
Proof.
  intros H1 H2. rewrite length_app. cbn [length]. rewrite Nat.add_1_r, seq_S.
  rewrite !map_app, H1. cbn. now rewrite H2.
Qed.

Lemma chunk_loop_well_formed :
  forall fuel start index chunks k s i chunks' k',
    0 <= start ->
    index = Z.of_nat (length chunks) ->
    map chunk_index chunks = map Z.of_nat (seq 0 (length chunks)) ->
    Forall (fun c => Z.of_nat (length (split (content c))) = word_count c /\
                     len (content c) <= char_count c <= chunk_size self) chunks ->
    chunk_loop rng self text document_id fuel start index chunks k
      = Some (s, i, chunks', k') ->
    i = Z.of_nat (length chunks') /\
    map chunk_index chunks' = map Z.of_nat (seq 0 (length chunks')) /\
    Forall (fun c => Z.of_nat (length (split (content c))) = word_count c /\
                     len (content c) <= char_count c <= chunk_size self) chunks' /\
    len text - chunk_overlap self <= s.
Proof.
  destruct Hvalid as [Hcs [Hov0 Hov]].
  induction fuel as [|fuel IH]; intros start index chunks k s i chunks' k' Hs Hi Hidx Hwf;
    [discriminate|].
  cbn [chunk_loop].
  destruct (start <? len text) eqn:Hlt.
  - apply Z.ltb_lt in Hlt.
    set (end_ := Z.min (start + chunk_size self) (len text)).
    set (raw := if end_ <? len text
                then _break_at_sentence_boundary (slice text start end_) text start end_
                else slice text start end_).
    assert (Hraw : len raw <= chunk_size self).
    { unfold raw. destruct (end_ <? len text) eqn:Hend.
      - apply Z.ltb_lt in Hend.
        assert (Hlen : len (slice text start end_) = chunk_size self)
          by (rewrite slice_length; unfold end_ in *; lia).
        pose proof (break_at_sentence_boundary_length (slice text start end_) text
                      start end_ Hs ltac:(rewrite Hlen; unfold end_ in *; lia)) as [Hb _].
        lia.
      - apply Z.ltb_ge in Hend. rewrite slice_length; unfold end_ in *; lia. }
    destruct (single_chunk_counts raw index (Some start) (Some end_) k)
      as (Hw & Hc1 & Hc2 & Hc3).
    destruct (_create_single_chunk rng raw document_id index (Some start) (Some end_) k)
      as [c k1] eqn:Hc. cbn [fst] in Hw, Hc1, Hc2, Hc3.
    assert (Hidx' : map chunk_index (chunks ++ [c])
                    = map Z.of_nat (seq 0 (length (chunks ++ [c]))))
      by (apply indices_snoc; [exact Hidx|congruence]).
    assert (Hwf' : Forall (fun c => Z.of_nat (length (split (content c))) = word_count c /\
                     len (content c) <= char_count c <= chunk_size self) (chunks ++ [c])).
    { apply Forall_app. split; [exact Hwf|]. constructor; [|constructor].
      split; [exact Hw|]. lia. }
    assert (Hi' : index + 1 = Z.of_nat (length (chunks ++ [c])))
      by (rewrite length_app; cbn [length]; lia).
    destruct (end_ - chunk_overlap self >=? len text - chunk_overlap self) eqn:Hge.
    + intros [= <- <- <- <-]. rewrite Z.geb_leb in Hge. apply Z.leb_le in Hge.
      repeat split; try assumption; unfold end_ in *; lia.
    + apply IH; try assumption. unfold end_. lia.
  - apply Z.ltb_ge in Hlt. intros [= <- <- <- <-].
    repeat split; try assumption; lia.
Qed.

Lemma create_chunks_well_formed (k : nat) (chunks : list chunk) (k' : nat) :
  _create_chunks rng self text document_id k = Some (chunks, k') ->
  map chunk_index chunks = map Z.of_nat (seq 0 (length chunks)) /\
  Forall (fun c => Z.of_nat (length (split (content c))) = word_count c /\
                   len (content c) <= char_count c <= chunk_size self) chunks.
Proof.
  destruct Hvalid as [Hcs [Hov0 Hov]].
  unfold _create_chunks, _create_chunks_fuel.
  destruct (len text <=? chunk_size self) eqn:Hle.
  - apply Z.leb_le in Hle.
    destruct (single_chunk_counts text 0 None None k) as (Hw & Hc1 & Hc2 & Hc3).
    destruct (_create_single_chunk rng text document_id 0 None None k) as [c k1].
    cbn [fst] in *. intros [= <- <-]. split; [cbn; now rewrite Hc3|].
    constructor; [|constructor]. split; [exact Hw|lia].
  - apply Z.leb_gt in Hle.
    destruct (chunk_loop rng self text document_id (S (length text)) 0 0 [] k)
      as [[[[s i] cs] d]|] eqn:Hloop; [|discriminate].
    destruct (chunk_loop_well_formed (S (length text)) 0 0 [] k s i cs d
                (Z.le_refl 0) eq_refl eq_refl (Forall_nil _) Hloop)
      as (Hi & Hidx & Hwf & Hs1).
    destruct (s <? len text) eqn:Hs; [|intros [= <- <-]; auto].
    apply Z.ltb_lt in Hs.
    destruct (0 <? len (strip (slice_from text s))); [|intros [= <- <-]; auto].
    destruct (single_chunk_counts (slice_from text s) i (Some s) (Some (len text)) d)
      as (Hw & Hc1 & Hc2 & Hc3).
    destruct (_create_single_chunk rng (slice_from text s) document_id i
                (Some s) (Some (len text)) d) as [c k1].
    cbn [fst] in *. intros [= <- <-]. split.
    + apply indices_snoc; [exact Hidx|congruence].
    + apply Forall_app. split; [exact Hwf|]. constructor; [|constructor].
      split; [exact Hw|]. rewrite slice_from_length in Hc2 by lia. lia.
Qed.

End ChunkerWellFormed.

Lemma validate_no_word_mismatch (chunks : list Chunker.chunk) :
  Forall (fun c => Z.of_nat (length (Py.split (Chunker.content c)))
                   = Chunker.word_count c) chunks ->
  forall i, existsb Chunker.is_word_count_mismatch
              (Chunker.validate_chunks_from i chunks) = false.
Proof.
  induction 1 as [|c chunks Hc _ IH]; intros i; cbn [Chunker.validate_chunks_from];
    [reflexivity|].
  rewrite existsb_app, IH, orb_false_r. unfold Chunker.validate_chunk.
  rewrite Hc, Z.eqb_refl.
  destruct (negb _), (_ =? _); reflexivity.
Qed.

(** X3.  For a valid configuration, the chunks [_create_chunks] returns are
    numbered 0, 1, 2, ... in order, and no chunk is longer than the window:
    the content is at most [char_count] characters and [char_count] is at
    most [chunk_size]. *)
Theorem X3_chunks_are_numbered_and_bounded :
  forall (rng : nat -> Py.str) (self : Chunker.TextChunker)
         (text document_id : Py.str) (k k' : nat) (chunks : list Chunker.chunk),
    Chunker.valid_config self ->
    Chunker._create_chunks rng self text document_id k = Some (chunks, k') ->
    map Chunker.chunk_index chunks = map Z.of_nat (seq 0 (length chunks)) /\
    Forall (fun c => Py.len (Chunker.content c) <= Chunker.char_count c
                       <= Chunker.chunk_size self) chunks.
Proof.
  intros rng self text doc k k' chunks Hv Hr.
  destruct (create_chunks_well_formed rng self text doc Hv k chunks k' Hr) as [H1 H2].
  split; [exact H1|]. eapply Forall_impl; [|exact H2]. cbn. intros c [_ H]. exact H.
Qed.

(** X3 at the gap example. *)
Lemma X3_chunks_numbered_witness :
  exists chunks k',
    Chunker._create_chunks Examples.uuid_run1 Examples.gap_chunker
                           Examples.gap_text Examples.doc1 0 = Some (chunks, k') /\
    map Chunker.chunk_index chunks = map Z.of_nat (seq 0 (length chunks)) /\
    Forall (fun c => Py.len (Chunker.content c) <= Chunker.char_count c <= 20) chunks.
Proof.
  destruct (Chunker._create_chunks Examples.uuid_run1 Examples.gap_chunker
              Examples.gap_text Examples.doc1 0) as [[chunks k']|] eqn:Hr;
    [|vm_compute in Hr; discriminate].
  exists chunks, k'. split; [reflexivity|].
  exact (X3_chunks_are_numbered_and_bounded Examples.uuid_run1 Examples.gap_chunker
           Examples.gap_text Examples.doc1 0 k' chunks
           ltac:(unfold Chunker.valid_config; simpl; lia) Hr).
Defined.

(** X4.  [validate_chunks] never reports a word count mismatch on what
    [_create_chunks] returns: the words are counted before the chunk text is
    stripped, and stripping does not change them. *)
Theorem X4_validate_accepts_word_counts :
  forall (rng : nat -> Py.str) (self : Chunker.TextChunker)
         (text document_id : Py.str) (k k' : nat) (chunks : list Chunker.chunk),
    Chunker.valid_config self ->
    Chunker._create_chunks rng self text document_id k = Some (chunks, k') ->
    existsb Chunker.is_word_count_mismatch (Chunker.validate_chunks chunks) = false.
Proof.
  intros rng self text doc k k' chunks Hv Hr.
  destruct (create_chunks_well_formed rng self text doc Hv k chunks k' Hr) as [_ H2].
  apply validate_no_word_mismatch.
  eapply Forall_impl; [|exact H2]. cbn. intros c [H _]. exact H.
Qed.

(** X4 at the gap example. *)
Lemma X4_validate_word_counts_witness :
  exists chunks k',
    Chunker._create_chunks Examples.uuid_run1 Examples.gap_chunker
                           Examples.gap_text Examples.doc1 0 = Some (chunks, k') /\
    existsb Chunker.is_word_count_mismatch (Chunker.validate_chunks chunks) = false.
Proof.
  destruct (Chunker._create_chunks Examples.uuid_run1 Examples.gap_chunker
              Examples.gap_text Examples.doc1 0) as [[chunks k']|] eqn:Hr;
    [|vm_compute in Hr; discriminate].
  exists chunks, k'. split; [reflexivity|].
  apply (X4_validate_accepts_word_counts Examples.uuid_run1 Examples.gap_chunker
           Examples.gap_text Examples.doc1 0 k' chunks);
    [unfold Chunker.valid_config; simpl; lia|exact Hr].
Defined.

(** X5.  [validate_chunks] reports a character count mismatch for a chunk
    made by [_create_single_chunk] exactly when the chunk text starts or ends
    with whitespace: [char_count] is the length before stripping, the
    validator measures the stripped content. *)
Theorem X5_validate_rejects_stripped_chunks :
  forall (rng : nat -> Py.str) (t document_id : Py.str) (index : Z)
         (sp ep : option Z) (k i : nat),
    In (Chunker.CharacterCountMismatch i)
       (Chunker.validate_chunk i
          (fst (Chunker._create_single_chunk rng t document_id index sp ep k)))
    <-> Py.strip t <> t.
Proof.
  intros rng t doc index sp ep k i. unfold Chunker.validate_chunk. cbn.
  rewrite !in_app_iff. split.
  - intros [H|[H|H]].
    + destruct (negb _); cbn in H; [destruct H as [H|[]]; discriminate|contradiction].
    + destruct (_ =? _); cbn in H; [contradiction|destruct H as [H|[]]; discriminate].
    + destruct (Py.len (Py.strip t) =? Py.len t) eqn:E; [contradiction|].
      apply Z.eqb_neq in E. intros Heq. apply E. now rewrite Heq.
  - intros Hne. right. right.
    destruct (Py.len (Py.strip t) =? Py.len t) eqn:E; [|left; reflexivity].
    apply Z.eqb_eq in E. apply strip_same_length in E. contradiction.
Qed.

(** X5 at a chunk text that ends with a space. *)
Lemma X5_validate_rejects_witness :
  In (Chunker.CharacterCountMismatch 0)
     (Chunker.validate_chunk 0
        (fst (Chunker._create_single_chunk Examples.uuid_run1 (Py.of_string "End. ")
                Examples.doc1 0 None None 0))).
Proof.
  apply (X5_validate_rejects_stripped_chunks Examples.uuid_run1 (Py.of_string "End. ")
           Examples.doc1 0 None None 0 0).
  vm_compute. discriminate.
Defined.

Section ChunkerTail.
Import Py Chunker.

Variable rng : nat -> str.
Variable self : TextChunker.
Variable text document_id : str.

Hypothesis Hvalid : valid_config self.


End ChunkerTail.



(* ================================================================== *)
(** ** Resilience: retries, the breaker's counters, the decorators *)
(* ================================================================== *)

Section RetryFacts.
Import Resilience.
Local Open Scope Q_scope.

Variables W R E : Type.
Variable time : W -> Q.
Variable sleep : Q -> W -> W.
Variable uniform : Q -> Q -> W -> Q * W.

(** [random.uniform(a, b)] answers within its bounds. *)
Hypothesis uniform_in_range :
  forall a b w, a <= b -> a <= fst (uniform a b w) <= b.

Lemma calculate_delay_bounds (self : RetryHandler) (attempt : Z) (w : W) :
  0 <= base_delay (retry_config self) ->
  0 <= exponential_base (retry_config self) ->
  0 <= max_delay (retry_config self) ->
  let d := fst (_calculate_delay uniform self attempt w) in
  0 <= d /\
  d <= max_delay (retry_config self) * (11 # 10) /\
  (jitter (retry_config self) = false -> d <= max_delay (retry_config self)).
Proof.
  intros Hb He Hm d. subst d. unfold _calculate_delay.
  set (cfg := retry_config self) in *.
  set (d0 := Qmin (base_delay cfg * exponential_base cfg ^ attempt) (max_delay cfg)).
  assert (Hp : 0 <= base_delay cfg * exponential_base cfg ^ attempt).
  { apply Qmult_le_0_compat; [exact Hb|]. apply Qpower_0_le. exact He. }
  assert (Hd0 : 0 <= d0 /\ d0 <= max_delay cfg).
  { unfold d0.
    destruct (Q.min_spec (base_delay cfg * exponential_base cfg ^ attempt) (max_delay cfg))
      as [[H1 H2]|[H1 H2]]; rewrite H2; split; lra. }
  destruct (jitter cfg).
  - pose proof (uniform_in_range 0 (d0 * (1 # 10)) w ltac:(lra)) as Hu.
    destruct (uniform 0 (d0 * (1 # 10)) w) as [j w']. cbn [fst] in *.
    repeat split; try lra; try discriminate.
  - cbn [fst]. repeat split; lra.
Qed.

End RetryFacts.

(** X7.  The delay before a retry is never negative and never more than
    110% of [max_delay]; without jitter it is at most [max_delay].  (For
    non-negative [base_delay], [exponential_base] and [max_delay], and a
    [random.uniform] that answers within its bounds.) *)
Theorem X7_retry_delay_is_bounded :
  forall (W : Type) (uniform : Q -> Q -> W -> Q * W)
         (self : Resilience.RetryHandler) (attempt : Z) (w : W),
    (forall a b w, (a <= b)%Q -> (a <= fst (uniform a b w) <= b)%Q) ->
    (0 <= Resilience.base_delay (Resilience.retry_config self))%Q ->
    (0 <= Resilience.exponential_base (Resilience.retry_config self))%Q ->
    (0 <= Resilience.max_delay (Resilience.retry_config self))%Q ->
    (0 <= fst (Resilience._calculate_delay uniform self attempt w))%Q /\
    (fst (Resilience._calculate_delay uniform self attempt w)
       <= Resilience.max_delay (Resilience.retry_config self) * (11 # 10))%Q /\
    (Resilience.jitter (Resilience.retry_config self) = false ->
     (fst (Resilience._calculate_delay uniform self attempt w)
        <= Resilience.max_delay (Resilience.retry_config self))%Q).
Proof.
  intros W uniform self attempt w Hu Hb He Hm.
  exact (calculate_delay_bounds W uniform Hu self attempt w Hb He Hm).
Qed.

(** X7 at the default configuration, tenth attempt: the delay is capped. *)
Lemma X7_retry_delay_witness :
  (0 <= fst (Resilience._calculate_delay Examples.service_uniform
               (Resilience.new_RetryHandler None) 10 Examples.blip))%Q /\
  (fst (Resilience._calculate_delay Examples.service_uniform
          (Resilience.new_RetryHandler None) 10 Examples.blip) <= 60 * (11 # 10))%Q.
Proof.
  destruct (X7_retry_delay_is_bounded Examples.service Examples.service_uniform
              (Resilience.new_RetryHandler None) 10 Examples.blip) as (H1 & H2 & _).
  - intros a b w Hab. cbn. split; [apply Qle_refl|exact Hab].
  - discriminate.
  - discriminate.
  - discriminate.
  - split; [exact H1|exact H2].
Defined.

Section ScriptedRetry.
Import Resilience Examples.

Variable cfg : RetryConfig.

Lemma service_delay_keeps_script (attempt : Z) (w : service) :
  let w' := service_sleep (fst (_calculate_delay service_uniform (mkRetryHandler cfg) attempt w))
                          (snd (_calculate_delay service_uniform (mkRetryHandler cfg) attempt w)) in
  script w' = script w /\ invocations w' = invocations w.
Proof.
  unfold _calculate_delay, service_uniform, service_sleep. cbn.
  destruct (jitter cfg); cbn; auto.
Qed.

(** [n] failures in the script and [n] iterations left, the last of them
    the final attempt: all are used up and the last failure is raised. *)
Lemma retry_loop_all_fail :
  forall (fails : list (exn unit)) (rest : list (exn unit + nat)) (d : exn unit)
         (attempt : Z) (last_exception : option (exn unit)) (w : service),
    fails <> [] ->
    script w = map inl fails ++ rest ->
    attempt + Z.of_nat (length fails) = max_attempts cfg ->
    let r := retry_loop service_sleep service_uniform (mkRetryHandler cfg) service_func
                        (length fails) attempt last_exception w in
    fst r = inl (last fails d) /\
    invocations (snd r) = (invocations w + length fails)%nat /\
    script (snd r) = rest.
Proof.
  induction fails as [|e fails IH]; intros rest d attempt le w Hne Hs Ha; [congruence|].
  assert (Hf : service_func w
               = (inl e, mkService (clock w) (map inl fails ++ rest) (S (invocations w))))
    by (unfold service_func; rewrite Hs; reflexivity).
  cbn [length retry_loop]. rewrite Hf.
  destruct fails as [|e2 fails].
  - cbn [length] in Ha. cbn [retry_config].
    assert (Hlast : (attempt =? max_attempts cfg - 1) = true) by (apply Z.eqb_eq; lia).
    rewrite Hlast. cbn. repeat split; try reflexivity; lia.
  - cbn [retry_config].
    assert (Hlast : (attempt =? max_attempts cfg - 1) = false)
      by (apply Z.eqb_neq; cbn [length] in Ha; lia).
    rewrite Hlast.
    set (w1 := mkService (clock w) (map inl (e2 :: fails) ++ rest) (S (invocations w))).
    destruct (service_delay_keeps_script attempt w1) as [Hs1 Hi1].
    destruct (_calculate_delay service_uniform (mkRetryHandler cfg) attempt w1)
      as [delay w2]. cbn [fst snd] in Hs1, Hi1.
    destruct (IH rest d (attempt + 1) (Some e) (service_sleep delay w2)
                ltac:(discriminate) Hs1 ltac:(cbn [length] in *; lia)) as (H1 & H2 & H3).
    cbn zeta in H1, H2, H3. rewrite H1, H2, H3, Hi1. cbn. repeat split; try reflexivity; lia.
Qed.

(** Fewer failures than iterations left, then a success: the success is
    returned and nothing after it is consumed. *)
Lemma retry_loop_then_success :
  forall (fails : list (exn unit)) (rest : list (exn unit + nat)) (v : nat)
         (n : nat) (attempt : Z) (last_exception : option (exn unit)) (w : service),
    script w = map inl fails ++ inr v :: rest ->
    (length fails < n)%nat ->
    attempt + Z.of_nat n = max_attempts cfg ->
    let r := retry_loop service_sleep service_uniform (mkRetryHandler cfg) service_func
                        n attempt last_exception w in
    fst r = inr v /\
    invocations (snd r) = (invocations w + length fails + 1)%nat /\
    script (snd r) = rest.
Proof.
  induction fails as [|e fails IH]; intros rest v n attempt le w Hs Hn Ha;
    (destruct n as [|n]; [cbn in Hn; lia|]); cbn [retry_loop].
  - assert (Hf : service_func w = (inr v, mkService (clock w) rest (S (invocations w))))
      by (unfold service_func; rewrite Hs; reflexivity).
    rewrite Hf. cbn. repeat split; try reflexivity; lia.
  - assert (Hf : service_func w
                 = (inl e, mkService (clock w) (map inl fails ++ inr v :: rest)
                                     (S (invocations w))))
      by (unfold service_func; rewrite Hs; reflexivity).
    rewrite Hf. cbn [retry_config].
    assert (Hlast : (attempt =? max_attempts cfg - 1) = false)
      by (apply Z.eqb_neq; cbn [length] in Hn; lia).
    rewrite Hlast.
    set (w1 := mkService (clock w) (map inl fails ++ inr v :: rest) (S (invocations w))).
    destruct (service_delay_keeps_script attempt w1) as [Hs1 Hi1].
    destruct (_calculate_delay service_uniform (mkRetryHandler cfg) attempt w1)
      as [delay w2]. cbn [fst snd] in Hs1, Hi1.
    destruct (IH rest v n (attempt + 1) (Some e) (service_sleep delay w2)
                Hs1 ltac:(cbn [length] in Hn; lia) ltac:(lia)) as (H1 & H2 & H3).
    cbn zeta in H1, H2, H3. rewrite H1, H2, H3, Hi1. cbn. repeat split; try reflexivity; lia.
Qed.

End ScriptedRetry.

(** X8.  Against a service that follows a script, [retry] with
    [max_attempts = n >= 1] invokes the callable once per attempt and stops at
    the first success: if the script starts with [k < n] failures followed by
    a success, the success is returned after [k + 1] invocations; if it starts
    with [n] failures, the last of them is raised after exactly [n]
    invocations.  Nothing further of the script is consumed.  The
    configuration is one for which computing a delay and sleeping raise
    nothing in the source: at most 1024 attempts, [0 <= base_delay],
    [0 <= exponential_base <= 2] and [0 <= max_delay <= 10 ** 9]. *)
Theorem X8_retry_stops_at_first_success :
  forall (cfg : Resilience.RetryConfig) (fails : list (Resilience.exn unit))
         (rest : list (Resilience.exn unit + nat)) (clk : Q) (inv : nat),
    Resilience.configured_within_range cfg ->
    (forall v : nat,
        (Z.of_nat (length fails) < Resilience.max_attempts cfg) ->
        let r := Examples.service_retry (Resilience.mkRetryHandler cfg) Examples.service_func
                   (Examples.mkService clk (map inl fails ++ inr v :: rest) inv) in
        fst r = inr v /\
        Examples.invocations (snd r) = (inv + length fails + 1)%nat /\
        Examples.script (snd r) = rest) /\
    (forall d : Resilience.exn unit,
        fails <> [] ->
        Z.of_nat (length fails) = Resilience.max_attempts cfg ->
        let r := Examples.service_retry (Resilience.mkRetryHandler cfg) Examples.service_func
                   (Examples.mkService clk (map inl fails ++ rest) inv) in
        fst r = inl (last fails d) /\
        Examples.invocations (snd r) = (inv + length fails)%nat /\
        Examples.script (snd r) = rest).
Proof.
  intros cfg fails rest clk inv _. split.
  - intros v Hlt. unfold Examples.service_retry, Resilience.retry. cbn [Resilience.retry_config].
    apply (retry_loop_then_success cfg fails rest v
             (Z.to_nat (Resilience.max_attempts cfg)) 0 None
             (Examples.mkService clk (map inl fails ++ inr v :: rest) inv));
      [reflexivity|lia|lia].
  - intros d Hne Hlen. unfold Examples.service_retry, Resilience.retry.
    cbn [Resilience.retry_config]. rewrite <- Hlen, Nat2Z.id.
    apply (retry_loop_all_fail cfg fails rest d 0 None
             (Examples.mkService clk (map inl fails ++ rest) inv));
      [exact Hne|reflexivity|lia].
Qed.

(** X8 with the default three attempts: one failure then a success takes
    two invocations, three failures take three and raise. *)
Lemma X8_retry_witness :
  Examples.invocations
    (snd (Examples.service_retry (Resilience.new_RetryHandler None) Examples.service_func
            (Examples.mkService 0 [Examples.down; Examples.up 5; Examples.up 6] 0)))
    = 2%nat /\
  fst (Examples.service_retry (Resilience.new_RetryHandler None) Examples.service_func
         (Examples.mkService 0 [Examples.down; Examples.down; Examples.down; Examples.up 6] 0))
    = Examples.down.
Proof.
  assert (Hcfg : Resilience.configured_within_range Resilience.default_RetryConfig).
  { unfold Resilience.configured_within_range. cbn.
    repeat split; try lia; discriminate. }
  destruct (X8_retry_stops_at_first_success Resilience.default_RetryConfig
              [Resilience.ServiceError tt] [Examples.up 6] 0%Q 0%nat Hcfg) as [H1 _].
  destruct (X8_retry_stops_at_first_success Resilience.default_RetryConfig
              [Resilience.ServiceError tt; Resilience.ServiceError tt; Resilience.ServiceError tt]
              [Examples.up 6] 0%Q 0%nat Hcfg) as [_ H2].
  split.
  - exact (proj1 (proj2 (H1 5%nat ltac:(cbn; lia)))).
  - exact (proj1 (H2 (Resilience.ServiceError tt) ltac:(discriminate) eq_refl)).
Defined.

(** X9.  With [max_attempts <= 0] the loop of [retry] has no iteration:
    the callable is never run, the world is untouched, and the statement
    [raise last_exception] raises a [TypeError] because nothing was caught. *)
Theorem X9_retry_without_attempts_raises_type_error :
  forall (W R E : Type) (sleep : Q -> W -> W) (uniform : Q -> Q -> W -> Q * W)
         (self : Resilience.RetryHandler) (func : Resilience.callable W R E) (w : W),
    Resilience.max_attempts (Resilience.retry_config self) <= 0 ->
    Resilience.retry sleep uniform self func w
    = (inl (Resilience.TypeError "exceptions must derive from BaseException"), w).
Proof.
  intros W R E sleep uniform self func w Hm. unfold Resilience.retry.
  replace (Z.to_nat (Resilience.max_attempts (Resilience.retry_config self))) with 0%nat
    by lia.
  reflexivity.
Qed.

(** X9 at [max_attempts = 0]. *)
Lemma X9_retry_without_attempts_witness :
  Examples.service_retry
    (Resilience.mkRetryHandler (Resilience.mkRetryConfig 0 1 60 2 true))
    Examples.service_func Examples.blip
  = (inl (Resilience.TypeError "exceptions must derive from BaseException"), Examples.blip).
Proof.
  apply (X9_retry_without_attempts_raises_type_error Examples.service Datatypes.nat unit
           Examples.service_sleep Examples.service_uniform
           (Resilience.mkRetryHandler (Resilience.mkRetryConfig 0 1 60 2 true))
           Examples.service_func Examples.blip).
  cbn. lia.
Defined.

Section BreakerRuns.
Import Resilience.

Variables W R E : Type.
Variable time : W -> Q.
Variable sleep : Q -> W -> W.

(** The callable fails whenever it is run. *)
Variable func : callable W R E.
Hypothesis func_fails : forall w, exists e w', func w = (inl e, w').

Lemma closed_failures_accumulate :
  forall (n : nat) (cb : CircuitBreaker) (w : W),
    state cb = CLOSED ->
    failure_count cb + Z.of_nat n < failure_threshold (config cb) ->
    let cb' := snd (fst (run time sleep cb (repeat (Call func) n) w)) in
    state cb' = CLOSED /\
    failure_count cb' = failure_count cb + Z.of_nat n /\
    config cb' = config cb.
Proof.
  induction n as [|n IH]; intros cb w Hs Hlt.
  - cbn. split; [exact Hs|split; [lia|reflexivity]].
  - cbn [repeat run]. unfold call, entry_check. rewrite Hs.
    destruct (func_fails w) as (e & w1 & Hf). rewrite Hf.
    set (cb1 := _on_failure time cb w1).
    assert (H1 : state cb1 = CLOSED /\ failure_count cb1 = failure_count cb + 1
                 /\ config cb1 = config cb).
    { unfold cb1, _on_failure. rewrite Hs.
      assert (Hge : (failure_count cb + 1 >=? failure_threshold (config cb)) = false)
        by (rewrite Z.geb_leb; apply Z.leb_gt; lia).
      rewrite Hge. cbn. auto. }
    destruct H1 as (Hs1 & Hf1 & Hc1).
    specialize (IH cb1 w1 Hs1 ltac:(rewrite Hf1, Hc1; lia)).
    destruct (run time sleep cb1 (repeat (Call func) n) w1) as [[rs cb2] w2].
    cbn [fst snd] in *. destruct IH as (H2 & H3 & H4).
    repeat split; [exact H2|lia|congruence].
Qed.

Lemma run_app (cb : CircuitBreaker) (ev1 ev2 : list (event W R E)) (w : W) :
  snd (fst (run time sleep cb (ev1 ++ ev2) w))
  = snd (fst (run time sleep (snd (fst (run time sleep cb ev1 w))) ev2
                (snd (run time sleep cb ev1 w)))).
Proof.
  revert cb w. induction ev1 as [|ev ev1 IH]; intros cb w; cbn [app run].
  - reflexivity.
  - destruct ev as [d|f].
    + apply IH.
    + destruct (call time cb f w) as [[r cb1] w1].
      rewrite (surjective_pairing (run time sleep cb1 (ev1 ++ ev2) w1)).
      rewrite (surjective_pairing (fst (run time sleep cb1 (ev1 ++ ev2) w1))).
      rewrite (surjective_pairing (run time sleep cb1 ev1 w1)).
      rewrite (surjective_pairing (fst (run time sleep cb1 ev1 w1))).
      cbn [fst snd]. apply IH.
Qed.

Lemma opens_at_threshold (cfg : CircuitBreakerConfig) (w : W) :
  1 <= failure_threshold cfg ->
  state (snd (fst (run time sleep (new_CircuitBreaker (Some cfg))
                     (repeat (Call func) (Z.to_nat (failure_threshold cfg))) w))) = OPEN.
Proof.
  intros Hth.
  replace (Z.to_nat (failure_threshold cfg))
    with (Z.to_nat (failure_threshold cfg - 1) + 1)%nat by lia.
  rewrite repeat_app, run_app.
  destruct (closed_failures_accumulate (Z.to_nat (failure_threshold cfg - 1))
              (new_CircuitBreaker (Some cfg)) w eq_refl ltac:(cbn; lia))
    as (Hs & Hf & Hc).
  set (cb := snd (fst (run time sleep (new_CircuitBreaker (Some cfg))
                         (repeat (Call func) (Z.to_nat (failure_threshold cfg - 1))) w))) in *.
  set (w1 := snd (run time sleep (new_CircuitBreaker (Some cfg))
                    (repeat (Call func) (Z.to_nat (failure_threshold cfg - 1))) w)).
  cbn [repeat run]. unfold call, entry_check. rewrite Hs.
  destruct (func_fails w1) as (e & w2 & Hfw). rewrite Hfw. cbn [fst snd].
  unfold _on_failure. rewrite Hs.
  assert (Hge : (failure_count cb + 1 >=? failure_threshold (config cb)) = true).
  { rewrite Z.geb_leb. apply Z.leb_le. rewrite Hf, Hc. cbn. lia. }
  rewrite Hge. reflexivity.
Qed.

End BreakerRuns.

(** X10.  A new breaker with [failure_threshold >= 1] whose callable fails
    at every call stays closed, counting the failures, for fewer than
    [failure_threshold] calls, and is open after exactly
    [failure_threshold] calls. *)
Theorem X10_breaker_opens_at_the_threshold :
  forall (W R E : Type) (time : W -> Q) (sleep : Q -> W -> W)
         (func : Resilience.callable W R E) (cfg : Resilience.CircuitBreakerConfig) (w : W),
    (forall w, exists e w', func w = (inl e, w')) ->
    1 <= Resilience.failure_threshold cfg ->
    (forall n : nat,
        Z.of_nat n < Resilience.failure_threshold cfg ->
        let cb := snd (fst (Resilience.run time sleep (Resilience.new_CircuitBreaker (Some cfg))
                              (repeat (Resilience.Call func) n) w)) in
        Resilience.state cb = Resilience.CLOSED /\
        Resilience.failure_count cb = Z.of_nat n) /\
    Resilience.state
      (snd (fst (Resilience.run time sleep (Resilience.new_CircuitBreaker (Some cfg))
                   (repeat (Resilience.Call func)
                           (Z.to_nat (Resilience.failure_threshold cfg))) w)))
    = Resilience.OPEN.
Proof.
  intros W R E time sleep func cfg w Hfail Hth. split.
  - intros n Hn.
    destruct (closed_failures_accumulate W R E time sleep func Hfail n
                (Resilience.new_CircuitBreaker (Some cfg)) w eq_refl ltac:(cbn; lia))
      as (H1 & H2 & _).
    split; [exact H1|]. rewrite H2. cbn. lia.
  - apply opens_at_threshold; assumption.
Qed.

(** X10 at the default threshold of 5. *)
Lemma X10_breaker_opens_witness :
  Resilience.state
    (snd (fst (Examples.service_run (Resilience.new_CircuitBreaker None)
                 (repeat (Resilience.Call Examples.always_down) 5) Examples.healthy)))
  = Resilience.OPEN.
Proof.
  refine (proj2 (X10_breaker_opens_at_the_threshold Examples.service Datatypes.nat unit
            Examples.service_time Examples.service_sleep Examples.always_down
            Resilience.default_CircuitBreakerConfig Examples.healthy _ _)).
  - intros w. eexists. eexists. reflexivity.
  - cbn. lia.
Defined.

Section BreakerInvariant.
Import Resilience.

Variables W R E : Type.
Variable time : W -> Q.
Variable sleep : Q -> W -> W.

(** The counters of a breaker stay within its thresholds. *)
Lemma call_keeps_counters (cb : CircuitBreaker) (f : callable W R E) (w : W) :
  1 <= failure_threshold (config cb) ->
  1 <= success_threshold (config cb) ->
  0 <= failure_count cb ->
  0 <= success_count cb < success_threshold (config cb) ->
  (state cb = CLOSED -> failure_count cb < failure_threshold (config cb)) ->
  let cb' := snd (fst (call time cb f w)) in
  config cb' = config cb /\
  0 <= failure_count cb' /\
  0 <= success_count cb' < success_threshold (config cb') /\
  (state cb' = CLOSED -> failure_count cb' < failure_threshold (config cb')).
Proof.
  intros Hft Hst Hf Hs Hc. unfold call, entry_check.
  destruct (state cb) eqn:Est.
  - destruct (f w) as [[e|v] w1]; cbn [fst snd].
    + unfold _on_failure. rewrite Est.
      destruct (failure_count cb + 1 >=? failure_threshold (config cb)) eqn:Hge; cbn.
      * repeat split; try lia. discriminate.
      * rewrite Z.geb_leb in Hge. apply Z.leb_gt in Hge. repeat split; lia.
    + unfold _on_success. rewrite Est. cbn. repeat split; lia.
  - destruct (_should_attempt_reset time cb w).
    + destruct (f w) as [[e|v] w1]; cbn [fst snd].
      * unfold _on_failure. cbn. repeat split; try lia. discriminate.
      * unfold _on_success. cbn.
        destruct (success_count cb + 1 >=? success_threshold (config cb)) eqn:Hge; cbn.
        -- repeat split; lia.
        -- rewrite Z.geb_leb in Hge. apply Z.leb_gt in Hge.
           repeat split; try lia. discriminate.
    + cbn. rewrite Est. repeat split; try lia. discriminate.
  - destruct (f w) as [[e|v] w1]; cbn [fst snd].
    + unfold _on_failure. rewrite Est. cbn. repeat split; try lia. discriminate.
    + unfold _on_success. rewrite Est.
      destruct (success_count cb + 1 >=? success_threshold (config cb)) eqn:Hge; cbn.
      * repeat split; lia.
      * rewrite Z.geb_leb in Hge. apply Z.leb_gt in Hge.
        repeat split; try lia. discriminate.
Qed.

Lemma run_keeps_counters :
  forall (events : list (event W R E)) (cb : CircuitBreaker) (w : W),
    1 <= failure_threshold (config cb) ->
    1 <= success_threshold (config cb) ->
    0 <= failure_count cb ->
    0 <= success_count cb < success_threshold (config cb) ->
    (state cb = CLOSED -> failure_count cb < failure_threshold (config cb)) ->
    let cb' := snd (fst (run time sleep cb events w)) in
    config cb' = config cb /\
    0 <= failure_count cb' /\
    0 <= success_count cb' < success_threshold (config cb') /\
    (state cb' = CLOSED -> failure_count cb' < failure_threshold (config cb')).
Proof.
  induction events as [|ev events IH]; intros cb w Hft Hst Hf Hs Hc.
  - cbn. auto.
  - destruct ev as [d|f]; cbn [run].
    + apply IH; assumption.
    + destruct (call_keeps_counters cb f w Hft Hst Hf Hs Hc) as (H1 & H2 & H3 & H4).
      destruct (call time cb f w) as [[r cb1] w1]. cbn [fst snd] in H1, H2, H3, H4.
      specialize (IH cb1 w1 ltac:(rewrite H1; exact Hft) ltac:(rewrite H1; exact Hst)
                     H2 H3 H4).
      destruct (run time sleep cb1 events w1) as [[rs cb2] w2]. cbn [fst snd] in *.
      destruct IH as (I1 & I2 & I3 & I4).
      split; [congruence|]. split; [exact I2|]. split; [exact I3|exact I4].
Qed.

End BreakerInvariant.

(** X11.  Whatever is called through a new breaker whose thresholds are at
    least 1, and however time passes in between, the breaker's counters stay
    within the thresholds: [failure_count] is never negative and is below
    [failure_threshold] whenever the breaker is closed, and [success_count]
    is never negative and always below [success_threshold]. *)
Theorem X11_breaker_counters_stay_within_thresholds :
  forall (W R E : Type) (time : W -> Q) (sleep : Q -> W -> W)
         (cfg : Resilience.CircuitBreakerConfig)
         (events : list (Resilience.event W R E)) (w : W),
    1 <= Resilience.failure_threshold cfg ->
    1 <= Resilience.success_threshold cfg ->
    let cb := snd (fst (Resilience.run time sleep (Resilience.new_CircuitBreaker (Some cfg))
                          events w)) in
    0 <= Resilience.failure_count cb /\
    0 <= Resilience.success_count cb < Resilience.success_threshold cfg /\
    (Resilience.state cb = Resilience.CLOSED ->
     Resilience.failure_count cb < Resilience.failure_threshold cfg).
Proof.
  intros W R E time sleep cfg events w Hft Hst.
  destruct (run_keeps_counters W R E time sleep events
              (Resilience.new_CircuitBreaker (Some cfg)) w Hft Hst
              ltac:(cbn; lia) ltac:(cbn; lia) ltac:(cbn; lia))
    as (H1 & H2 & H3 & H4).
  cbn zeta. cbn [Resilience.new_CircuitBreaker Resilience.config] in H1.
  rewrite H1 in H3, H4. auto.
Qed.

(** X11 at the outage of the breaker example. *)
Lemma X11_breaker_counters_witness :
  0 <= Resilience.success_count
         (snd (fst (Examples.service_run
                      (Resilience.new_CircuitBreaker
                         (Some Resilience.default_CircuitBreakerConfig))
                      Examples.first_episode Examples.outage))) < 3.
Proof.
  exact (proj1 (proj2 (X11_breaker_counters_stay_within_thresholds
           Examples.service Datatypes.nat unit Examples.service_time Examples.service_sleep
           Resilience.default_CircuitBreakerConfig Examples.first_episode Examples.outage
           ltac:(cbn; lia) ltac:(cbn; lia)))).
Defined.

(** X12.  A function wrapped by the [circuit_breaker] decorator is never
    protected: each call builds its own closed breaker, so the wrapped
    function is run at every call and the caller gets exactly its outcome,
    whatever the thresholds and whatever failed before. *)
Theorem X12_circuit_breaker_decorator_always_calls :
  forall (W R E : Type) (time : W -> Q) (service_name : Py.str)
         (failure_threshold : Z) (recovery_timeout : Q)
         (func : Resilience.callable W R E) (w : W),
    Resilience.circuit_breaker time service_name failure_threshold recovery_timeout func w
    = func w.
Proof.
  intros W R E time name ft rt func w.
  unfold Resilience.circuit_breaker, Resilience.call, Resilience.entry_check. cbn.
  destruct (func w) as [[e|v] w1]; reflexivity.
Qed.

(** X13.  [resilient_call] does not respect an open breaker.  When the
    breaker of the service is open and its recovery timeout has not elapsed,
    and the retry handler has at least one attempt, the wrapped callable is
    still run (by the retry handler): if it succeeds, the caller gets its
    value, and the breaker stays open, unchanged. *)
Theorem X13_resilient_call_runs_behind_an_open_breaker :
  forall (W R E : Type) (time : W -> Q) (sleep : Q -> W -> W)
         (uniform : Q -> Q -> W -> Q * W)
         (mgr : Resilience.ResilienceManager) (name : Py.str)
         (cb : Resilience.CircuitBreaker)
         (func : Resilience.callable W R E) (w w1 : W) (v : R),
    Dict.lookup name (Resilience.circuit_breakers mgr) = Some cb ->
    Resilience.state cb = Resilience.OPEN ->
    Resilience._should_attempt_reset time cb w = false ->
    1 <= Resilience.max_attempts
           (Resilience.retry_config (fst (Resilience.get_retry_handler mgr name None))) ->
    func w = (inr v, w1) ->
    let r := Resilience.resilient_call time sleep uniform mgr name func w in
    fst (fst r) = inr v /\
    snd r = w1 /\
    Dict.lookup name (Resilience.circuit_breakers (snd (fst r))) = Some cb.
Proof.
  intros W R E time sleep uniform mgr name cb func w w1 v Hl Hs Hr Hm Hf r. subst r.
  unfold Resilience.resilient_call, Resilience.get_circuit_breaker. rewrite Hl.
  rewrite (open_rejects_without_invoking W R E time cb func w Hs Hr).
  pose proof (get_retry_handler_fst (Resilience.store_circuit_breaker mgr name cb) name) as H1.
  pose proof (get_retry_handler_breakers (Resilience.store_circuit_breaker mgr name cb) name)
    as H2.
  pose proof (get_retry_handler_fst mgr name) as H3.
  cbn [Resilience.store_circuit_breaker Resilience.retry_handlers
       Resilience.circuit_breakers] in H1, H2.
  rewrite <- H3 in H1.
  destruct (Resilience.get_retry_handler (Resilience.store_circuit_breaker mgr name cb)
              name None) as [h1 mgr3].
  cbn [fst snd] in H1, H2. subst h1.
  set (h := fst (Resilience.get_retry_handler mgr name None)) in *.
  unfold Resilience.retry.
  destruct (Z.to_nat (Resilience.max_attempts (Resilience.retry_config h))) as [|n] eqn:En;
    [lia|].
  cbn [Resilience.retry_loop]. rewrite Hf. cbn [fst snd].
  repeat split. rewrite H2. apply lookup_assign_same.
Qed.

(** X13 at a manager whose breaker for the service is open since time 0,
    asked at time 0. *)
Lemma X13_resilient_call_open_witness :
  fst (fst (Examples.service_resilient_call Examples.manager_with_open_breaker
              Examples.svc Examples.service_func Examples.healthy)) = inr 42%nat.
Proof.
  exact (proj1 (X13_resilient_call_runs_behind_an_open_breaker
           Examples.service Datatypes.nat unit Examples.service_time Examples.service_sleep
           Examples.service_uniform Examples.manager_with_open_breaker Examples.svc
           Examples.open_breaker Examples.service_func Examples.healthy
           (Examples.mkService 0 [] 1) 42%nat
           eq_refl eq_refl eq_refl ltac:(cbn; lia) eq_refl)).
Defined.

(** X14.  The manager keeps one breaker per service name: the first
    [get_circuit_breaker] for a name stores a breaker built from the given
    configuration, and every later one returns that stored breaker and
    ignores the configuration it is given. *)
Theorem X14_breaker_registry_ignores_later_configuration :
  forall (mgr : Resilience.ResilienceManager) (name : Py.str)
         (cfg cfg' : option Resilience.CircuitBreakerConfig),
    let cb := fst (Resilience.get_circuit_breaker mgr name cfg) in
    let mgr1 := snd (Resilience.get_circuit_breaker mgr name cfg) in
    Dict.lookup name (Resilience.circuit_breakers mgr1) = Some cb /\
    Resilience.get_circuit_breaker mgr1 name cfg' = (cb, mgr1) /\
    (Dict.lookup name (Resilience.circuit_breakers mgr) = None ->
     cb = Resilience.new_CircuitBreaker cfg).
Proof.
  intros mgr name cfg cfg'. cbn zeta. unfold Resilience.get_circuit_breaker.
  destruct (Dict.lookup name (Resilience.circuit_breakers mgr)) as [cb0|] eqn:Hl;
    cbn [fst snd Resilience.circuit_breakers].
  - rewrite Hl. split; [reflexivity|]. split; [reflexivity|discriminate].
  - rewrite lookup_assign_same. split; [reflexivity|]. split; reflexivity.
Qed.

(* ================================================================== *)
(** ** Embedding: preprocessing, single texts and streams *)
(* ================================================================== *)

Lemma join_cons_length (sep p : Py.str) (rest : list Py.str) :
  (length (Py.join sep (p :: rest)) <= length p + length sep + length (Py.join sep rest))%nat.
Proof.
  destruct rest as [|q rest]; cbn [Py.join].
  - lia.
  - rewrite !length_app. lia.
Qed.

(** Joining the words of a string with single spaces never makes it
    longer. *)
Lemma join_split_aux_length :
  forall (s cur : Py.str),
    (length (Py.join (Py.of_string " ") (Py.split_aux cur s)) <= length cur + length s)%nat.
Proof.
  induction s as [|c s IH]; intros cur; cbn [Py.split_aux].
  - destruct cur; cbn; [lia|]. rewrite length_app, length_rev. cbn. lia.
  - destruct (Py.isspace c).
    + destruct cur as [|x cur].
      * specialize (IH []). cbn [length] in *. lia.
      * pose proof (join_cons_length (Py.of_string " ") (rev (x :: cur))
                      (Py.split_aux [] s)) as H.
        specialize (IH []). rewrite length_rev in H. cbn [length] in *.
        change (length (Py.of_string " ")) with 1%nat in H.
        eapply Nat.le_trans; [exact H|]. lia.
    + specialize (IH (c :: cur)). cbn [length] in *. lia.
Qed.

Lemma slice_to_length (s : Py.str) (b : Z) :
  0 <= b -> Py.len (Py.slice_to s b) <= b.
Proof.
  intros Hb. unfold Py.slice_to, Py.norm_index, Py.len.
  destruct (b <? 0) eqn:E; [apply Z.ltb_lt in E; lia|].
  rewrite length_firstn. lia.
Qed.

(** X15.  With a non-negative [max_seq_length], the preprocessed text is
    never longer than [4 * max_seq_length] characters, and never longer than
    the text itself. *)
Theorem X15_preprocessed_text_is_bounded :
  forall (self : Embedding.EmbeddingService) (text : Py.str),
    0 <= Embedding.max_seq_length self ->
    Py.len (Embedding._preprocess_text self text) <= 4 * Embedding.max_seq_length self /\
    Py.len (Embedding._preprocess_text self text) <= Py.len text.
Proof.
  intros self text Hm. unfold Embedding._preprocess_text.
  destruct (negb (Py.truthy text));
    [unfold Py.len; cbn [length]; split; lia|].
  set (processed := if Py.len (Py.strip text) >? Embedding.max_seq_length self * 4
                    then Py.slice_to (Py.strip text) (Embedding.max_seq_length self * 4)
                    else Py.strip text).
  assert (Hp : Py.len processed <= 4 * Embedding.max_seq_length self /\
               Py.len processed <= Py.len text).
  { unfold processed. pose proof (strip_length text) as Hs.
    destruct (Py.len (Py.strip text) >? Embedding.max_seq_length self * 4) eqn:E.
    - pose proof (slice_to_length (Py.strip text) (Embedding.max_seq_length self * 4)
                    ltac:(lia)) as H.
      rewrite Z.gtb_ltb in E. apply Z.ltb_lt in E. lia.
    - rewrite Z.gtb_ltb in E. apply Z.ltb_ge in E. lia. }
  pose proof (join_split_aux_length processed []) as Hj.
  unfold Py.split, Py.len in *. cbn [length] in Hj. lia.
Qed.

(** X15 at the default [max_seq_length] of 512. *)
Lemma X15_preprocessed_text_witness :
  Py.len (Embedding._preprocess_text Embedding.new_EmbeddingService
            (Py.of_string "  two   words ")) <= 2048.
Proof.
  exact (proj1 (X15_preprocessed_text_is_bounded Embedding.new_EmbeddingService
                  (Py.of_string "  two   words ") ltac:(cbn; lia))).
Defined.

Section StreamFacts.
Import Py Embedding.

Variables W Vec : Type.
Variable virtual_memory : W -> option svmem * W.
Variable gc_collect : W -> W.
Variable embed : str -> Vec.
Variable self : EmbeddingService.

Lemma stream_loop_batches (texts : list str) (batch_size : Z) :
  0 < batch_size ->
  forall n i w,
    0 <= i ->
    exists batches w',
      stream_loop W Vec virtual_memory gc_collect embed self texts batch_size n i w
        = ((batches, None), w') /\
      length batches = n /\
      Forall (fun b => Z.of_nat (length b) <= batch_size) batches /\
      concat batches
        = map embed (firstn (Z.to_nat (Z.of_nat n * batch_size)) (skipn (Z.to_nat i) texts)).
Proof.
  intros Hb. induction n as [|n IH]; intros i w Hi.
  - exists [], w. cbn. repeat split. constructor.
  - cbn [stream_loop].
    pose proof (check_memory_usage_returns W virtual_memory gc_collect self w) as Hc.
    destruct (_check_memory_usage W virtual_memory gc_collect self w) as [[e|u] w1];
      cbn in Hc; [discriminate|].
    destruct (IH (i + batch_size) w1 ltac:(lia)) as (rest & w2 & Hl & Hn & Hf & Hcat).
    rewrite Hl. eexists. eexists. split; [reflexivity|].
    split; [cbn; now rewrite Hn|]. split.
    + constructor; [|exact Hf]. rewrite length_map, length_firstn. lia.
    + cbn [concat]. rewrite Hcat, <- map_app. f_equal.
      replace (Z.to_nat (Z.of_nat (S n) * batch_size))
        with (Z.to_nat batch_size + Z.to_nat (Z.of_nat n * batch_size))%nat by nia.
      rewrite firstn_add, skipn_skipn. do 3 f_equal. lia.
Qed.

End StreamFacts.

(** X16.  [get_embeddings_batch] on a single text agrees with
    [get_embedding]: when the single call returns a vector, the batch call
    (with a positive batch size, given or chosen) returns the list of just
    that vector, and when the single call rejects the text as empty after
    preprocessing, so does the batch call. *)
Theorem X16_batch_of_one_agrees_with_single :
  forall (W Vec : Type) (virtual_memory : W -> option Embedding.svmem * W)
         (gc_collect : W -> W) (embed : Py.str -> Vec)
         (self : Embedding.EmbeddingService) (text : Py.str)
         (batch_size : option Z) (w : W),
    0 < Embedding._batch_size self ->
    (forall b, batch_size = Some b -> 0 < b) ->
    fst (Embedding.get_embeddings_batch W Vec virtual_memory gc_collect embed
           self [text] batch_size w)
    = match Embedding.get_embedding Vec embed self text with
      | inr v => inr [v]
      | inl _ => inl (Embedding.EmbeddingServiceError "No valid texts after preprocessing")
      end.
Proof.
  intros W Vec vm gc embed self text bs w Hdef Hbs.
  unfold Embedding.get_embeddings_batch, Embedding.get_embedding.
  assert (Hpos : exists b w1,
    match bs with
    | Some b => (b, w)
    | None => Embedding._get_optimal_batch_size W vm self (Z.of_nat (length [text])) w
    end = (b, w1) /\ 0 < b).
  { destruct bs as [b|].
    - exists b, w. split; [reflexivity|]. now apply Hbs.
    - pose proof (optimal_batch_size_positive W vm self (Z.of_nat (length [text])) w) as Hp.
      destruct (Embedding._get_optimal_batch_size W vm self (Z.of_nat (length [text])) w)
        as [b w1].
      exists b, w1. split; [reflexivity|]. apply Hp; [cbn; lia|assumption]. }
  destruct Hpos as (b & w1 & -> & Hb).
  cbn [map filter].
  destruct (Py.truthy (Py.strip (Embedding._preprocess_text self text))); cbn [negb];
    [|reflexivity].
  pose proof (check_memory_usage_returns W vm gc self w1) as Hc.
  destruct (Embedding._check_memory_usage W vm gc self w1) as [[e|u] w2];
    cbn in Hc; [discriminate|].
  pose proof (generate_embeddings_optimized_map W Vec vm gc embed self
                [Embedding._preprocess_text self text] b w2 Hb) as Hg.
  destruct (Embedding._generate_embeddings_optimized W Vec vm gc embed self
              [Embedding._preprocess_text self text] b w2) as [[e|embs] w3];
    cbn in Hg; [discriminate|].
  injection Hg as ->. reflexivity.
Qed.

(** X16 at one text and the service's own choice of batch size. *)
Lemma X16_batch_of_one_witness :
  fst (Examples.process_get_embeddings_batch Embedding.new_EmbeddingService
         [Py.of_string " a  b "] None Examples.roomy)
  = inr [Py.of_string "a b"].
Proof.
  refine (X16_batch_of_one_agrees_with_single Examples.process Py.str
            Examples.process_virtual_memory Examples.process_gc_collect Examples.embed_id
            Embedding.new_EmbeddingService (Py.of_string " a  b ") None Examples.roomy _ _).
  - reflexivity.
  - intros b Hb. discriminate Hb.
Defined.

(** X17.  A stream consumed to its end, for a non-empty list of texts of
    which at least one is not blank and a positive batch size, yields batches
    of at most [batch_size] vectors each whose concatenation is the vectors of
    the non-blank preprocessed texts, in order; no exception ends it, whatever
    the memory readings.  With a negative batch size it yields nothing and
    raises nothing. *)
Theorem X17_stream_yields_every_vector :
  forall (W Vec : Type) (virtual_memory : W -> option Embedding.svmem * W)
         (gc_collect : W -> W) (embed : Py.str -> Vec)
         (self : Embedding.EmbeddingService) (texts : list Py.str) (b : Z) (w : W),
    let valid := filter (fun t => Py.truthy (Py.strip t))
                        (map (Embedding._preprocess_text self) texts) in
    valid <> [] ->
    (0 < b ->
     exists batches,
       fst (Embedding.get_embeddings_streaming W Vec virtual_memory gc_collect embed
              self texts (Some b) w) = (batches, None) /\
       Forall (fun batch => Z.of_nat (length batch) <= b) batches /\
       concat batches = map embed valid) /\
    (b < 0 ->
     fst (Embedding.get_embeddings_streaming W Vec virtual_memory gc_collect embed
            self texts (Some b) w) = ([], None)).
Proof.
  intros W Vec vm gc embed self texts b w valid Hne.
  unfold Embedding.get_embeddings_streaming.
  destruct texts as [|t0 texts']; [exfalso; apply Hne; reflexivity|].
  fold valid. destruct valid as [|v0 valid'] eqn:Hv; [congruence|]. split.
  - intros Hb.
    assert (E0 : (b =? 0) = false) by (apply Z.eqb_neq; lia).
    assert (E1 : (b <? 0) = false) by (apply Z.ltb_ge; lia).
    rewrite E0, E1.
    destruct (stream_loop_batches W Vec vm gc embed self (v0 :: valid') b Hb
                (Embedding.range_len (Z.of_nat (length (v0 :: valid'))) b) 0 w
                ltac:(lia)) as (batches & w' & Hl & _ & Hf & Hcat).
    rewrite Hl. exists batches. split; [reflexivity|]. split; [exact Hf|].
    rewrite Hcat. f_equal. cbn [Z.to_nat skipn]. apply firstn_all2.
    unfold Embedding.range_len.
    set (n := Z.of_nat (length (v0 :: valid'))).
    pose proof (Z.div_mod (n + b - 1) b ltac:(lia)).
    pose proof (Z.mod_pos_bound (n + b - 1) b Hb).
    assert (0 <= (n + b - 1) / b) by (apply Z.div_pos; unfold n; lia).
    unfold n in *. nia.
  - intros Hb.
    assert (E0 : (b =? 0) = false) by (apply Z.eqb_neq; lia).
    assert (E1 : (b <? 0) = true) by (apply Z.ltb_lt; lia).
    rewrite E0, E1. reflexivity.
Qed.

(** X17 at five texts, two per batch. *)
Lemma X17_stream_witness :
  exists batches,
    fst (Embedding.get_embeddings_streaming Examples.process Py.str
           Examples.process_virtual_memory Examples.process_gc_collect Examples.embed_id
           Embedding.new_EmbeddingService Examples.five_texts (Some 2) Examples.exhausted)
      = (batches, None) /\
    concat batches = Examples.five_texts.
Proof.
  destruct (X17_stream_yields_every_vector Examples.process Py.str
              Examples.process_virtual_memory Examples.process_gc_collect Examples.embed_id
              Embedding.new_EmbeddingService Examples.five_texts 2 Examples.exhausted
              ltac:(vm_compute; discriminate)) as [H _].
  destruct (H ltac:(lia)) as (batches & H1 & _ & H2).
  exists batches. split; [exact H1|exact H2].
Defined.

(* ================================================================== *)
(** ** Rate limiter: bucket bounds, clients, zero rate, clean-up *)
(* ================================================================== *)

Lemma lookup_assign_other {V : Type} (k k' : Py.str) (v : V) (d : Dict.t V) :
  k <> k' -> Dict.lookup k' (Dict.assign k v d) = Dict.lookup k' d.
Proof.
  intros Hne. induction d as [|[k0 v0] d IH]; cbn.
  - destruct (Py.str_eqb k' k) eqn:E; [apply str_eqb_eq in E; congruence|reflexivity].
  - destruct (Py.str_eqb k k0) eqn:E; cbn.
    + apply str_eqb_eq in E. subst k0.
      destruct (Py.str_eqb k' k) eqn:E'; [apply str_eqb_eq in E'; congruence|reflexivity].
    + destruct (Py.str_eqb k' k0); [reflexivity|exact IH].
Qed.

Section BucketFacts.
Import Py RateLimit.
Local Open Scope Q_scope.

(** One request leaves the buckets of all other clients as they were. *)
Lemma is_allowed_other_client (self : RateLimiter) (a b : str) (t : Q) :
  a <> b ->
  Dict.lookup b (buckets (snd (is_allowed self a t))) = Dict.lookup b (buckets self).
Proof.
  intros Hne. unfold is_allowed.
  set (bs0 := if Dict.mem a (buckets self) then buckets self
              else Dict.assign a (mkBucket (inject_Z (burst_size self)) t) (buckets self)).
  assert (H0 : Dict.lookup b bs0 = Dict.lookup b (buckets self)).
  { unfold bs0. destruct (Dict.mem a (buckets self)); [reflexivity|].
    now apply lookup_assign_other. }
  destruct (Dict.lookup a bs0) as [bk|]; [|exact H0].
  destruct (Qle_bool 1 (tokens (refill self bk t)));
    destruct (Qeq_bool (tokens_per_second self) 0); cbn [snd buckets with_buckets];
    rewrite lookup_assign_other by exact Hne; exact H0.
Qed.

(** One request keeps the configuration. *)
Lemma is_allowed_config (self : RateLimiter) (a : str) (t : Q) :
  burst_size (snd (is_allowed self a t)) = burst_size self /\
  tokens_per_second (snd (is_allowed self a t)) = tokens_per_second self.
Proof.
  unfold is_allowed.
  destruct (Dict.lookup a _) as [bk|]; [|split; reflexivity].
  destruct (Qle_bool 1 _); destruct (Qeq_bool _ 0); split; reflexivity.
Qed.

(** The bucket of the requesting client afterwards, at any rate. *)
Lemma is_allowed_own_bucket (self : RateLimiter) (a : str) (t : Q) :
  let b0 := match Dict.lookup a (buckets self) with
            | Some b => b
            | None => mkBucket (inject_Z (burst_size self)) t
            end in
  let b1 := refill self b0 t in
  Dict.lookup a (buckets (snd (is_allowed self a t)))
  = Some (if Qle_bool 1 (tokens b1)
          then mkBucket (tokens b1 - 1) (last_refill b1) else b1).
Proof.
  intros b0 b1. unfold is_allowed, Dict.mem.
  destruct (Dict.lookup a (buckets self)) as [b|] eqn:Hl.
  - rewrite Hl. subst b0. fold b1.
    destruct (Qle_bool 1 (tokens b1)); destruct (Qeq_bool _ 0); cbn;
      apply lookup_assign_same.
  - rewrite lookup_assign_same. fold b0. fold b1.
    destruct (Qle_bool 1 (tokens b1)); destruct (Qeq_bool _ 0); cbn;
      apply lookup_assign_same.
Qed.

Lemma is_allowed_keeps_bounds (self : RateLimiter) (a : str) (t t' : Q) :
  (0 <= burst_size self)%Z ->
  0 <= tokens_per_second self ->
  t <= t' ->
  (forall k b, Dict.lookup k (buckets self) = Some b ->
               0 <= tokens b <= inject_Z (burst_size self) /\ last_refill b <= t) ->
  forall k b, Dict.lookup k (buckets (snd (is_allowed self a t'))) = Some b ->
              0 <= tokens b <= inject_Z (burst_size self) /\ last_refill b <= t'.
Proof.
  intros HB Hr Ht Hinv k b.
  assert (HBq : 0 <= inject_Z (burst_size self)).
  { change 0 with (inject_Z 0). rewrite <- Zle_Qle. exact HB. }
  destruct (list_eq_dec N.eq_dec a k) as [<-|Hne].
  - rewrite is_allowed_own_bucket.
    set (b0 := match Dict.lookup a (buckets self) with
               | Some b => b
               | None => mkBucket (inject_Z (burst_size self)) t'
               end).
    assert (H0 : 0 <= tokens b0 <= inject_Z (burst_size self) /\ last_refill b0 <= t').
    { unfold b0. destruct (Dict.lookup a (buckets self)) as [bk|] eqn:Hl.
      - destruct (Hinv a bk Hl) as [H1 H2]. split; [exact H1|lra].
      - cbn. split; [split; [exact HBq|apply Qle_refl]|apply Qle_refl]. }
    destruct H0 as [[H1 H2] H3].
    assert (Hre : 0 <= tokens (refill self b0 t') <= inject_Z (burst_size self)).
    { unfold refill. cbn [tokens].
      assert (Hadd : 0 <= (t' - last_refill b0) * tokens_per_second self)
        by (apply Qmult_le_0_compat; lra).
      destruct (Q.min_spec (inject_Z (burst_size self))
                  (tokens b0 + (t' - last_refill b0) * tokens_per_second self))
        as [[M1 M2]|[M1 M2]]; rewrite M2; split; lra. }
    destruct (Qle_bool 1 (tokens (refill self b0 t'))) eqn:Hg.
    + intros [= <-]. cbn [tokens last_refill refill]. apply Qle_bool_iff in Hg.
      unfold refill in Hg, Hre. cbn [tokens] in Hg, Hre.
      split; [split; lra|apply Qle_refl].
    + intros [= <-]. split; [exact Hre|]. cbn. apply Qle_refl.
  - rewrite is_allowed_other_client by exact Hne. intros Hl.
    destruct (Hinv k b Hl) as [H1 H2]. split; [exact H1|lra].
Qed.

Lemma serve_requests_keeps_bounds :
  forall (requests : list (str * Q)) (self : RateLimiter) (t : Q),
    (0 <= burst_size self)%Z ->
    0 <= tokens_per_second self ->
    monotone t (map snd requests) ->
    (forall k b, Dict.lookup k (buckets self) = Some b ->
                 0 <= tokens b <= inject_Z (burst_size self) /\ last_refill b <= t) ->
    forall k b, Dict.lookup k (buckets (snd (serve_requests self requests))) = Some b ->
                0 <= tokens b <= inject_Z (burst_size self).
Proof.
  induction requests as [|[c t'] requests IH]; intros self t HB Hr Hmono Hinv k b.
  - cbn. intros Hl. apply (Hinv k b Hl).
  - cbn [map snd monotone] in Hmono. destruct Hmono as [Ht Hmono]. cbn [serve_requests].
    pose proof (is_allowed_keeps_bounds self c t t' HB Hr Ht Hinv) as Hstep.
    destruct (is_allowed_config self c t') as [Hc1 Hc2].
    destruct (is_allowed self c t') as [[g i] self1]. cbn [snd] in *.
    specialize (IH self1 t' ltac:(rewrite Hc1; exact HB) ltac:(rewrite Hc2; exact Hr) Hmono).
    rewrite Hc1 in IH.
    destruct (serve_requests self1 requests) as [gs self2]. cbn [snd] in *.
    apply IH. exact Hstep.
Qed.

End BucketFacts.

(** X18.  A limiter built with non-negative [requests_per_minute] and
    [burst_size] keeps every bucket within bounds: after any requests of any
    clients, at clock readings that never go back, every bucket holds at
    least 0 and at most [burst_size] tokens. *)
Theorem X18_bucket_tokens_stay_within_bounds :
  forall (requests_per_minute burst_size : Z) (requests : list (Py.str * Q)) (t0 : Q)
         (k : Py.str) (b : RateLimit.bucket),
    0 <= requests_per_minute ->
    0 <= burst_size ->
    RateLimit.monotone t0 (map snd requests) ->
    Dict.lookup k (RateLimit.buckets
                     (snd (RateLimit.serve_requests
                             (RateLimit.new_RateLimiter requests_per_minute burst_size)
                             requests))) = Some b ->
    (0 <= RateLimit.tokens b <= inject_Z burst_size)%Q.
Proof.
  intros rpm burst requests t0 k b Hrpm Hb Hmono Hl.
  apply (serve_requests_keeps_bounds requests (RateLimit.new_RateLimiter rpm burst) t0
           Hb) with (k := k); [|exact Hmono| |exact Hl].
  - cbn [RateLimit.new_RateLimiter RateLimit.tokens_per_second].
    apply Qle_shift_div_l; [reflexivity|].
    rewrite Qmult_0_l. change 0%Q with (inject_Z 0). rewrite <- Zle_Qle. exact Hrpm.
  - cbn. intros k0 b0 H. discriminate H.
Qed.

(** X18 after three requests of one client, two at time 0 and one at time 1. *)
Lemma X18_bucket_tokens_witness :
  exists b,
    Dict.lookup Examples.client
      (RateLimit.buckets
         (snd (RateLimit.serve_requests (RateLimit.new_RateLimiter 60 10)
                 [(Examples.client, 0%Q); (Examples.client, 0%Q); (Examples.client, 1%Q)])))
      = Some b /\
    (0 <= RateLimit.tokens b <= inject_Z 10)%Q.
Proof.
  eexists. split; [vm_compute; reflexivity|].
  eapply (X18_bucket_tokens_stay_within_bounds 60 10
            [(Examples.client, 0%Q); (Examples.client, 0%Q); (Examples.client, 1%Q)]
            0%Q Examples.client).
  - lia.
  - lia.
  - cbn. repeat split; discriminate.
  - vm_compute. reflexivity.
Defined.

(** X19.  A limiter whose rate is zero ([requests_per_minute = 0]) lets
    every request through: building the answer divides by the rate, the
    division raises, and the [except] clause allows the request. *)
Theorem X19_zero_rate_allows_everything :
  forall (self : RateLimit.RateLimiter) (client_id : Py.str) (t : Q),
    (RateLimit.tokens_per_second self == 0)%Q ->
    fst (RateLimit.is_allowed self client_id t) = (true, RateLimit.Failed_open).
Proof.
  intros self c t Hz. unfold RateLimit.is_allowed.
  apply Qeq_bool_iff in Hz.
  destruct (Dict.lookup c _) as [bk|]; [|reflexivity].
  destruct (Qle_bool 1 _); rewrite Hz; reflexivity.
Qed.

(** X19 at [RateLimiter(requests_per_minute=0, burst_size=0)]. *)
Lemma X19_zero_rate_witness :
  fst (RateLimit.is_allowed (RateLimit.new_RateLimiter 0 0) Examples.client 5)
  = (true, RateLimit.Failed_open).
Proof.
  apply (X19_zero_rate_allows_everything (RateLimit.new_RateLimiter 0 0) Examples.client 5%Q).
  reflexivity.
Defined.

(** X20.  Clients do not share tokens: a request of one client leaves the
    bucket of every other client exactly as it was. *)
Theorem X20_clients_have_separate_buckets :
  forall (self : RateLimit.RateLimiter) (a b : Py.str) (t : Q),
    a <> b ->
    Dict.lookup b (RateLimit.buckets (snd (RateLimit.is_allowed self a t)))
    = Dict.lookup b (RateLimit.buckets self).
Proof. exact is_allowed_other_client. Qed.

(** X20 at two clients. *)
Lemma X20_separate_buckets_witness :
  Dict.lookup (Py.of_string "client-2")
    (RateLimit.buckets (snd (RateLimit.is_allowed Examples.limiter_60_10 Examples.client 0)))
  = None.
Proof.
  apply (X20_clients_have_separate_buckets Examples.limiter_60_10 Examples.client
           (Py.of_string "client-2") 0%Q).
  discriminate.
Defined.

Lemma str_eqb_sym (a b : Py.str) : Py.str_eqb a b = Py.str_eqb b a.
Proof.
  unfold Py.str_eqb.
  destruct (list_eq_dec N.eq_dec a b), (list_eq_dec N.eq_dec b a); congruence.
Qed.

Lemma filter_filter {A : Type} (p q : A -> bool) (l : list A) :
  filter p (filter q l) = filter (fun x => q x && p x) l.
Proof.
  induction l as [|x l IH]; cbn; [reflexivity|].
  destruct (q x); cbn; [destruct (p x)|]; now rewrite IH.
Qed.

(** Deleting a list of keys one after the other keeps the entries whose key
    is not in the list. *)
Lemma fold_remove_filter {V : Type} (ks : list Py.str) (d : Dict.t V) :
  fold_left (fun d k => Dict.remove k d) ks d
  = filter (fun kv => negb (existsb (Py.str_eqb (fst kv)) ks)) d.
Proof.
  revert d. induction ks as [|k ks IH]; intros d; cbn [fold_left existsb].
  - induction d as [|kv d IHd]; [reflexivity|]. cbn in *. now f_equal.
  - rewrite IH. unfold Dict.remove. rewrite filter_filter.
    apply filter_ext. intros kv. rewrite negb_orb, (str_eqb_sym k). reflexivity.
Qed.

Lemma assign_keys {V : Type} (k : Py.str) (v : V) (d : Dict.t V) :
  map fst (Dict.assign k v d)
  = if Dict.mem k d then map fst d else map fst d ++ [k].
Proof.
  unfold Dict.mem. induction d as [|[k0 v0] d IH]; cbn; [reflexivity|].
  destruct (Py.str_eqb k k0) eqn:E; cbn; [reflexivity|].
  rewrite IH. destruct (Dict.lookup k d); reflexivity.
Qed.

Lemma lookup_none_not_in {V : Type} (k : Py.str) (d : Dict.t V) :
  Dict.lookup k d = None -> ~ In k (map fst d).
Proof.
  induction d as [|[k0 v0] d IH]; cbn; [tauto|].
  destruct (Py.str_eqb k k0) eqn:E; [discriminate|].
  intros H [H1|H1]; [|exact (IH H H1)].
  subst k0. rewrite str_eqb_refl in E. discriminate.
Qed.

Lemma assign_nodup {V : Type} (k : Py.str) (v : V) (d : Dict.t V) :
  NoDup (map fst d) -> NoDup (map fst (Dict.assign k v d)).
Proof.
  intros Hnd. rewrite assign_keys. unfold Dict.mem.
  destruct (Dict.lookup k d) eqn:Hl; [exact Hnd|].
  apply NoDup_app; [exact Hnd|constructor; [intros []|constructor]|].
  intros x Hx [<-|[]]. exact (lookup_none_not_in k d Hl Hx).
Qed.



Lemma nodup_keys_entry {V : Type} (d : Dict.t V) (kv kv' : Py.str * V) :
  NoDup (map fst d) -> In kv d -> In kv' d -> fst kv = fst kv' -> kv = kv'.
Proof.
  induction d as [|x d IH]; cbn; [tauto|].
  intros Hnd [H1|H1] [H2|H2] Hk.
  - congruence.
  - subst x. inversion Hnd as [|? ? Hni _]; subst. exfalso. apply Hni.
    rewrite Hk. now apply in_map.
  - subst x. inversion Hnd as [|? ? Hni _]; subst. exfalso. apply Hni.
    rewrite <- Hk. now apply in_map.
  - inversion Hnd; subst. now apply IH.
Qed.

(** With one entry per key, deleting the keys of the entries that satisfy
    [old] keeps exactly the entries that do not. *)
Lemma remove_selected_keys {V : Type} (old : Py.str * V -> bool) (d : Dict.t V) :
  NoDup (map fst d) ->
  fold_left (fun d k => Dict.remove k d) (map fst (filter old d)) d
  = filter (fun kv => negb (old kv)) d.
Proof.
  intros Hnd. rewrite fold_remove_filter. apply filter_ext_in. intros kv Hin. f_equal.
  destruct (old kv) eqn:Ho.
  - apply existsb_exists. exists (fst kv). split; [|apply str_eqb_refl].
    apply in_map. apply filter_In. auto.
  - destruct (existsb _ _) eqn:Hex; [|reflexivity].
    apply existsb_exists in Hex. destruct Hex as (k & Hk & He).
    apply str_eqb_eq in He. apply in_map_iff in Hk. destruct Hk as (kv' & Hf & Hin').
    apply filter_In in Hin'. destruct Hin' as [Hin' Hold].
    assert (kv = kv') by (apply (nodup_keys_entry d); congruence).
    subst kv'. congruence.
Qed.


(* ================================================================== *)
(** ** Cache: round trips, recency, deletion and clean-up *)
(* ================================================================== *)

Lemma not_in_lookup_none {V : Type} (k : Py.str) (d : Dict.t V) :
  ~ In k (map fst d) -> Dict.lookup k d = None.
Proof.
  induction d as [|[k0 v0] d IH]; cbn; [reflexivity|].
  intros H. destruct (Py.str_eqb k k0) eqn:E.
  - apply str_eqb_eq in E. subst. tauto.
  - apply IH. tauto.
Qed.

Lemma lookup_app_absent {V : Type} (k : Py.str) (d1 d2 : Dict.t V) :
  Dict.lookup k d1 = None -> Dict.lookup k (d1 ++ d2) = Dict.lookup k d2.
Proof.
  induction d1 as [|[k0 v0] d1 IH]; cbn; [reflexivity|].
  destruct (Py.str_eqb k k0); [discriminate|exact IH].
Qed.

Lemma lookup_app_present {V : Type} (k : Py.str) (d1 d2 : Dict.t V) (v : V) :
  Dict.lookup k d1 = Some v -> Dict.lookup k (d1 ++ d2) = Some v.
Proof.
  induction d1 as [|[k0 v0] d1 IH]; cbn; [discriminate|].
  destruct (Py.str_eqb k k0); [auto|exact IH].
Qed.

Lemma lookup_skipn_absent {V : Type} (k : Py.str) (j : nat) (d : Dict.t V) :
  Dict.lookup k d = None -> Dict.lookup k (skipn j d) = None.
Proof.
  intros H. apply not_in_lookup_none. intros Hin.
  apply (lookup_none_not_in k d H).
  rewrite <- (firstn_skipn j d), map_app. apply in_or_app. now right.
Qed.

Lemma assign_absent {V : Type} (k : Py.str) (v : V) (d : Dict.t V) :
  Dict.lookup k d = None -> Dict.assign k v d = d ++ [(k, v)].
Proof.
  induction d as [|[k0 v0] d IH]; cbn; [reflexivity|].
  destruct (Py.str_eqb k k0); [discriminate|]. intros H. now rewrite IH.
Qed.

Lemma remove_absent {V : Type} (k : Py.str) (d : Dict.t V) :
  Dict.lookup k d = None -> Dict.remove k d = d.
Proof.
  induction d as [|[k0 v0] d IH]; cbn; [reflexivity|].
  destruct (Py.str_eqb k k0); [discriminate|]. cbn. intros H. f_equal. exact (IH H).
Qed.

Lemma lookup_remove_other {V : Type} (k k' : Py.str) (d : Dict.t V) :
  k <> k' -> Dict.lookup k' (Dict.remove k d) = Dict.lookup k' d.
Proof.
  intros Hne. induction d as [|[k0 v0] d IH]; cbn; [reflexivity|].
  destruct (Py.str_eqb k k0) eqn:E; cbn.
  - apply str_eqb_eq in E. subst k0.
    destruct (Py.str_eqb k' k) eqn:E'; [apply str_eqb_eq in E'; congruence|exact IH].
  - destruct (Py.str_eqb k' k0); [reflexivity|exact IH].
Qed.

Section CacheSetFacts.
Import Py Cache.

Variable A : Type.

(** What [set] stores before it evicts: the cache without the key, and the
    new item at the end. *)
Lemma insert_at_end (d : Dict.t (item A)) (key : str) (it : item A) :
  Dict.assign key it (if Dict.mem key d then Dict.remove key d else d)
  = Dict.remove key d ++ [(key, it)].
Proof.
  unfold Dict.mem. destruct (Dict.lookup key d) eqn:Hl.
  - apply assign_absent. apply lookup_remove_same.
  - rewrite (remove_absent key d Hl). now apply assign_absent.
Qed.

(** The eviction loop drops entries from the front and, with a capacity of
    at least 1, never the last one. *)
Lemma evict_while_front :
  forall (fuel : nat) (self self' : CacheService A),
    1 <= max_size self ->
    evict_while fuel self = Some self' ->
    exists j,
      _cache self' = skipn j (_cache self) /\
      (j < length (_cache self) \/ _cache self = [])%nat /\
      (entries self <= max_size self -> j = 0%nat).
Proof.
  induction fuel as [|fuel IH]; intros self self' Hm; cbn [evict_while]; [discriminate|].
  destruct (entries self >? max_size self) eqn:Hgt.
  - rewrite Z.gtb_ltb in Hgt. apply Z.ltb_lt in Hgt. unfold entries in Hgt.
    intros H. destruct (_cache self) as [|kv rest] eqn:Hc; [cbn in Hgt; lia|].
    assert (He : _evict_oldest self
                 = with_cache self rest
                     (mkStats (hits (_stats self)) (misses (_stats self))
                              (evictions (_stats self) + 1) (size (_stats self))))
      by (unfold _evict_oldest; rewrite Hc; reflexivity).
    rewrite He in H. apply IH in H; [|exact Hm].
    destruct H as (j & H1 & H2 & _). cbn [_cache with_cache] in H1, H2.
    exists (S j). cbn [skipn length]. split; [exact H1|]. split.
    + left. destruct H2 as [H2|H2]; [cbn [length]; lia|].
      rewrite H2 in Hgt. cbn [length] in Hgt. exfalso. clear - Hm Hgt. lia.
    + unfold entries. rewrite Hc. intros Hle. exfalso. clear - Hle Hgt. lia.
  - intros [= <-]. exists 0%nat. cbn [skipn]. split; [reflexivity|].
    split; [|reflexivity]. destruct (_cache self); [right; reflexivity|left; cbn; lia].
Qed.

Lemma set_stores_the_item (self : CacheService A) (key : str) (v : option A)
    (ttl : option Z) (m : option Q) (now : Q) :
  1 <= max_size self ->
  exists self' j,
    set self key v ttl m now = Some (true, self') /\
    _cache self'
    = skipn j (Dict.remove key (_cache (_check_memory_usage self m)))
      ++ [(key, mkItem v (now + inject_Z (match ttl with
                                          | Some t => t
                                          | None => default_ttl self
                                          end))%Q now)] /\
    (entries (_check_memory_usage self m) < max_size self -> j = 0%nat) /\
    max_size self' = max_size self.
Proof.
  intros Hm.
  destruct (set_bound A self key v ttl m now ltac:(lia)) as (self' & Hset & _ & Hms).
  exists self'. unfold set, set_fuel in *.
  destruct (check_memory_usage_length A self m) as (Hlen & Hms1 & Httl).
  set (self1 := _check_memory_usage self m) in *.
  rewrite Httl in *.
  set (it := mkItem v _ now) in *.
  rewrite insert_at_end in *.
  destruct (evict_while (S (S (length (_cache self)))) _) as [self2|] eqn:Hev;
    [|discriminate].
  injection Hset as <-.
  apply evict_while_front in Hev; [|cbn; lia].
  destruct Hev as (j & H1 & H2 & H3). cbn [_cache with_cache] in H1, H2, H3.
  assert (Hj : (j <= length (Dict.remove key (_cache self1)))%nat).
  { destruct H2 as [H2|H2]; [rewrite length_app in H2; cbn in H2; lia|].
    destruct (Dict.remove key (_cache self1)); discriminate. }
  exists j. split; [reflexivity|]. cbn [_cache with_cache]. split.
  - rewrite H1, skipn_app.
    replace (j - length (Dict.remove key (_cache self1)))%nat with 0%nat by lia.
    reflexivity.
  - split; [|exact Hms]. intros Hlt. apply H3. unfold entries in *.
    cbn [_cache with_cache max_size]. rewrite length_app. cbn [length].
    pose proof (remove_length key (_cache self1)). lia.
Qed.

Lemma lookup_after_set (self : CacheService A) (key : str) (v : option A)
    (ttl : option Z) (m : option Q) (now : Q) :
  1 <= max_size self ->
  exists self',
    set self key v ttl m now = Some (true, self') /\
    Dict.lookup key (_cache self')
    = Some (mkItem v (now + inject_Z (match ttl with
                                      | Some t => t
                                      | None => default_ttl self
                                      end))%Q now).
Proof.
  intros Hm.
  destruct (set_stores_the_item self key v ttl m now Hm) as (self' & j & H1 & H2 & _).
  exists self'. split; [exact H1|]. rewrite H2.
  rewrite lookup_app_absent by (apply lookup_skipn_absent, lookup_remove_same).
  cbn. now rewrite str_eqb_refl.
Qed.

End CacheSetFacts.



Section CacheEvictionFacts.
Import Py Cache.

Variable A : Type.

Lemma evict_oldest_cache (self : CacheService A) :
  _cache (_evict_oldest self) = skipn 1 (_cache self) /\
  max_size (_evict_oldest self) = max_size self.
Proof.
  unfold _evict_oldest. destruct (_cache self) eqn:Hc; cbn; [rewrite Hc|]; auto.
Qed.

Lemma evict_times_cache (n : nat) (self : CacheService A) :
  _cache (evict_times n self) = skipn n (_cache self).
Proof.
  revert self. induction n as [|n IH]; intros self; cbn [evict_times]; [reflexivity|].
  rewrite IH. destruct (evict_oldest_cache self) as [-> _].
  rewrite skipn_skipn. f_equal. lia.
Qed.

(** The eviction loop drops exactly the entries above the capacity, oldest
    first. *)
Lemma evict_while_exact :
  forall (fuel : nat) (self : CacheService A),
    0 <= max_size self ->
    (length (_cache self) < fuel)%nat ->
    exists self',
      evict_while fuel self = Some self' /\
      _cache self' = skipn (Z.to_nat (entries self - max_size self)) (_cache self).
Proof.
  induction fuel as [|fuel IH]; intros self Hm Hf; [lia|].
  cbn [evict_while]. destruct (entries self >? max_size self) eqn:Hgt.
  - rewrite Z.gtb_ltb in Hgt. apply Z.ltb_lt in Hgt.
    destruct (evict_oldest_cache self) as [Hc Hms].
    assert (Hlen : length (_cache (_evict_oldest self)) = (length (_cache self) - 1)%nat)
      by (rewrite Hc, length_skipn; reflexivity).
    assert (Hpos : (0 < length (_cache self))%nat) by (unfold entries in Hgt; lia).
    destruct (IH (_evict_oldest self) ltac:(lia) ltac:(lia)) as (self' & H1 & H2).
    exists self'. split; [exact H1|]. rewrite H2, Hc, skipn_skipn. f_equal.
    unfold entries in *. rewrite Hlen, Hms. lia.
  - rewrite Z.gtb_ltb in Hgt. apply Z.ltb_ge in Hgt.
    exists self. split; [reflexivity|].
    replace (Z.to_nat (entries self - max_size self)) with 0%nat by lia. reflexivity.
Qed.

Lemma check_memory_usage_low (self : CacheService A) (m : option Q) :
  (forall p, m = Some p -> (p / 100 <= _memory_threshold A self)%Q) ->
  _check_memory_usage self m = self.
Proof.
  intros Hlow. unfold _check_memory_usage. destruct m as [p|]; [|reflexivity].
  specialize (Hlow p eq_refl). unfold Cache.Qlt_bool.
  apply Qle_bool_iff in Hlow. now rewrite Hlow.
Qed.

Lemma check_memory_usage_high (self : CacheService A) (p : Q) :
  (_memory_threshold A self < p / 100)%Q ->
  _cache (_check_memory_usage self (Some p))
  = skipn (Z.to_nat (Z.max 1 (entries self / 4))) (_cache self).
Proof.
  intros Hhigh. unfold _check_memory_usage, Cache.Qlt_bool.
  rewrite (Qlt_not_le_bool _ _ Hhigh). cbn [negb]. apply evict_times_cache.
Qed.

(** What [set] leaves in the cache: the entries that survive the memory
    check, without the key, then the new item, less the oldest entries above
    the capacity. *)
Lemma set_cache (self : CacheService A) (key : str) (v : option A)
    (ttl : option Z) (m : option Q) (now : Q) :
  0 <= max_size self ->
  let it := mkItem v (now + inject_Z (match ttl with
                                      | Some t => t
                                      | None => default_ttl self
                                      end))%Q now in
  let c := Dict.remove key (_cache (_check_memory_usage self m)) ++ [(key, it)] in
  exists self',
    set self key v ttl m now = Some (true, self') /\
    _cache self' = skipn (Z.to_nat (Z.of_nat (length c) - max_size self)) c.
Proof.
  intros Hm it c. unfold set, set_fuel.
  destruct (check_memory_usage_length A self m) as (Hlen & Hms1 & Httl).
  set (self1 := _check_memory_usage self m) in *.
  rewrite Httl. fold it. rewrite insert_at_end. fold c.
  assert (Hc : (length c <= S (length (_cache self)))%nat).
  { unfold c. rewrite length_app. cbn [length].
    pose proof (remove_length key (_cache self1)). lia. }
  destruct (evict_while_exact (S (S (length (_cache self))))
              (with_cache self1 c (_stats self1)) ltac:(cbn; lia) ltac:(cbn; lia))
    as (self2 & H1 & H2).
  rewrite H1. eexists. split; [reflexivity|]. cbn [_cache with_cache].
  rewrite H2. unfold entries. cbn [_cache with_cache max_size]. now rewrite Hms1.
Qed.

End CacheEvictionFacts.

(** X23.  Eviction is oldest first.  When memory is not above the threshold,
    [set] (with a capacity [max_size >= 0]) moves the key to the end of the
    cache with its new item and then drops from the front exactly as many
    entries as exceed [max_size]: a new key put into a full cache evicts the
    oldest entry and nothing else. *)
Theorem X23_set_evicts_the_oldest_entries :
  forall (A : Type) (self : Cache.CacheService A) (key : Py.str) (v : option A)
         (ttl : option Z) (memory_percent : option Q) (now : Q),
    0 <= Cache.max_size self ->
    (forall p, memory_percent = Some p -> (p / 100 <= Cache._memory_threshold A self)%Q) ->
    let it := Cache.mkItem v (now + inject_Z (match ttl with
                                              | Some t => t
                                              | None => Cache.default_ttl self
                                              end))%Q now in
    let c := Dict.remove key (Cache._cache self) ++ [(key, it)] in
    exists self',
      Cache.set self key v ttl memory_percent now = Some (true, self') /\
      Cache._cache self'
      = skipn (Z.to_nat (Z.of_nat (length c) - Cache.max_size self)) c /\
      (Dict.lookup key (Cache._cache self) = None ->
       Cache.entries self = Cache.max_size self ->
       1 <= Cache.max_size self ->
       Cache._cache self' = tl (Cache._cache self) ++ [(key, it)]).
Proof.
  intros A self key v ttl m now Hm Hlow it c.
  destruct (set_cache A self key v ttl m now Hm) as (self' & H1 & H2).
  rewrite (check_memory_usage_low A self m Hlow) in H2. fold it in H2. fold c in H2.
  exists self'. split; [exact H1|]. split; [exact H2|].
  intros Hl Hfull Hone. rewrite H2. unfold c.
  rewrite (remove_absent key _ Hl), length_app. cbn [length].
  unfold Cache.entries in Hfull.
  replace (Z.to_nat (Z.of_nat (length (Cache._cache self) + 1) - Cache.max_size self))
    with 1%nat by lia.
  destruct (Cache._cache self) as [|kv rest]; [cbn in Hfull; lia|]. reflexivity.
Qed.

(** X23 at a cache of capacity 1 that holds one entry: the new key replaces
    it. *)
Lemma X23_set_evicts_witness :
  exists self',
    Cache.set (Cache.mkCacheService Datatypes.nat 1 3600
                 [(Examples.key1, Cache.mkItem (Some 7%nat) 100 0)] (8 # 10)
                 (Cache.mkStats 0 0 0 1))
              (Py.of_string "k2") (Some 8%nat) (Some 60) None 0
      = Some (true, self') /\
    map fst (Cache._cache self') = [Py.of_string "k2"].
Proof.
  destruct (X23_set_evicts_the_oldest_entries Datatypes.nat
              (Cache.mkCacheService Datatypes.nat 1 3600
                 [(Examples.key1, Cache.mkItem (Some 7%nat) 100 0)] (8 # 10)
                 (Cache.mkStats 0 0 0 1))
              (Py.of_string "k2") (Some 8%nat) (Some 60) None 0%Q
              ltac:(cbn; lia) ltac:(intros p Hp; discriminate Hp))
    as (self' & H1 & _ & H3).
  exists self'. split; [exact H1|].
  rewrite (H3 eq_refl eq_refl ltac:(cbn; lia)). reflexivity.
Defined.

(** X24.  Under memory pressure (utilisation above the threshold), [set]
    first evicts the oldest [max(1, n // 4)] of the [n] entries, full or not,
    and only then stores the item and applies the capacity. *)
Theorem X24_memory_pressure_evicts_a_quarter :
  forall (A : Type) (self : Cache.CacheService A) (key : Py.str) (v : option A)
         (ttl : option Z) (p : Q) (now : Q),
    0 <= Cache.max_size self ->
    (Cache._memory_threshold A self < p / 100)%Q ->
    let it := Cache.mkItem v (now + inject_Z (match ttl with
                                              | Some t => t
                                              | None => Cache.default_ttl self
                                              end))%Q now in
    let kept := skipn (Z.to_nat (Z.max 1 (Cache.entries self / 4))) (Cache._cache self) in
    let c := Dict.remove key kept ++ [(key, it)] in
    exists self',
      Cache.set self key v ttl (Some p) now = Some (true, self') /\
      Cache._cache self'
      = skipn (Z.to_nat (Z.of_nat (length c) - Cache.max_size self)) c.
Proof.
  intros A self key v ttl p now Hm Hhigh it kept c.
  destruct (set_cache A self key v ttl (Some p) now Hm) as (self' & H1 & H2).
  rewrite (check_memory_usage_high A self p Hhigh) in H2.
  exists self'. split; [exact H1|exact H2].
Qed.

(** X24 at a cache of capacity 10 with one entry and memory at 95%: the
    entry is evicted although the cache is far from full. *)
Lemma X24_memory_pressure_witness :
  exists self',
    Cache.set Examples.cache_with_seven (Py.of_string "k2") (Some 8%nat) (Some 60)
              (Some 95%Q) 0 = Some (true, self') /\
    map fst (Cache._cache self') = [Py.of_string "k2"].
Proof.
  destruct (X24_memory_pressure_evicts_a_quarter Datatypes.nat Examples.cache_with_seven
              (Py.of_string "k2") (Some 8%nat) (Some 60) 95%Q 0%Q
              ltac:(cbn; lia) ltac:(reflexivity))
    as (self' & H1 & H2).
  exists self'. split; [exact H1|]. rewrite H2. reflexivity.
Defined.

(* ------------------------------------------------------------------ *)
(** *** One entry per key *)
(* ------------------------------------------------------------------ *)

Lemma filter_keys_nodup {V : Type} (p : Py.str * V -> bool) (d : Dict.t V) :
  NoDup (map fst d) -> NoDup (map fst (filter p d)).
Proof.
  induction d as [|kv d IH]; cbn; [auto|].
  intros Hnd. inversion Hnd as [|? ? Hni Hnd']; subst.
  destruct (p kv); cbn; [|auto]. constructor; [|auto].
  intros Hin. apply Hni. apply in_map_iff in Hin. destruct Hin as (x & Hx & Hin).
  apply filter_In in Hin. apply in_map_iff. exists x. tauto.
Qed.

Lemma skipn_keys_nodup {V : Type} (j : nat) (d : Dict.t V) :
  NoDup (map fst d) -> NoDup (map fst (skipn j d)).
Proof.
  intros Hnd. rewrite <- (firstn_skipn j d), map_app in Hnd.
  exact (NoDup_app_remove_l _ _ Hnd).
Qed.

Lemma move_to_end_nodup {V : Type} (k : Py.str) (d : Dict.t V) :
  NoDup (map fst d) -> NoDup (map fst (Dict.move_to_end k d)).
Proof.
  intros Hnd. unfold Dict.move_to_end. destruct (Dict.lookup k d) as [v|]; [|exact Hnd].
  rewrite <- (assign_absent k v) by apply lookup_remove_same.
  apply assign_nodup. now apply filter_keys_nodup.
Qed.

Lemma remove_present_one {V : Type} (k : Py.str) (d : Dict.t V) (v : V) :
  NoDup (map fst d) -> Dict.lookup k d = Some v ->
  S (length (Dict.remove k d)) = length d.
Proof.
  induction d as [|[k0 v0] d IH]; [discriminate|].
  cbn [map fst Dict.lookup Dict.remove filter]. intros Hnd Hl.
  inversion Hnd as [|? ? Hni Hnd']; subst.
  destruct (Py.str_eqb k k0) eqn:E; cbn [negb length].
  - apply str_eqb_eq in E. subst k0.
    change (filter _ d) with (Dict.remove k d).
    now rewrite (remove_absent k d (not_in_lookup_none k d Hni)).
  - f_equal. exact (IH Hnd' Hl).
Qed.

Section CacheKeys.
Import Py Cache.

Variable A : Type.

Definition one_entry_per_key (self : CacheService A) : Prop :=
  NoDup (map fst (_cache self)).

Lemma evict_oldest_keys (self : CacheService A) :
  one_entry_per_key self -> one_entry_per_key (_evict_oldest self).
Proof.
  unfold one_entry_per_key. destruct (evict_oldest_cache A self) as [-> _].
  apply skipn_keys_nodup.
Qed.

Lemma evict_times_keys (n : nat) (self : CacheService A) :
  one_entry_per_key self -> one_entry_per_key (evict_times n self).
Proof.
  unfold one_entry_per_key. rewrite evict_times_cache. apply skipn_keys_nodup.
Qed.

Lemma evict_while_keys :
  forall (fuel : nat) (self self' : CacheService A),
    evict_while fuel self = Some self' ->
    one_entry_per_key self -> one_entry_per_key self'.
Proof.
  induction fuel as [|fuel IH]; intros self self'; cbn [evict_while]; [discriminate|].
  destruct (entries self >? max_size self).
  - intros H Hnd. exact (IH _ _ H (evict_oldest_keys self Hnd)).
  - now intros [= <-].
Qed.

Lemma get_keys (self : CacheService A) (key : str) (now : Q) :
  one_entry_per_key self -> one_entry_per_key (snd (get self key now)).
Proof.
  unfold one_entry_per_key, get. intros Hnd.
  destruct (Dict.lookup key (_cache self)) as [it|]; [|exact Hnd].
  destruct (Cache.Qlt_bool (expires_at it) now); cbn [snd _cache with_cache].
  - now apply filter_keys_nodup.
  - now apply move_to_end_nodup.
Qed.

Lemma set_keys (self self' : CacheService A) (key : str) (v : option A)
    (ttl : option Z) (m : option Q) (now : Q) (b : bool) :
  set self key v ttl m now = Some (b, self') ->
  one_entry_per_key self -> one_entry_per_key self'.
Proof.
  unfold set, set_fuel. intros H Hnd.
  destruct (evict_while _ _) as [self2|] eqn:Hev; [|discriminate].
  injection H as _ <-. unfold one_entry_per_key. cbn [_cache with_cache].
  apply (evict_while_keys _ _ _ Hev). unfold one_entry_per_key. cbn [_cache with_cache].
  apply assign_nodup.
  assert (H1 : NoDup (map fst (_cache (_check_memory_usage self m)))).
  { unfold _check_memory_usage. destruct m as [p|]; [|exact Hnd].
    destruct (Cache.Qlt_bool _ _); [|exact Hnd]. now apply evict_times_keys. }
  destruct (Dict.mem key _); [now apply filter_keys_nodup|exact H1].
Qed.

Lemma cleanup_expired_cache (self : CacheService A) (now : Q) :
  one_entry_per_key self ->
  _cache (snd (cleanup_expired self now))
  = filter (fun kv => Qle_bool now (expires_at (snd kv))) (_cache self).
Proof.
  intros Hnd. unfold cleanup_expired. cbn [snd _cache with_cache].
  rewrite (remove_selected_keys _ _ Hnd). apply filter_ext. intros kv.
  unfold Cache.Qlt_bool. apply negb_involutive.
Qed.

Lemma apply_op_keys (self self' : CacheService A) (o : op A) :
  apply_op self o = Some self' ->
  one_entry_per_key self -> one_entry_per_key self'.
Proof.
  destruct o as [k now|k v ttl m now|k| |now]; cbn [apply_op].
  - intros [= <-]. apply get_keys.
  - destruct (set self k v ttl m now) as [[b s]|] eqn:Hs; [|discriminate].
    cbn. intros [= <-]. exact (set_keys _ _ _ _ _ _ _ _ Hs).
  - intros [= <-] Hnd. unfold delete. destruct (Dict.mem k (_cache self)); [|exact Hnd].
    unfold one_entry_per_key. cbn [snd _cache with_cache]. now apply filter_keys_nodup.
  - intros [= <-] _. constructor.
  - intros H Hnd.
    assert (Hs : self' = snd (cleanup_expired self now)) by congruence.
    rewrite Hs. unfold one_entry_per_key.
    rewrite (cleanup_expired_cache self now Hnd). now apply filter_keys_nodup.
Qed.

Lemma apply_ops_keys :
  forall (os : list (op A)) (self self' : CacheService A),
    apply_ops self os = Some self' ->
    one_entry_per_key self -> one_entry_per_key self'.
Proof.
  induction os as [|o os IH]; intros self self'; cbn [apply_ops].
  - now intros [= <-].
  - destruct (apply_op self o) as [s|] eqn:Ho; [|discriminate].
    intros H Hnd. exact (IH _ _ H (apply_op_keys _ _ _ Ho Hnd)).
Qed.

Lemma get_keeps_configuration (self : CacheService A) (key : str) (now : Q) :
  max_size (snd (get self key now)) = max_size self /\
  default_ttl (snd (get self key now)) = default_ttl self /\
  _memory_threshold A (snd (get self key now)) = _memory_threshold A self.
Proof.
  unfold get. destruct (Dict.lookup key (_cache self)) as [it|]; [|now cbn].
  destruct (Cache.Qlt_bool (expires_at it) now); now cbn.
Qed.

End CacheKeys.

(** X25.  On a cache reached from a new one by any calls of [get], [set],
    [delete], [clear] and [cleanup_expired], [cleanup_expired] keeps exactly
    the entries that have not expired ([now <= expires_at]), in their order,
    returns the number of entries it removed, and sets [size] to the number
    of entries left. *)
Theorem X25_cleanup_keeps_exactly_the_live_entries :
  forall (A : Type) (max_size default_ttl : Z) (ops : list (Cache.op A))
         (self : Cache.CacheService A) (now : Q),
    Cache.apply_ops (Cache.new_CacheService max_size default_ttl) ops = Some self ->
    let r := Cache.cleanup_expired self now in
    Cache._cache (snd r)
    = filter (fun kv => Qle_bool now (Cache.expires_at (snd kv))) (Cache._cache self) /\
    fst r = Cache.entries self - Cache.entries (snd r) /\
    Cache.size (Cache._stats (snd r)) = Cache.entries (snd r).
Proof.
  intros A ms ttl ops self now Hops r.
  assert (Hnd : one_entry_per_key A self).
  { apply (apply_ops_keys A ops _ _ Hops). constructor. }
  pose proof (cleanup_expired_cache A self now Hnd) as Hc. subst r.
  split; [exact Hc|]. split; [|reflexivity].
  unfold Cache.entries. rewrite Hc. unfold Cache.cleanup_expired. cbn [fst].
  rewrite length_map.
  pose proof (filter_length
                (fun kv : Py.str * Cache.item A =>
                   Cache.Qlt_bool (Cache.expires_at (snd kv)) now)
                (Cache._cache self)) as Hlen.
  cbv beta in Hlen.
  rewrite (filter_ext (fun kv : Py.str * Cache.item A =>
                         Qle_bool now (Cache.expires_at (snd kv)))
                      (fun kv => negb (Cache.Qlt_bool (Cache.expires_at (snd kv)) now))).
  - lia.
  - intros kv. unfold Cache.Qlt_bool. now rewrite negb_involutive.
Qed.

(** X25 after two [set]s at time 0, with lifetimes 10 and 100: a clean-up at
    time 50 removes the first entry and keeps the second. *)
Lemma X25_cleanup_witness :
  exists self,
    Cache.apply_ops (Cache.new_CacheService 10 3600)
      [Cache.OpSet Examples.key1 (Some 7%nat) (Some 10) None 0;
       Cache.OpSet (Py.of_string "k2") (Some 8%nat) (Some 100) None 0] = Some self /\
    fst (Cache.cleanup_expired self 50) = 1 /\
    map fst (Cache._cache (snd (Cache.cleanup_expired self 50))) = [Py.of_string "k2"].
Proof.
  eexists. split; [vm_compute; reflexivity|].
  match goal with
  | |- fst (Cache.cleanup_expired ?s _) = _ /\ _ =>
      destruct (X25_cleanup_keeps_exactly_the_live_entries Datatypes.nat 10 3600
                  [Cache.OpSet Examples.key1 (Some 7%nat) (Some 10) None 0;
                   Cache.OpSet (Py.of_string "k2") (Some 8%nat) (Some 100) None 0]
                  s 50%Q ltac:(vm_compute; reflexivity)) as (H1 & H2 & _)
  end.
  split; [rewrite H2; reflexivity|rewrite H1; reflexivity].
Defined.

(** X26.  [delete] returns whether the key was present; afterwards the key
    is absent (a [get] of it at any time is a miss), the other keys keep
    their entries, and a present key takes exactly one entry away. *)
Theorem X26_delete_removes_only_the_key :
  forall (A : Type) (max_size default_ttl : Z) (ops : list (Cache.op A))
         (self : Cache.CacheService A) (key : Py.str),
    Cache.apply_ops (Cache.new_CacheService max_size default_ttl) ops = Some self ->
    let r := Cache.delete self key in
    fst r = Dict.mem key (Cache._cache self) /\
    (forall now, fst (Cache.get (snd r) key now) = None) /\
    (forall k', k' <> key ->
       Dict.lookup k' (Cache._cache (snd r)) = Dict.lookup k' (Cache._cache self)) /\
    Cache.entries (snd r) = Cache.entries self - (if fst r then 1 else 0).
Proof.
  intros A ms ttl ops self key Hops r.
  assert (Hnd : one_entry_per_key A self).
  { apply (apply_ops_keys A ops _ _ Hops). constructor. }
  unfold r, Cache.delete, Dict.mem.
  destruct (Dict.lookup key (Cache._cache self)) as [it|] eqn:Hl; cbn [fst snd].
  - split; [reflexivity|]. split; [|split].
    + intros now. unfold Cache.get. cbn [Cache._cache Cache.with_cache].
      now rewrite lookup_remove_same.
    + intros k' Hne. cbn [Cache._cache Cache.with_cache].
      apply lookup_remove_other. congruence.
    + unfold Cache.entries. cbn [Cache._cache Cache.with_cache].
      pose proof (remove_present_one key (Cache._cache self) it Hnd Hl). lia.
  - split; [reflexivity|]. split; [|split].
    + intros now. unfold Cache.get. now rewrite Hl.
    + reflexivity.
    + lia.
Qed.

(** X26 after one [set]: deleting the key returns [True] and leaves the
    cache empty. *)
Lemma X26_delete_witness :
  fst (Cache.delete Examples.cache_with_seven Examples.key1) = true /\
  Cache.entries (snd (Cache.delete Examples.cache_with_seven Examples.key1)) = 0.
Proof.
  destruct (X26_delete_removes_only_the_key Datatypes.nat 10 3600
              [Cache.OpSet Examples.key1 (Some 7%nat) (Some 100) None 0]
              Examples.cache_with_seven Examples.key1 ltac:(vm_compute; reflexivity))
    as (H1 & _ & _ & H4).
  split; [rewrite H1; reflexivity|rewrite H4, H1; reflexivity].
Defined.

Section CacheHits.
Import Py Cache.

Variables A W E : Type.

(** A [get_or_set] of a key whose entry holds a value other than [None]
    and has not expired returns the value, does not call the factory, and
    leaves the entry in the cache. *)
Lemma get_or_set_hit (self : CacheService A) (key : str) (it : item A) (a : A)
    (factory : W -> (E + option A) * W) (ttl : option Z) (m : option Q)
    (t t' : Q) (w : W) :
  Dict.lookup key (_cache self) = Some it ->
  value it = Some a ->
  (t <= expires_at it)%Q ->
  exists self',
    get_or_set self key factory ttl m t t' w = Some (inr (Some a), self', w) /\
    Dict.lookup key (_cache self') = Some it.
Proof.
  intros Hl Hv Ht. unfold get_or_set, get. rewrite Hl.
  unfold Cache.Qlt_bool. apply Qle_bool_iff in Ht. rewrite Ht. cbn [negb].
  rewrite Hv. eexists. split; [reflexivity|].
  cbn [_cache with_cache]. unfold Dict.move_to_end. rewrite Hl.
  rewrite lookup_app_absent by apply lookup_remove_same.
  cbn. now rewrite str_eqb_refl.
Qed.

Lemma get_or_set_each_hits (key : str) (it : item A) (a : A) :
  value it = Some a ->
  forall (requests : list (request A W E)) (self : CacheService A) (w : W),
    Dict.lookup key (_cache self) = Some it ->
    Forall (fun r => (request_now r <= expires_at it)%Q) requests ->
    exists self',
      get_or_set_each self key requests w
      = Some (repeat (inr (Some a)) (length requests), self', w).
Proof.
  intros Hv. induction requests as [|r requests IH]; intros self w Hl Hall.
  - eexists. reflexivity.
  - inversion Hall as [|? ? Hr Hrest]; subst.
    destruct (get_or_set_hit self key it a (request_factory A W E r)
                (request_ttl A W E r) (request_memory_percent A W E r)
                (request_now r) (request_now' A W E r) w Hl Hv Hr)
      as (self1 & H1 & Hl1).
    destruct (IH self1 w Hl1 Hrest) as (self2 & H2).
    exists self2. cbn [get_or_set_each length repeat]. rewrite H1, H2. reflexivity.
Qed.

End CacheHits.

(** X27.  [get_or_set] computes a value once.  With a capacity of at least
    1, when the key is a miss and the factory returns a value other than
    [None], the call returns that value and stores it.  After that, in every
    run of successive [get_or_set] calls for the key, whatever their
    factories, as long as each call reads the clock no later than the expiry
    of the entry and no other call on the cache comes in between, every call
    returns the stored value and the world of the factories is left
    untouched: no factory is called. *)
Theorem X27_get_or_set_computes_once :
  forall (A W E : Type) (self : Cache.CacheService A) (key : Py.str)
         (factory : W -> (E + option A) * W) (a : A)
         (ttl : option Z) (memory_percent : option Q) (now now' : Q) (w w1 : W),
    1 <= Cache.max_size self ->
    fst (Cache.get self key now) = None ->
    factory w = (inr (Some a), w1) ->
    let expiry := (now' + inject_Z (match ttl with
                                    | Some t => t
                                    | None => Cache.default_ttl self
                                    end))%Q in
    exists self1,
      Cache.get_or_set self key factory ttl memory_percent now now' w
      = Some (inr (Some a), self1, w1) /\
      forall (requests : list (Cache.request A W E)) (w2 : W),
        Forall (fun r => (Cache.request_now r <= expiry)%Q) requests ->
        exists self2,
          Cache.get_or_set_each self1 key requests w2
          = Some (repeat (inr (Some a)) (length requests), self2, w2).
Proof.
  intros A W E self key factory a ttl m now now' w w1 Hm Hmiss Hf expiry.
  destruct (get_keeps_configuration A self key now) as (Hms & Httl & _).
  unfold Cache.get_or_set.
  destruct (Cache.get self key now) as [v0 self0] eqn:Hg.
  cbn [fst snd] in Hmiss, Hms, Httl. subst v0. rewrite Hf.
  destruct (lookup_after_set A self0 key (Some a) ttl m now' ltac:(lia))
    as (self1 & Hset & Hl).
  rewrite Hset. exists self1. split; [reflexivity|].
  intros requests w2 Hall. rewrite Httl in Hl.
  exact (get_or_set_each_hits A W E key (Cache.mkItem (Some a) expiry now') a eq_refl
           requests self1 w2 Hl Hall).
Qed.

(** X27 on a new cache of capacity 10, with factories that count their
    calls in the world: after the first call the count is 1, and two more
    calls, 100 and 200 seconds later, return the same value with the count
    unchanged. *)
Lemma X27_get_or_set_witness :
  exists self1,
    Cache.get_or_set (E := unit) (Cache.new_CacheService 10 3600) Examples.key1
      (fun n : nat => (inr (Some 7%nat), S n)) None None 0 0 0%nat
    = Some (inr (Some 7%nat), self1, 1%nat) /\
    exists self2,
      Cache.get_or_set_each (E := unit) self1 Examples.key1
        [Cache.mkRequest (fun n : nat => (inr (Some 9%nat), S n)) None None 100 100;
         Cache.mkRequest (fun n : nat => (inr (Some 9%nat), S n)) None None 200 200]
        1%nat
      = Some ([inr (Some 7%nat); inr (Some 7%nat)], self2, 1%nat).
Proof.
  destruct (X27_get_or_set_computes_once Datatypes.nat Datatypes.nat unit
              (Cache.new_CacheService 10 3600) Examples.key1
              (fun n : nat => (inr (Some 7%nat), S n)) 7%nat None None 0%Q 0%Q 0%nat 1%nat
              ltac:(cbn; lia) eq_refl eq_refl) as (self1 & H1 & H2).
  exists self1. split; [exact H1|].
  apply (H2 [Cache.mkRequest (fun n : nat => (inr (Some 9%nat), S n)) None None 100 100;
             Cache.mkRequest (fun n : nat => (inr (Some 9%nat), S n)) None None 200 200]
            1%nat).
  repeat constructor; vm_compute; discriminate.
Defined.

(** X28.  Reading an entry protects it from the next eviction.  In a full
    cache whose oldest entry [k0] is read before it expires, a [set] of a new
    key (memory not above the threshold) evicts the second-oldest entry
    instead, and [k0] stays, now last but one. *)
Theorem X28_get_refreshes_recency :
  forall (A : Type) (self : Cache.CacheService A)
         (k0 k1 : Py.str) (i0 i1 : Cache.item A) (rest : Dict.t (Cache.item A))
         (key : Py.str) (v : option A) (ttl : option Z) (memory_percent : option Q)
         (now now' : Q),
    Cache._cache self = (k0, i0) :: (k1, i1) :: rest ->
    Dict.lookup k0 ((k1, i1) :: rest) = None ->
    Dict.lookup key (Cache._cache self) = None ->
    Cache.entries self = Cache.max_size self ->
    (now <= Cache.expires_at i0)%Q ->
    (forall p, memory_percent = Some p -> (p / 100 <= Cache._memory_threshold A self)%Q) ->
    let it := Cache.mkItem v (now' + inject_Z (match ttl with
                                               | Some t => t
                                               | None => Cache.default_ttl self
                                               end))%Q now' in
    fst (Cache.get self k0 now) = Cache.value i0 /\
    exists self',
      Cache.set (snd (Cache.get self k0 now)) key v ttl memory_percent now'
      = Some (true, self') /\
      Cache._cache self' = rest ++ [(k0, i0); (key, it)].
Proof.
  intros A self k0 k1 i0 i1 rest key v ttl m now now' Hc Hk0 Hkey Hfull Hlive Hlow it.
  destruct (get_keeps_configuration A self k0 now) as (Hms & Httl & Hth).
  assert (Hg : fst (Cache.get self k0 now) = Cache.value i0 /\
               Cache._cache (snd (Cache.get self k0 now))
               = ((k1, i1) :: rest) ++ [(k0, i0)]).
  { unfold Cache.get. rewrite Hc. cbn [Dict.lookup]. rewrite str_eqb_refl.
    unfold Cache.Qlt_bool. apply Qle_bool_iff in Hlive. rewrite Hlive. cbn [negb fst snd].
    split; [reflexivity|]. cbn [Cache._cache Cache.with_cache].
    unfold Dict.move_to_end. cbn [Dict.lookup]. rewrite str_eqb_refl.
    f_equal. unfold Dict.remove. cbn [filter fst]. rewrite str_eqb_refl. cbn [negb].
    exact (remove_absent k0 _ Hk0). }
  destruct Hg as [Hv Hc1]. split; [exact Hv|].
  set (self1 := snd (Cache.get self k0 now)) in *.
  assert (Hkey1 : Dict.lookup key (Cache._cache self1) = None).
  { apply not_in_lookup_none. intros Hin. apply (lookup_none_not_in key _ Hkey).
    rewrite Hc1, map_app in Hin. rewrite Hc. cbn [map fst] in *.
    apply in_app_or in Hin. destruct Hin as [Hin|[Hin|[]]]; [right; exact Hin|left; exact Hin]. }
  assert (Hsize : 0 <= Cache.max_size self) by (unfold Cache.entries in Hfull; lia).
  destruct (set_cache A self1 key v ttl m now' ltac:(lia)) as (self' & H1 & H2).
  exists self'. split; [exact H1|].
  rewrite (check_memory_usage_low A self1 m) in H2
    by (intros p Hp; rewrite Hth; exact (Hlow p Hp)).
  rewrite Httl in H2. fold it in H2. rewrite H2.
  rewrite (remove_absent key _ Hkey1), Hc1, Hms. rewrite !length_app.
  unfold Cache.entries in Hfull. rewrite Hc in Hfull. cbn [length] in *.
  replace (Z.to_nat (Z.of_nat (S (length rest) + 1 + 1) - Cache.max_size self))
    with 1%nat by lia.
  cbn [skipn app]. now rewrite <- app_assoc.
Qed.

(** X28 on a cache of capacity 2 that holds [k1] and [k2]: [k1] is read,
    then [k3] is stored; [k2] is evicted. *)
Lemma X28_recency_witness :
  exists self',
    Cache.set (snd (Cache.get
                      (Cache.mkCacheService Datatypes.nat 2 3600
                         [(Examples.key1, Cache.mkItem (Some 7%nat) 100 0);
                          (Py.of_string "k2", Cache.mkItem (Some 8%nat) 100 0)]
                         (8 # 10) (Cache.mkStats 0 0 0 2))
                      Examples.key1 1))
              (Py.of_string "k3") (Some 9%nat) (Some 60) None 2
    = Some (true, self') /\
    map fst (Cache._cache self') = [Examples.key1; Py.of_string "k3"].
Proof.
  destruct (X28_get_refreshes_recency Datatypes.nat
              (Cache.mkCacheService Datatypes.nat 2 3600
                 [(Examples.key1, Cache.mkItem (Some 7%nat) 100 0);
                  (Py.of_string "k2", Cache.mkItem (Some 8%nat) 100 0)]
                 (8 # 10) (Cache.mkStats 0 0 0 2))
              Examples.key1 (Py.of_string "k2")
              (Cache.mkItem (Some 7%nat) 100 0) (Cache.mkItem (Some 8%nat) 100 0) []
              (Py.of_string "k3") (Some 9%nat) (Some 60) None 1%Q 2%Q
              eq_refl eq_refl eq_refl eq_refl
              ltac:(vm_compute; discriminate)
              ltac:(intros p Hp; discriminate Hp))
    as (_ & self' & H1 & H2).
  exists self'. split; [exact H1|]. rewrite H2. reflexivity.
Defined.

(* ================================================================== *)
(** ** Embedding service: which texts are rejected *)
(* ================================================================== *)

Lemma drop_while_app_last (p : Py.char -> bool) (l : Py.str) (c : Py.char) :
  p c = false -> Py.drop_while p (l ++ [c]) = Py.drop_while p l ++ [c].
Proof.
  intros Hc. induction l as [|x l IH]; cbn; [now rewrite Hc|].
  destruct (p x); [exact IH|reflexivity].
Qed.

Lemma drop_while_head (p : Py.char -> bool) (s : Py.str) (c : Py.char) (r : Py.str) :
  Py.drop_while p s = c :: r -> p c = false.
Proof.
  induction s as [|x s IH]; cbn; [discriminate|].
  destruct (p x) eqn:E; [exact IH|]. now intros [= <- _].
Qed.

Lemma drop_while_nil (p : Py.char -> bool) (s : Py.str) :
  Py.drop_while p s = [] <-> forallb p s = true.
Proof.
  induction s as [|x s IH]; cbn; [tauto|].
  destruct (p x); cbn; [exact IH|]. split; discriminate.
Qed.

(** What [strip] leaves starts with the first character that is not white
    space. *)
Lemma strip_cons (s : Py.str) (c : Py.char) (r : Py.str) :
  Py.lstrip s = c :: r -> Py.strip s = c :: Py.rstrip r /\ Py.isspace c = false.
Proof.
  unfold Py.strip, Py.lstrip. intros H. rewrite H.
  pose proof (drop_while_head _ _ _ _ H) as Hc. split; [|exact Hc].
  unfold Py.rstrip. cbn [rev]. rewrite (drop_while_app_last _ _ _ Hc), rev_app_distr.
  reflexivity.
Qed.

(** A string is blank (empty after [strip]) exactly when all its characters
    are white space. *)
Lemma truthy_strip (s : Py.str) :
  Py.truthy (Py.strip s) = negb (forallb Py.isspace s).
Proof.
  destruct (Py.lstrip s) as [|c r] eqn:Hl.
  - unfold Py.strip. rewrite Hl. cbn. apply drop_while_nil in Hl. now rewrite Hl.
  - destruct (strip_cons s c r Hl) as [-> Hc]. cbn [Py.truthy].
    destruct (forallb Py.isspace s) eqn:Hall; [|reflexivity].
    apply drop_while_nil in Hall. unfold Py.lstrip in Hl. congruence.
Qed.

Lemma join_first_not_blank (sep p : Py.str) (rest : list Py.str) :
  forallb Py.isspace p = false ->
  forallb Py.isspace (Py.join sep (p :: rest)) = false.
Proof.
  intros Hp. cbn [Py.join]. destruct rest; [exact Hp|].
  rewrite forallb_app, Hp. reflexivity.
Qed.

Lemma split_aux_not_blank (sep : Py.str) :
  forall (s cur : Py.str),
    forallb Py.isspace (rev cur) = false ->
    forallb Py.isspace (Py.join sep (Py.split_aux cur s)) = false.
Proof.
  induction s as [|c tl IH]; intros cur Hcur; cbn [Py.split_aux].
  - destruct cur; [discriminate|]. exact Hcur.
  - destruct (Py.isspace c) eqn:Hc.
    + destruct cur; [discriminate|]. now apply join_first_not_blank.
    + apply IH. cbn [rev]. rewrite forallb_app. cbn. rewrite Hc.
      now rewrite andb_false_r.
Qed.

Lemma preprocess_text_blank (self : Embedding.EmbeddingService) (text : Py.str) :
  1 <= Embedding.max_seq_length self ->
  Py.truthy (Py.strip (Embedding._preprocess_text self text))
  = Py.truthy (Py.strip text).
Proof.
  intros Hm. unfold Embedding._preprocess_text.
  destruct (Py.lstrip text) as [|c r] eqn:Hl.
  - assert (Hs : Py.strip text = []) by (unfold Py.strip; now rewrite Hl).
    rewrite Hs. destruct (Py.truthy text); cbn [negb]; [|reflexivity].
    assert (Hle : (Py.len [] >? Embedding.max_seq_length self * 4) = false)
      by (rewrite Z.gtb_ltb; apply Z.ltb_ge; unfold Py.len; cbn [length]; lia).
    rewrite Hle. reflexivity.
  - destruct (strip_cons text c r Hl) as [Hs Hc]. rewrite Hs.
    destruct text as [|t0 text']; [discriminate|]. cbn [Py.truthy negb].
    set (n := Embedding.max_seq_length self * 4).
    assert (Hcut : exists q,
      (if Py.len (c :: Py.rstrip r) >? n
       then Py.slice_to (c :: Py.rstrip r) n else c :: Py.rstrip r) = c :: q).
    { destruct (Py.len (c :: Py.rstrip r) >? n) eqn:Hgt; [|eauto].
      unfold Py.slice_to, Py.norm_index.
      assert (Hn : (n <? 0) = false) by (apply Z.ltb_ge; unfold n; lia).
      rewrite Hn. unfold Py.len. cbn [length].
      destruct (Z.to_nat (Z.min n (Z.of_nat (S (length (Py.rstrip r)))))) as [|k] eqn:Hk;
        [unfold n in Hk; lia|].
      cbn [firstn]. eauto. }
    destruct Hcut as [q ->].
    rewrite truthy_strip. unfold Py.split. cbn [Py.split_aux]. rewrite Hc.
    rewrite split_aux_not_blank; [reflexivity|]. cbn. now rewrite Hc.
Qed.

(** X29.  With [max_seq_length >= 1], preprocessing neither makes a text
    blank nor fills a blank one, so [get_embedding] raises "Empty text after
    preprocessing" exactly for the texts that are empty or all white space,
    and returns the vector of the preprocessed text for every other. *)
Theorem X29_get_embedding_rejects_exactly_blank_texts :
  forall (Vec : Type) (embed : Py.str -> Vec)
         (self : Embedding.EmbeddingService) (text : Py.str),
    1 <= Embedding.max_seq_length self ->
    Py.truthy (Py.strip (Embedding._preprocess_text self text))
    = negb (forallb Py.isspace text) /\
    Embedding.get_embedding Vec embed self text
    = if forallb Py.isspace text
      then inl (Embedding.EmbeddingServiceError "Empty text after preprocessing")
      else inr (embed (Embedding._preprocess_text self text)).
Proof.
  intros Vec embed self text Hm.
  pose proof (preprocess_text_blank self text Hm) as H.
  rewrite (truthy_strip text) in H. split; [exact H|].
  unfold Embedding.get_embedding. rewrite H.
  destruct (forallb Py.isspace text); reflexivity.
Qed.

(** X29 at the default service: a text of spaces, a tab and a line feed is
    rejected, and a padded word is embedded as the word. *)
Lemma X29_get_embedding_witness :
  Embedding.get_embedding Py.str Examples.embed_id Embedding.new_EmbeddingService
    [32; 9; 10; 32]%N
  = inl (Embedding.EmbeddingServiceError "Empty text after preprocessing") /\
  Embedding.get_embedding Py.str Examples.embed_id Embedding.new_EmbeddingService
    (Py.of_string "  alpha ")
  = inr (Examples.embed_id (Py.of_string "alpha")).
Proof.
  split.
  - exact (proj2 (X29_get_embedding_rejects_exactly_blank_texts Py.str Examples.embed_id
                    Embedding.new_EmbeddingService [32; 9; 10; 32]%N
                    ltac:(cbn; lia))).
  - exact (proj2 (X29_get_embedding_rejects_exactly_blank_texts Py.str Examples.embed_id
                    Embedding.new_EmbeddingService (Py.of_string "  alpha ")
                    ltac:(cbn; lia))).
Defined.

Lemma filter_map_commute {X Y : Type} (f : Y -> bool) (g : X -> Y) (l : list X) :
  filter f (map g l) = map g (filter (fun x => f (g x)) l).
Proof.
  induction l as [|x l IH]; cbn; [reflexivity|].
  destruct (f (g x)); cbn; now rewrite IH.
Qed.

Lemma filter_keeps_all {X : Type} (f : X -> bool) (l : list X) :
  length (filter f l) = length l <-> forallb f l = true.
Proof.
  induction l as [|x l IH]; cbn; [tauto|].
  pose proof (filter_length_le f l) as Hle.
  destruct (f x); cbn; [rewrite <- IH; lia|].
  split; [lia|discriminate].
Qed.

Section BatchFacts.
Import Py Embedding.

Variables W Vec : Type.
Variable virtual_memory : W -> option svmem * W.
Variable gc_collect : W -> W.
Variable embed : str -> Vec.
Variable self : EmbeddingService.

(** The result of [get_embeddings_batch] for a non-empty list and a positive
    batch size, in terms of the preprocessed texts. *)
Lemma get_embeddings_batch_valid (texts : list str) (batch_size : option Z) (w : W) :
  texts <> [] ->
  0 < _batch_size self ->
  (forall b, batch_size = Some b -> 0 < b) ->
  fst (get_embeddings_batch W Vec virtual_memory gc_collect embed self texts batch_size w)
  = match filter (fun t => truthy (strip t)) (map (_preprocess_text self) texts) with
    | [] => inl (EmbeddingServiceError "No valid texts after preprocessing")
    | valid => inr (map embed valid)
    end.
Proof.
  intros Hne Hdef Hbs. unfold get_embeddings_batch.
  destruct texts as [|t0 texts']; [congruence|].
  set (all := t0 :: texts') in *.
  assert (Hpos : exists b w1,
    match batch_size with
    | Some b => (b, w)
    | None => _get_optimal_batch_size W virtual_memory self (Z.of_nat (length all)) w
    end = (b, w1) /\ 0 < b).
  { destruct batch_size as [b|].
    - exists b, w. split; [reflexivity|]. now apply Hbs.
    - pose proof (optimal_batch_size_positive W virtual_memory self
                    (Z.of_nat (length all)) w) as Hp.
      destruct (_get_optimal_batch_size W virtual_memory self (Z.of_nat (length all)) w)
        as [b w1].
      exists b, w1. split; [reflexivity|]. apply Hp; [subst all; cbn; lia|assumption]. }
  destruct Hpos as (b & w1 & -> & Hb).
  destruct (filter _ (map (_preprocess_text self) all)) as [|v0 valid']; [reflexivity|].
  pose proof (check_memory_usage_returns W virtual_memory gc_collect self w1) as Hc.
  destruct (_check_memory_usage W virtual_memory gc_collect self w1) as [[e|u] w2];
    cbn in Hc; [discriminate|].
  pose proof (generate_embeddings_optimized_map W Vec virtual_memory gc_collect embed self
                (v0 :: valid') b w2 Hb) as Hg.
  destruct (_generate_embeddings_optimized W Vec virtual_memory gc_collect embed self
              (v0 :: valid') b w2) as [[e|embs] w3]; cbn in Hg; [discriminate|].
  inversion Hg; subst. reflexivity.
Qed.

End BatchFacts.

(** X30.  What [get_embeddings_batch] returns, in terms of its input: with
    [max_seq_length >= 1] and a positive batch size, the result holds the
    vectors of the preprocessed forms of exactly the input texts that are not
    blank (not empty and not all white space), in input order.  A caller that
    pairs the vectors with its texts by position therefore gets them aligned
    if and only if no input text is blank. *)
Theorem X30_batch_has_one_vector_per_nonblank_text :
  forall (W Vec : Type) (virtual_memory : W -> option Embedding.svmem * W)
         (gc_collect : W -> W) (embed : Py.str -> Vec)
         (self : Embedding.EmbeddingService) (texts : list Py.str)
         (batch_size : option Z) (w : W),
    1 <= Embedding.max_seq_length self ->
    0 < Embedding._batch_size self ->
    (forall b, batch_size = Some b -> 0 < b) ->
    let kept := filter (fun t => negb (forallb Py.isspace t)) texts in
    kept <> [] ->
    exists vectors,
      fst (Embedding.get_embeddings_batch W Vec virtual_memory gc_collect embed
             self texts batch_size w) = inr vectors /\
      vectors = map (fun t => embed (Embedding._preprocess_text self t)) kept /\
      (length vectors <= length texts)%nat /\
      (length vectors = length texts <->
       forallb (fun t => negb (forallb Py.isspace t)) texts = true).
Proof.
  intros W Vec vm gc embed self texts bs w Hm Hdef Hbs kept Hkept.
  assert (Hne : texts <> []) by (intros ->; now apply Hkept).
  pose proof (get_embeddings_batch_valid W Vec vm gc embed self texts bs w Hne Hdef Hbs)
    as Hmain.
  rewrite filter_map_commute in Hmain.
  rewrite (filter_ext (fun t => Py.truthy (Py.strip (Embedding._preprocess_text self t)))
                      (fun t => negb (forallb Py.isspace t))) in Hmain
    by (intros t; rewrite (preprocess_text_blank self t Hm); apply truthy_strip).
  exists (map (fun t => embed (Embedding._preprocess_text self t)) kept).
  split; [|split; [reflexivity|]].
  - rewrite Hmain.
    assert (Hgen : forall l : list Py.str,
      l <> [] ->
      match map (Embedding._preprocess_text self) l with
      | [] => inl (Embedding.EmbeddingServiceError "No valid texts after preprocessing")
      | valid => inr (map embed valid)
      end = inr (map (fun t => embed (Embedding._preprocess_text self t)) l)).
    { intros [|k0 l] Hl; [congruence|]. cbn [map]. now rewrite map_map. }
    exact (Hgen kept Hkept).
  - rewrite length_map. split; [apply filter_length_le|apply filter_keeps_all].
Qed.

(** X30 for three texts of which the second is blank: two vectors, those of
    the first and the third text. *)
Lemma X30_batch_witness :
  exists vectors,
    fst (Examples.process_get_embeddings_batch Embedding.new_EmbeddingService
           Examples.three_texts None Examples.roomy) = inr vectors /\
    length vectors = 2%nat.
Proof.
  destruct (X30_batch_has_one_vector_per_nonblank_text Examples.process Py.str
              Examples.process_virtual_memory Examples.process_gc_collect
              Examples.embed_id Embedding.new_EmbeddingService Examples.three_texts
              None Examples.roomy ltac:(cbn; lia) ltac:(cbn; lia)
              ltac:(intros b Hb; discriminate Hb)
              ltac:(vm_compute; discriminate))
    as (vectors & H1 & H2 & _).
  exists vectors. split; [exact H1|]. rewrite H2. reflexivity.
Defined.
